(** * Cognitive Fusion core of ATeNNbolt: a shallow embedding and its properties

    The development follows the C++ sources under [include/bolt/cognitive]
    and [src/bolt/cognitive]:

    - [atomspace.hpp], [atomspace.cpp]   the hypergraph knowledge store,
    - [tensor_embedding.hpp]             embeddings and the embedding space,
    - [neural_learnability.hpp]          layers, network, embedding learner,
    - [agent_orchestrator.hpp]           agents and their message queues,
    - [fusion_reactor.hpp]               the facade with its side tables.

    Conventions of the embedding.
    - A C++ [float] is an IEEE-754 binary32 value: [spec_float] of the
      Standard Library at precision 24 and maximal exponent 128, with the
      correctly rounded (nearest-even) operations of [SpecFloat]. Every
      operation of an expression rounds to binary32 on its own (no excess
      precision, no fused multiply-add).
    - A [uint64_t] handle is an [N]; the increment wraps modulo 2^64.
    - [std::vector] is [list]; a [size_t] length or index is a [nat].
    - [std::unordered_map] is stdpp's [gmap]; its iteration order is the
      order of [map_to_list].
    - A member function that mutates its object takes the object as its
      last argument and returns the new one.
    - A function that can throw, or whose behaviour can be undefined
      (unchecked [operator[]], null dereference), returns an [outcome].
    - Mutexes are not modelled: every operation is taken atomically. *)

From Stdlib Require Import ZArith NArith List Floats.SpecFloat Sorting.Permutation Sorting.Sorted.
From stdpp Require Import base option gmap strings list fin_maps.

(** ** Results of C++ calls *)

Inductive outcome (A : Type) : Type :=
| Ok (a : A)
| Throw (what : string)
| Undefined.
Arguments Ok {A} a.
Arguments Throw {A} what.
Arguments Undefined {A}.

#[global] Instance outcome_ret : MRet outcome := fun A a => Ok a.
#[global] Instance outcome_bind : MBind outcome := fun A B f m =>
  match m with
  | Ok a => f a
  | Throw what => Throw what
  | Undefined => Undefined
  end.
#[global] Instance outcome_fmap : FMap outcome := fun A B f m =>
  match m with
  | Ok a => Ok (f a)
  | Throw what => Throw what
  | Undefined => Undefined
  end.

(** [v[i]] on a [std::vector]: no bounds check, out of range is undefined. *)
Definition at_ {A} (v : list A) (i : nat) : outcome A :=
  match v !! i with
  | Some x => Ok x
  | None => Undefined
  end.

(** [for (i = 0; i < n; ++i) acc = body(acc, i)] with a body that may fail. *)
Fixpoint for_loop {A} (body : A -> nat -> outcome A) (idx : list nat) (acc : A) : outcome A :=
  match idx with
  | [] => Ok acc
  | i :: rest => acc' ← body acc i; for_loop body rest acc'
  end.

Definition is_Ok {A} (m : outcome A) : Prop := exists a, m = Ok a.

(** ** binary32 arithmetic *)

Module F32.

Definition prec : Z := 24.
Definition emax : Z := 128.

Definition f32 : Type := spec_float.

Definition add : f32 -> f32 -> f32 := SFadd prec emax.
Definition sub : f32 -> f32 -> f32 := SFsub prec emax.
Definition mul : f32 -> f32 -> f32 := SFmul prec emax.
Definition div : f32 -> f32 -> f32 := SFdiv prec emax.
Definition sqrt : f32 -> f32 := SFsqrt prec emax.

(** [a < b], [a <= b], [a > b], [a >= b]: all false when an operand is NaN. *)
Definition ltb (a b : f32) : bool := SFltb a b.
Definition leb (a b : f32) : bool := SFleb a b.
Definition gtb (a b : f32) : bool := SFltb b a.
Definition geb (a b : f32) : bool := SFleb b a.

Definition is_nan (a : f32) : bool :=
  match a with S754_nan => true | _ => false end.

(** Finite values, the two zeros included. *)
Definition is_finite (a : f32) : bool :=
  match a with S754_zero _ | S754_finite _ _ _ => true | _ => false end.

Definition is_zero (a : f32) : bool :=
  match a with S754_zero _ => true | _ => false end.

(** Conversion of an integer ([size_t] to [float], integer literals). *)
Definition of_Z (z : Z) : f32 := binary_normalize prec emax z 0 false.

(** Decimal literals [n / d] with [n] and [d] exactly representable: the
    correctly rounded quotient is the binary32 value nearest to the decimal,
    which is what the compiler stores for the literal. *)
Definition lit (n d : Z) : f32 := div (of_Z n) (of_Z d).

Definition zero : f32 := S754_zero false.                       (* 0.0f *)
Definition one : f32 := Eval vm_compute in of_Z 1.              (* 1.0f *)
Definition two : f32 := Eval vm_compute in of_Z 2.              (* 2.0f *)
Definition minus_one : f32 := Eval vm_compute in of_Z (-1).     (* -1.0f *)
Definition half : f32 := Eval vm_compute in lit 1 2.            (* 0.5f *)
Definition c0_1 : f32 := Eval vm_compute in lit 1 10.           (* 0.1f *)
Definition c0_7 : f32 := Eval vm_compute in lit 7 10.           (* 0.7f *)
Definition c0_01 : f32 := Eval vm_compute in lit 1 100.         (* 0.01f *)
Definition c1em8 : f32 := Eval vm_compute in lit 1 100000000.   (* 1e-8f *)

(** [std::min(a, b)] is [(b < a) ? b : a]; [std::max(a, b)] is
    [(a < b) ? b : a]; [std::clamp(v, lo, hi)] is
    [(v < lo) ? lo : (hi < v) ? hi : v], as the standard libraries write
    them. On a NaN all comparisons are false: [min] and [max] return their
    first argument, [clamp] returns [v]. *)
Definition min (a b : f32) : f32 := if ltb b a then b else a.
Definition max (a b : f32) : f32 := if ltb a b then b else a.
Definition clamp (v lo hi : f32) : f32 :=
  if ltb v lo then lo else if ltb hi v then hi else v.

(** [std::pow(x, 2)] on a [float] [x]: the arguments are promoted to
    [double], where the square of a binary32 value is exact; converting the
    result back to [float] rounds that exact square once, which is the
    binary32 product. A NaN gives NaN. *)
Definition pow2 (x : f32) : f32 := mul x x.

(** [std::numeric_limits<float>::max()]: (2^24 - 1) * 2^104. *)
Definition max_float : f32 := S754_finite false 16777215 104.

End F32.

Abbreviation f32 := F32.f32.

(** ** [std::sort]

    The algorithm behind [std::sort] is left to the library; the model takes
    it as a parameter and relies on its contract only: when the comparator is
    a strict weak ordering on the elements at hand, the result is a
    permutation of the input in which no later element compares before an
    earlier one. The relative order of equivalent elements is unspecified. *)

Definition sorter : Type := forall A : Type, (A -> A -> bool) -> list A -> list A.

Definition strict_weak_order_on {A} (comp : A -> A -> bool) (l : list A) : Prop :=
  (forall x, In x l -> comp x x = false) /\
  (forall x y z, In x l -> In y l -> In z l ->
     comp x y = true -> comp y z = true -> comp x z = true) /\
  (forall x y z, In x l -> In y l -> In z l ->
     comp x y = false -> comp y x = false ->
     comp y z = false -> comp z y = false ->
     comp x z = false /\ comp z x = false).

Definition sort_contract (std_sort : sorter) : Prop :=
  forall (A : Type) (comp : A -> A -> bool) (l : list A),
    strict_weak_order_on comp l ->
    Permutation l (std_sort A comp l) /\
    StronglySorted (fun a b => comp b a = false) (std_sort A comp l).

(** A conforming implementation: straight insertion, which places an element
    before the first one it compares before. *)
Fixpoint insert_sorted {A} (comp : A -> A -> bool) (x : A) (l : list A) : list A :=
  match l with
  | [] => [x]
  | y :: rest => if comp x y then x :: y :: rest else y :: insert_sorted comp x rest
  end.

Definition insertion_sort : sorter :=
  fun A comp l => fold_left (fun acc x => insert_sorted comp x acc) l [].

(** ** atomspace.hpp, atomspace.cpp: the knowledge store *)

Abbreviation AtomHandle := N.

Module AtomSpace.

Record TruthValue : Type := { strength : f32; confidence : f32 }.

Definition expectation (tv : TruthValue) : f32 := F32.mul (strength tv) (confidence tv).

(** The constructor of [Atom] sets the truth value to (1.0, 1.0). *)
Definition default_truth_value : TruthValue :=
  {| strength := F32.one; confidence := F32.one |}.

(** The two kinds of atoms. The [AtomPtr]s of a Link's outgoing list are
    modelled by the handles of the atoms they point to: the code below reads
    nothing but [getHandle()] through them. *)
Inductive Atom : Type :=
| Node (handle_ : AtomHandle) (name_ : string) (truth_value_ : TruthValue)
       (embedding_ : list f32)
| Link (handle_ : AtomHandle) (name_ : string) (truth_value_ : TruthValue)
       (outgoing_ : list AtomHandle).

Definition getHandle (a : Atom) : AtomHandle :=
  match a with Node h _ _ _ | Link h _ _ _ => h end.

Definition getName (a : Atom) : string :=
  match a with Node _ n _ _ | Link _ n _ _ => n end.

Definition isNode (a : Atom) : bool :=
  match a with Node _ _ _ _ => true | Link _ _ _ _ => false end.

Definition isLink (a : Atom) : bool :=
  match a with Node _ _ _ _ => false | Link _ _ _ _ => true end.

Definition getEmbedding (a : Atom) : list f32 :=
  match a with Node _ _ _ e => e | Link _ _ _ _ => [] end.

Definition hasEmbedding (a : Atom) : bool :=
  match getEmbedding a with [] => false | _ :: _ => true end.

Definition getOutgoing (a : Atom) : list AtomHandle :=
  match a with Node _ _ _ _ => [] | Link _ _ _ o => o end.

Record t : Type := {
  atoms_ : gmap AtomHandle Atom;
  name_index_ : gmap string (list AtomHandle);
  next_handle_ : AtomHandle
}.

(** [AtomSpace() : next_handle_(0)] *)
Definition empty : t :=
  {| atoms_ := ∅; name_index_ := ∅; next_handle_ := 0%N |}.

(** [return ++next_handle_;] on a [uint64_t]. *)
Definition generateHandle (s : t) : AtomHandle * t :=
  let h := ((next_handle_ s + 1) mod 2 ^ 64)%N in
  (h, {| atoms_ := atoms_ s; name_index_ := name_index_ s; next_handle_ := h |}).

(** [atoms_[handle] = atom; name_index_[name].push_back(handle);] *)
Definition store_atom (handle : AtomHandle) (name : string) (atom : Atom) (s : t) : t :=
  {| atoms_ := <[handle := atom]> (atoms_ s);
     name_index_ := <[name := default [] (name_index_ s !! name) ++ [handle]]> (name_index_ s);
     next_handle_ := next_handle_ s |}.

Definition create_node (name : string) (embedding : list f32) (s : t) : Atom * t :=
  let '(handle, s1) := generateHandle s in
  let node := Node handle name default_truth_value embedding in
  (node, store_atom handle name node s1).

(** [addNode]: the lookup reads the first handle indexed under the name only.
    [atoms_[h]] on a handle that the map lacks would insert a null pointer,
    and [existing->isNode()] would dereference it. *)
Definition addNode (name : string) (embedding : list f32) (s : t) : outcome (Atom * t) :=
  match name_index_ s !! name with
  | Some (h0 :: _) =>
      match atoms_ s !! h0 with
      | Some existing =>
          if isNode existing then Ok (existing, s)
          else Ok (create_node name embedding s)
      | None => Undefined
      end
  | _ => Ok (create_node name embedding s)
  end.

Definition addLink (type : string) (outgoing : list AtomHandle) (s : t) : Atom * t :=
  let '(handle, s1) := generateHandle s in
  let link := Link handle type default_truth_value outgoing in
  (link, store_atom handle type link s1).

Definition getAtom (handle : AtomHandle) (s : t) : option Atom := atoms_ s !! handle.

Definition getAllAtoms (s : t) : list Atom := snd <$> map_to_list (atoms_ s).

Definition size (s : t) : nat := base.size (atoms_ s).

Definition clear (s : t) : t := empty.

(** The file-local [cosineSimilarity] of atomspace.cpp. *)
Definition cosineSimilarity (a b : list f32) : f32 :=
  if negb (length a =? length b)%nat || (length a =? 0)%nat then F32.zero
  else
    let '(dot_product, norm_a, norm_b) :=
      fold_left
        (fun '(dot, na, nb) '(x, y) =>
           (F32.add dot (F32.mul x y), F32.add na (F32.mul x x), F32.add nb (F32.mul y y)))
        (combine a b) (F32.zero, F32.zero, F32.zero) in
    let denominator := F32.mul (F32.sqrt norm_a) (F32.sqrt norm_b) in
    if F32.ltb denominator F32.c1em8 then F32.zero
    else F32.div dot_product denominator.

(** The scan of [querySimilar]: one entry per Node that carries an embedding
    and whose similarity passes [sim >= threshold]. *)
Definition scan_atom (query_embedding : list f32) (threshold : f32) (atom : Atom)
  : option (Atom * f32) :=
  if isNode atom && hasEmbedding atom then
    let sim := cosineSimilarity query_embedding (getEmbedding atom) in
    if F32.geb sim threshold then Some (atom, sim) else None
  else None.

(** The comparator of both k-NN queries: [a.second > b.second]. *)
Definition by_similarity {A} (a b : A * f32) : bool := F32.gtb (snd a) (snd b).

Definition querySimilar (std_sort : sorter) (query_embedding : list f32) (k : nat)
    (threshold : f32) (s : t) : list (Atom * f32) :=
  let similarities := omap (scan_atom query_embedding threshold) (getAllAtoms s) in
  take k (std_sort _ by_similarity similarities).

(** [result.push_back(atoms_.at(handle))] for the handles indexed under a
    name. [at] throws [std::out_of_range] on a key that the map lacks; the
    text of its [what()] is the library's, the model names the exception. *)
Fixpoint atoms_at (atoms : gmap AtomHandle Atom) (handles : list AtomHandle)
  : outcome (list Atom) :=
  match handles with
  | [] => Ok []
  | handle :: rest =>
      match atoms !! handle with
      | Some atom => result ← atoms_at atoms rest; mret (atom :: result)
      | None => Throw "std::out_of_range"
      end
  end.

Definition getAtomsByName (name : string) (s : t) : outcome (list Atom) :=
  match name_index_ s !! name with
  | Some handles => atoms_at (atoms_ s) handles
  | None => Ok []
  end.

End AtomSpace.

(** ** tensor_embedding.hpp: embeddings and the embedding space *)

Module TensorEmbedding.

(** The class keeps [dimensions_ == data_.size()]: every constructor
    establishes it and no code of the repository resizes [data_] afterwards.
    The model keeps the data and reads the dimension off it. *)
Record t : Type := { data_ : list f32 }.

(** [TensorEmbedding(const std::vector<float>& data)] *)
Definition of_data (data : list f32) : t := {| data_ := data |}.

(** [explicit TensorEmbedding(size_t dims)]: [dims] zeros. *)
Definition zeros (dims : nat) : t := {| data_ := replicate dims F32.zero |}.

Definition dimensions (e : t) : nat := length (data_ e).

(** [operator[]], unchecked. *)
Definition get (e : t) (i : nat) : outcome f32 := at_ (data_ e) i.

(** The method has the body of the store's file-local function, over
    [data_] and [dimensions_]. *)
Definition cosineSimilarity (this other : t) : f32 :=
  AtomSpace.cosineSimilarity (data_ this) (data_ other).

(** [euclideanDistance]: the largest finite value on a dimension mismatch;
    past the guard both vectors have [dimensions_] entries. *)
Definition euclideanDistance (this other : t) : f32 :=
  if negb (dimensions this =? dimensions other)%nat then F32.max_float
  else
    F32.sqrt
      (fold_left
         (fun sum '(x, y) => let diff := F32.sub x y in F32.add sum (F32.mul diff diff))
         (combine (data_ this) (data_ other)) F32.zero).

(** [normalize]: divides by the norm only when [norm > 1e-8f]. *)
Definition normalize (e : t) : t :=
  let norm := F32.sqrt (fold_left (fun norm val => F32.add norm (F32.mul val val))
                                  (data_ e) F32.zero) in
  if F32.gtb norm F32.c1em8 then {| data_ := map (fun val => F32.div val norm) (data_ e) |}
  else e.

(** [normalized]: [normalize] on a copy. *)
Definition normalized (e : t) : t := normalize e.

(** [TensorEmbedding result(dims); for (i < dims) result.data_[i] = entry(i);] *)
Definition tabulate (dims : nat) (entry : nat -> outcome f32) : outcome t :=
  data ← for_loop (fun result i => x ← entry i; mret (<[i := x]> result))
                  (seq 0 dims) (replicate dims F32.zero);
  mret {| data_ := data |}.

(** [operator+] *)
Definition add (this other : t) : outcome t :=
  if negb (dimensions this =? dimensions other)%nat then
    Throw "Dimension mismatch in embedding addition"
  else
    tabulate (dimensions this)
      (fun i => x ← at_ (data_ this) i; y ← at_ (data_ other) i; mret (F32.add x y)).

(** [operator-] *)
Definition sub (this other : t) : outcome t :=
  if negb (dimensions this =? dimensions other)%nat then
    Throw "Dimension mismatch in embedding subtraction"
  else
    tabulate (dimensions this)
      (fun i => x ← at_ (data_ this) i; y ← at_ (data_ other) i; mret (F32.sub x y)).

(** [operator*(float scalar)]: no check to make. *)
Definition scale (this : t) (scalar : f32) : outcome t :=
  tabulate (dimensions this) (fun i => x ← at_ (data_ this) i; mret (F32.mul x scalar)).

Definition dot (this other : t) : outcome f32 :=
  if negb (dimensions this =? dimensions other)%nat then
    Throw "Dimension mismatch in dot product"
  else
    for_loop
      (fun result i =>
         x ← at_ (data_ this) i; y ← at_ (data_ other) i; mret (F32.add result (F32.mul x y)))
      (seq 0 (dimensions this)) F32.zero.

End TensorEmbedding.

Module EmbeddingSpace.

Record t : Type := {
  dimensions_ : nat;
  embeddings_ : list (string * TensorEmbedding.t)
}.

(** [explicit EmbeddingSpace(size_t dims)] *)
Definition empty (dims : nat) : t := {| dimensions_ := dims; embeddings_ := [] |}.

Definition addEmbedding (id : string) (embedding : TensorEmbedding.t) (sp : t) : outcome t :=
  if negb (TensorEmbedding.dimensions embedding =? dimensions_ sp)%nat then
    Throw "Embedding dimension mismatch"
  else
    Ok {| dimensions_ := dimensions_ sp;
          embeddings_ := embeddings_ sp ++ [(id, embedding)] |}.

Definition scan_entry (query : TensorEmbedding.t) (threshold : f32)
    (entry : string * TensorEmbedding.t) : option (string * f32) :=
  let sim := TensorEmbedding.cosineSimilarity query (snd entry) in
  if F32.geb sim threshold then Some (fst entry, sim) else None.

Definition findNearest (std_sort : sorter) (query : TensorEmbedding.t) (k : nat)
    (threshold : f32) (sp : t) : outcome (list (string * f32)) :=
  if negb (TensorEmbedding.dimensions query =? dimensions_ sp)%nat then
    Throw "Query dimension mismatch"
  else
    let similarities := omap (scan_entry query threshold) (embeddings_ sp) in
    Ok (take k (std_sort _ AtomSpace.by_similarity similarities)).

(** First entry stored under the name, or [nullptr]. *)
Fixpoint lookup_first (id : string) (l : list (string * TensorEmbedding.t))
  : option TensorEmbedding.t :=
  match l with
  | [] => None
  | (emb_id, embedding) :: rest =>
      if String.eqb emb_id id then Some embedding else lookup_first id rest
  end.

Definition getEmbedding (id : string) (sp : t) : option TensorEmbedding.t :=
  lookup_first id (embeddings_ sp).

Definition size (sp : t) : nat := length (embeddings_ sp).

End EmbeddingSpace.

(** ** neural_learnability.hpp: layers, network, embedding learner *)

Module activation.

Definition relu (x : f32) : f32 := F32.max F32.zero x.

Definition reluDerivative (x : f32) : f32 :=
  if F32.gtb x F32.zero then F32.one else F32.zero.

End activation.

Module NeuralLayer.

(** [activation_] and [activation_derivative_] are [std::function]s; the
    model takes them as total functions on binary32 values. *)
Record t : Type := {
  input_size_ : nat;
  output_size_ : nat;
  weights_ : list (list f32);
  biases_ : list f32;
  activation_ : f32 -> f32;
  activation_derivative_ : f32 -> f32;
  last_input_ : list f32;
  last_output_ : list f32;
  last_preactivation_ : list f32
}.

(** The constructor, with the weights drawn by [initializeWeights] given as
    an argument; the biases are set to 0.01f. *)
Definition make (input_size output_size : nat) (act act' : f32 -> f32)
    (drawn : list (list f32)) : t :=
  {| input_size_ := input_size; output_size_ := output_size;
     weights_ := drawn; biases_ := replicate output_size F32.c0_01;
     activation_ := act; activation_derivative_ := act';
     last_input_ := []; last_output_ := []; last_preactivation_ := [] |}.

(** Shape of a constructed layer: [weights_] is [output_size_] rows of
    [input_size_] entries, [biases_] has [output_size_] entries. *)
Definition shaped (L : t) : Prop :=
  length (weights_ L) = output_size_ L /\
  Forall (fun row => length row = input_size_ L) (weights_ L) /\
  length (biases_ L) = output_size_ L.

(** [sum = biases_[i]; for j: sum += weights_[i][j] * input[j];] *)
Definition preactivation (L : t) (input : list f32) (i : nat) : outcome f32 :=
  b ← at_ (biases_ L) i;
  for_loop
    (fun sum j =>
       row ← at_ (weights_ L) i;
       w ← at_ row j;
       x ← at_ input j;
       mret (F32.add sum (F32.mul w x)))
    (seq 0 (input_size_ L)) b.

Fixpoint preactivations (L : t) (input : list f32) (idx : list nat) : outcome (list f32) :=
  match idx with
  | [] => Ok []
  | i :: rest =>
      sum ← preactivation L input i;
      sums ← preactivations L input rest;
      mret (sum :: sums)
  end.

Definition forward (input : list f32) (L : t) : outcome (list f32 * t) :=
  pre ← preactivations L input (seq 0 (output_size_ L));
  let out := map (activation_ L) pre in
  mret (out,
        {| input_size_ := input_size_ L; output_size_ := output_size_ L;
           weights_ := weights_ L; biases_ := biases_ L;
           activation_ := activation_ L;
           activation_derivative_ := activation_derivative_ L;
           last_input_ := input; last_output_ := out; last_preactivation_ := pre |}).

(** [preact_gradient[i] = output_gradient[i] * activation_derivative_(last_preactivation_[i])] *)
Fixpoint preact_gradients (L : t) (output_gradient : list f32) (idx : list nat)
  : outcome (list f32) :=
  match idx with
  | [] => Ok []
  | i :: rest =>
      g ← at_ output_gradient i;
      p ← at_ (last_preactivation_ L) i;
      gs ← preact_gradients L output_gradient rest;
      mret (F32.mul g (activation_derivative_ L p) :: gs)
  end.

(** The inner loop of [backward] for row [i]: the input gradient reads the
    weight before the same iteration updates it. *)
Definition backward_row (L : t) (learning_rate pg : f32) (i : nat)
    (st : list f32 * list (list f32)) (j : nat) : outcome (list f32 * list (list f32)) :=
  let '(input_gradient, weights) := st in
  row ← at_ weights i;
  w ← at_ row j;
  g ← at_ input_gradient j;
  x ← at_ (last_input_ L) j;
  mret (<[j := F32.add g (F32.mul pg w)]> input_gradient,
        <[i := <[j := F32.sub w (F32.mul (F32.mul learning_rate pg) x)]> row]> weights).

Definition backward_unit (L : t) (learning_rate : f32) (preact_gradient : list f32)
    (st : list f32 * list (list f32) * list f32) (i : nat)
  : outcome (list f32 * list (list f32) * list f32) :=
  let '(input_gradient, weights, biases) := st in
  pg ← at_ preact_gradient i;
  '(input_gradient', weights') ←
    for_loop (backward_row L learning_rate pg i) (seq 0 (input_size_ L))
             (input_gradient, weights);
  b ← at_ biases i;
  mret (input_gradient', weights', <[i := F32.sub b (F32.mul learning_rate pg)]> biases).

Definition backward (output_gradient : list f32) (learning_rate : f32) (L : t)
  : outcome (list f32 * t) :=
  preact_gradient ← preact_gradients L output_gradient (seq 0 (output_size_ L));
  '(input_gradient, weights, biases) ←
    for_loop (backward_unit L learning_rate preact_gradient) (seq 0 (output_size_ L))
             (replicate (input_size_ L) F32.zero, weights_ L, biases_ L);
  mret (input_gradient,
        {| input_size_ := input_size_ L; output_size_ := output_size_ L;
           weights_ := weights; biases_ := biases;
           activation_ := activation_ L;
           activation_derivative_ := activation_derivative_ L;
           last_input_ := last_input_ L; last_output_ := last_output_ L;
           last_preactivation_ := last_preactivation_ L |}).

End NeuralLayer.

Module LearnableNetwork.

Record t : Type := {
  layers_ : list NeuralLayer.t;
  learning_rate_ : f32
}.

(** [explicit LearnableNetwork(float learning_rate)] *)
Definition make (learning_rate : f32) : t :=
  {| layers_ := []; learning_rate_ := learning_rate |}.

(** [layers_.emplace_back(...)], with the constructed layer as argument. *)
Definition addLayer (L : NeuralLayer.t) (net : t) : t :=
  {| layers_ := layers_ net ++ [L]; learning_rate_ := learning_rate_ net |}.

Fixpoint forward_layers (current : list f32) (layers : list NeuralLayer.t)
  : outcome (list f32 * list NeuralLayer.t) :=
  match layers with
  | [] => Ok (current, [])
  | L :: rest =>
      '(out, L') ← NeuralLayer.forward current L;
      '(final, rest') ← forward_layers out rest;
      mret (final, L' :: rest')
  end.

Definition forward (input : list f32) (net : t) : outcome (list f32 * t) :=
  '(out, layers) ← forward_layers input (layers_ net);
  mret (out, {| layers_ := layers; learning_rate_ := learning_rate_ net |}).

(** The layers in the order in which [backward] visits them (last first). *)
Fixpoint backward_layers (learning_rate : f32) (current_gradient : list f32)
    (visited : list NeuralLayer.t) : outcome (list NeuralLayer.t) :=
  match visited with
  | [] => Ok []
  | L :: rest =>
      '(gradient, L') ← NeuralLayer.backward current_gradient learning_rate L;
      rest' ← backward_layers learning_rate gradient rest;
      mret (L' :: rest')
  end.

Definition backward (output_gradient : list f32) (net : t) : outcome t :=
  visited ← backward_layers (learning_rate_ net) output_gradient (rev (layers_ net));
  mret {| layers_ := rev visited; learning_rate_ := learning_rate_ net |}.

(** [error = output[i] - target[i]] for every index of [output]. *)
Fixpoint errors (output target : list f32) (i : nat) : outcome (list f32) :=
  match output with
  | [] => Ok []
  | o :: rest =>
      t ← at_ target i;
      es ← errors rest target (S i);
      mret (F32.sub o t :: es)
  end.

Definition train (input target : list f32) (net : t) : outcome (f32 * t) :=
  '(output, net1) ← forward input net;
  let n := F32.of_Z (Z.of_nat (length output)) in
  es ← errors output target 0;
  let gradient := map (fun error => F32.div (F32.mul F32.two error) n) es in
  let loss := fold_left (fun loss error => F32.add loss (F32.mul error error)) es F32.zero in
  net2 ← backward gradient net1;
  mret (F32.div loss n, net2).

Definition setLearningRate (rate : f32) (net : t) : t :=
  {| layers_ := layers_ net; learning_rate_ := rate |}.

End LearnableNetwork.

Module EmbeddingLearner.

Record t : Type := {
  embedding_dim_ : nat;
  network_ : LearnableNetwork.t
}.

(** The constructor: two ReLU layers, [dim -> 2 dim -> dim], with the drawn
    weights of each given as arguments. ([embedding_dim * 2] cannot wrap for
    a dimension that a vector can have.) *)
Definition make (embedding_dim : nat) (learning_rate : f32)
    (drawn1 drawn2 : list (list f32)) : t :=
  {| embedding_dim_ := embedding_dim;
     network_ :=
       LearnableNetwork.addLayer
         (NeuralLayer.make (embedding_dim * 2) embedding_dim
            activation.relu activation.reluDerivative drawn2)
         (LearnableNetwork.addLayer
            (NeuralLayer.make embedding_dim (embedding_dim * 2)
               activation.relu activation.reluDerivative drawn1)
            (LearnableNetwork.make learning_rate)) |}.

Definition transform (input : TensorEmbedding.t) (l : t) : outcome (TensorEmbedding.t * t) :=
  if negb (TensorEmbedding.dimensions input =? embedding_dim_ l)%nat then
    Throw "Input dimension mismatch"
  else
    '(output, net) ← LearnableNetwork.forward (TensorEmbedding.data_ input) (network_ l);
    mret (TensorEmbedding.of_data output,
          {| embedding_dim_ := embedding_dim_ l; network_ := net |}).

(** [target1[i] += adjustment * (transformed2[i] - transformed1[i])] *)
Definition nudge (adjustment : f32) (transformed1 transformed2 : TensorEmbedding.t)
    (target1 : list f32) (i : nat) : outcome (list f32) :=
  t2 ← TensorEmbedding.get transformed2 i;
  t1 ← TensorEmbedding.get transformed1 i;
  x ← at_ target1 i;
  mret (<[i := F32.add x (F32.mul adjustment (F32.sub t2 t1))]> target1).

Definition current_similarity (embedding1 embedding2 : TensorEmbedding.t) (l : t)
  : outcome f32 :=
  '(transformed1, l1) ← transform embedding1 l;
  '(transformed2, l2) ← transform embedding2 l1;
  mret (TensorEmbedding.cosineSimilarity transformed1 transformed2).

Definition learnFromSimilarity (embedding1 embedding2 : TensorEmbedding.t)
    (target_similarity : f32) (l : t) : outcome (f32 * t) :=
  '(transformed1, l1) ← transform embedding1 l;
  '(transformed2, l2) ← transform embedding2 l1;
  let current_similarity := TensorEmbedding.cosineSimilarity transformed1 transformed2 in
  let loss := F32.pow2 (F32.sub current_similarity target_similarity) in
  let adjustment := F32.mul (F32.sub target_similarity current_similarity) F32.c0_1 in
  target1 ← for_loop (nudge adjustment transformed1 transformed2)
                     (seq 0 (embedding_dim_ l)) (TensorEmbedding.data_ embedding1);
  '(_, net) ← LearnableNetwork.train (TensorEmbedding.data_ embedding1) target1 (network_ l2);
  mret (loss, {| embedding_dim_ := embedding_dim_ l; network_ := net |}).

Definition setLearningRate (rate : f32) (l : t) : t :=
  {| embedding_dim_ := embedding_dim_ l;
     network_ := LearnableNetwork.setLearningRate rate (network_ l) |}.

End EmbeddingLearner.

(** ** agent_orchestrator.hpp: agents and their message queues *)

Inductive AgentState : Type :=
| IDLE | THINKING | ACTING | LEARNING | COMMUNICATING | SUSPENDED | TERMINATED.

Module AgentMessage.

Record t : Type := {
  from : string;
  to : string;
  type : string;
  content : string;
  timestamp : N
}.

(** [AgentMessage(f, t, typ, c)]: the timestamp is set to 0. *)
Definition make (f to_ typ c : string) : t :=
  {| from := f; to := to_; type := typ; content := c; timestamp := 0%N |}.

End AgentMessage.

(** An [AgentPtr] is the address of an agent object; the objects live in a
    heap shared by the caller and the orchestrator, so that two copies of a
    pointer denote one queue. *)
Abbreviation AgentPtr := positive.

Module Agent.

Record t : Type := {
  id_ : string;
  name_ : string;
  state_ : AgentState;
  message_queue_ : list AgentMessage.t
}.

(** [Agent(id, name)]: state [IDLE], empty queue. *)
Definition make (id name : string) : t :=
  {| id_ := id; name_ := name; state_ := IDLE; message_queue_ := [] |}.

Definition push (message : AgentMessage.t) (a : t) : t :=
  {| id_ := id_ a; name_ := name_ a; state_ := state_ a;
     message_queue_ := message_queue_ a ++ [message] |}.

Definition pop (a : t) : t :=
  {| id_ := id_ a; name_ := name_ a; state_ := state_ a;
     message_queue_ := tail (message_queue_ a) |}.

Definition setState (state : AgentState) (a : t) : t :=
  {| id_ := id_ a; name_ := name_ a; state_ := state;
     message_queue_ := message_queue_ a |}.

End Agent.

Module AgentHeap.

(** The agent objects, by address. Dereferencing an address that holds no
    agent (a null or dangling pointer) is undefined. *)
Definition deref (heap : gmap AgentPtr Agent.t) (p : AgentPtr) : outcome Agent.t :=
  match heap !! p with
  | Some a => Ok a
  | None => Undefined
  end.

(** [agent->receiveMessage(message)] *)
Definition receiveMessage (p : AgentPtr) (message : AgentMessage.t)
    (heap : gmap AgentPtr Agent.t) : outcome (gmap AgentPtr Agent.t) :=
  a ← deref heap p;
  mret (<[p := Agent.push message a]> heap).

(** [agent->hasMessages()] *)
Definition hasMessages (p : AgentPtr) (heap : gmap AgentPtr Agent.t) : outcome bool :=
  a ← deref heap p;
  mret (match Agent.message_queue_ a with [] => false | _ :: _ => true end).

(** [agent->getNextMessage()] *)
Definition getNextMessage (p : AgentPtr) (heap : gmap AgentPtr Agent.t)
  : outcome (AgentMessage.t * gmap AgentPtr Agent.t) :=
  a ← deref heap p;
  match Agent.message_queue_ a with
  | [] => Throw "No messages available"
  | msg :: _ => Ok (msg, <[p := Agent.pop a]> heap)
  end.

(** [n] successive calls of [getNextMessage], results in call order. *)
Fixpoint getNextMessages (n : nat) (p : AgentPtr) (heap : gmap AgentPtr Agent.t)
  : outcome (list AgentMessage.t * gmap AgentPtr Agent.t) :=
  match n with
  | O => Ok ([], heap)
  | S n' =>
      '(msg, heap1) ← getNextMessage p heap;
      '(msgs, heap2) ← getNextMessages n' p heap1;
      mret (msg :: msgs, heap2)
  end.

End AgentHeap.

Module AgentOrchestrator.

Inductive Strategy : Type := SEQUENTIAL | PARALLEL | PRIORITY.

Record t : Type := {
  agents_ : list AgentPtr;
  running_ : bool;
  strategy_ : Strategy
}.

Definition make : t := {| agents_ := []; running_ := false; strategy_ := PARALLEL |}.

(** [agent->setOrchestrator(this); agents_.push_back(agent);] The back
    pointer of the agent plays no part below and is not kept. *)
Definition registerAgent (agent : AgentPtr) (heap : gmap AgentPtr Agent.t) (o : t)
  : outcome t :=
  _ ← AgentHeap.deref heap agent;
  mret {| agents_ := agents_ o ++ [agent]; running_ := running_ o;
          strategy_ := strategy_ o |}.

Definition unregisterAgent (agent_id : string) (heap : gmap AgentPtr Agent.t) (o : t)
  : outcome t :=
  kept ← for_loop
    (fun kept i =>
       p ← at_ (agents_ o) i;
       a ← AgentHeap.deref heap p;
       mret (if String.eqb (Agent.id_ a) agent_id then kept else kept ++ [p]))
    (seq 0 (length (agents_ o))) [];
  mret {| agents_ := kept; running_ := running_ o; strategy_ := strategy_ o |}.

(** The linear scan of [getAgent]: the first registered agent with the id. *)
Fixpoint find_agent (agent_id : string) (heap : gmap AgentPtr Agent.t)
    (agents : list AgentPtr) : outcome (option AgentPtr) :=
  match agents with
  | [] => Ok None
  | p :: rest =>
      a ← AgentHeap.deref heap p;
      if String.eqb (Agent.id_ a) agent_id then Ok (Some p)
      else find_agent agent_id heap rest
  end.

Definition getAgent (agent_id : string) (heap : gmap AgentPtr Agent.t) (o : t)
  : outcome (option AgentPtr) :=
  find_agent agent_id heap (agents_ o).

Definition sendMessage (message : AgentMessage.t) (o : t) (heap : gmap AgentPtr Agent.t)
  : outcome (gmap AgentPtr Agent.t) :=
  recipient ← getAgent (AgentMessage.to message) heap o;
  match recipient with
  | Some p => AgentHeap.receiveMessage p message heap
  | None => Ok heap
  end.

Definition broadcast (message : AgentMessage.t) (o : t) (heap : gmap AgentPtr Agent.t)
  : outcome (gmap AgentPtr Agent.t) :=
  for_loop
    (fun heap i =>
       p ← at_ (agents_ o) i;
       a ← AgentHeap.deref heap p;
       if String.eqb (Agent.id_ a) (AgentMessage.from message) then Ok heap
       else AgentHeap.receiveMessage p message heap)
    (seq 0 (length (agents_ o))) heap.

Definition getAgentCount (o : t) : nat := length (agents_ o).

End AgentOrchestrator.

(** [CognitiveAgent], as an object of its own: the [Agent] it derives from
    with its knowledge and goals. The two callbacks play no part in the
    functions below and are not kept. *)
Module CognitiveAgent.

Record t : Type := {
  agent : Agent.t;
  knowledge_ : list string;
  goals_ : list string
}.

Definition make (id name : string) : t :=
  {| agent := Agent.make id name; knowledge_ := []; goals_ := [] |}.

Definition with_agent (a : Agent.t) (c : t) : t :=
  {| agent := a; knowledge_ := knowledge_ c; goals_ := goals_ c |}.

Definition receiveMessage (message : AgentMessage.t) (c : t) : t :=
  with_agent (Agent.push message (agent c)) c.

Definition hasMessages (c : t) : bool :=
  match Agent.message_queue_ (agent c) with [] => false | _ :: _ => true end.

Definition getNextMessage (c : t) : outcome (AgentMessage.t * t) :=
  match Agent.message_queue_ (agent c) with
  | [] => Throw "No messages available"
  | msg :: _ => Ok (msg, with_agent (Agent.pop (agent c)) c)
  end.

Definition addKnowledge (knowledge : string) (c : t) : t :=
  {| agent := agent c; knowledge_ := knowledge_ c ++ [knowledge]; goals_ := goals_ c |}.

Definition addGoal (goal : string) (c : t) : t :=
  {| agent := agent c; knowledge_ := knowledge_ c; goals_ := goals_ c ++ [goal] |}.

(** ["Received: " + message.content + " from " + message.from] *)
Definition received (message : AgentMessage.t) : string :=
  String.append
    (String.append (String.append "Received: " (AgentMessage.content message)) " from ")
    (AgentMessage.from message).

Definition onMessage (message : AgentMessage.t) (c : t) : t :=
  addKnowledge (received message) c.

(** [while (hasMessages()) { msg = getNextMessage(); onMessage(msg); }]
    The loop is run for at most [fuel] iterations; [None] when they do not
    suffice. *)
Fixpoint processMessages (fuel : nat) (c : t) : option (outcome t) :=
  if hasMessages c then
    match fuel with
    | O => None
    | S fuel' =>
        match getNextMessage c with
        | Ok (msg, c1) => processMessages fuel' (onMessage msg c1)
        | Throw what => Some (Throw what)
        | Undefined => Some Undefined
        end
    end
  else Some (Ok c).

End CognitiveAgent.

(** ** fusion_reactor.hpp: the facade *)

Module CognitiveFusionReactor.

Record AttentionValue : Type := { sti : f32; lti : f32; vlti : f32 }.

Record t : Type := {
  atomspace_ : AtomSpace.t;
  embedding_space_ : EmbeddingSpace.t;
  learner_ : EmbeddingLearner.t;
  orchestrator_ : AgentOrchestrator.t;
  embedding_dim_ : nat;
  learning_rate_ : f32;
  relevance_scores_ : gmap AtomHandle f32;
  attention_bank_ : gmap AtomHandle AttentionValue
}.

(** The constructor, with the weights drawn for the learner's two layers. *)
Definition make (embedding_dim : nat) (learning_rate : f32)
    (drawn1 drawn2 : list (list f32)) : t :=
  {| atomspace_ := AtomSpace.empty;
     embedding_space_ := EmbeddingSpace.empty embedding_dim;
     learner_ := EmbeddingLearner.make embedding_dim learning_rate drawn1 drawn2;
     orchestrator_ := AgentOrchestrator.make;
     embedding_dim_ := embedding_dim;
     learning_rate_ := learning_rate;
     relevance_scores_ := ∅;
     attention_bank_ := ∅ |}.

Definition with_atomspace (a : AtomSpace.t) (r : t) : t :=
  {| atomspace_ := a; embedding_space_ := embedding_space_ r; learner_ := learner_ r;
     orchestrator_ := orchestrator_ r; embedding_dim_ := embedding_dim_ r;
     learning_rate_ := learning_rate_ r; relevance_scores_ := relevance_scores_ r;
     attention_bank_ := attention_bank_ r |}.

Definition with_embedding_space (e : EmbeddingSpace.t) (r : t) : t :=
  {| atomspace_ := atomspace_ r; embedding_space_ := e; learner_ := learner_ r;
     orchestrator_ := orchestrator_ r; embedding_dim_ := embedding_dim_ r;
     learning_rate_ := learning_rate_ r; relevance_scores_ := relevance_scores_ r;
     attention_bank_ := attention_bank_ r |}.

Definition with_learner (l : EmbeddingLearner.t) (r : t) : t :=
  {| atomspace_ := atomspace_ r; embedding_space_ := embedding_space_ r; learner_ := l;
     orchestrator_ := orchestrator_ r; embedding_dim_ := embedding_dim_ r;
     learning_rate_ := learning_rate_ r; relevance_scores_ := relevance_scores_ r;
     attention_bank_ := attention_bank_ r |}.

Definition with_relevance (m : gmap AtomHandle f32) (r : t) : t :=
  {| atomspace_ := atomspace_ r; embedding_space_ := embedding_space_ r;
     learner_ := learner_ r; orchestrator_ := orchestrator_ r;
     embedding_dim_ := embedding_dim_ r; learning_rate_ := learning_rate_ r;
     relevance_scores_ := m; attention_bank_ := attention_bank_ r |}.

Definition with_attention (m : gmap AtomHandle AttentionValue) (r : t) : t :=
  {| atomspace_ := atomspace_ r; embedding_space_ := embedding_space_ r;
     learner_ := learner_ r; orchestrator_ := orchestrator_ r;
     embedding_dim_ := embedding_dim_ r; learning_rate_ := learning_rate_ r;
     relevance_scores_ := relevance_scores_ r; attention_bank_ := m |}.

(** [relevance_scores_[handle] = std::clamp(relevance, 0.0f, 1.0f)] *)
Definition setRelevance (handle : AtomHandle) (relevance : f32) (r : t) : t :=
  with_relevance (<[handle := F32.clamp relevance F32.zero F32.one]> (relevance_scores_ r)) r.

Definition getRelevance (handle : AtomHandle) (r : t) : f32 :=
  default F32.half (relevance_scores_ r !! handle).

(** [attention_bank_[handle] = attention], no clamping. *)
Definition setAttention (handle : AtomHandle) (attention : AttentionValue) (r : t) : t :=
  with_attention (<[handle := attention]> (attention_bank_ r)) r.

Definition neutral_attention : AttentionValue :=
  {| sti := F32.half; lti := F32.half; vlti := F32.half |}.

Definition getAttention (handle : AtomHandle) (r : t) : AttentionValue :=
  default neutral_attention (attention_bank_ r !! handle).

(** [relevance_scores_[handle]] value-initialises a missing entry to 0.0f
    before the sum; the attention entry is looked up with [find] and is
    touched only when present and [delta > 0]. *)
Definition updateRelevance (handle : AtomHandle) (delta : f32) (r : t) : t :=
  let relevance := default F32.zero (relevance_scores_ r !! handle) in
  let scores :=
    <[handle := F32.clamp (F32.add relevance delta) F32.zero F32.one]> (relevance_scores_ r) in
  let bank :=
    if F32.gtb delta F32.zero then
      match attention_bank_ r !! handle with
      | Some a =>
          <[handle := {| sti := F32.min F32.one (F32.add (sti a) (F32.mul delta F32.half));
                         lti := lti a; vlti := vlti a |}]> (attention_bank_ r)
      | None => attention_bank_ r
      end
    else attention_bank_ r in
  with_attention bank (with_relevance scores r).

(** [AttentionValue] has no default member initialisers: the entry that
    [attention_bank_[h]] creates for a missing handle is all zeros. *)
Definition zero_attention : AttentionValue :=
  {| sti := F32.zero; lti := F32.zero; vlti := F32.zero |}.

(** [auto& target = attention_bank_[h]; target.sti = std::min(1.0f, target.sti + 0.1f);] *)
Definition raise_sti (bank : gmap AtomHandle AttentionValue) (h : AtomHandle)
  : gmap AtomHandle AttentionValue :=
  let target := default zero_attention (bank !! h) in
  <[h := {| sti := F32.min F32.one (F32.add (sti target) F32.c0_1);
            lti := lti target; vlti := vlti target |}]> bank.

(** First loop of [spreadAttention]: the handles whose sti exceeds 0.7f. *)
Definition high_attention (bank : gmap AtomHandle AttentionValue) : list AtomHandle :=
  fst <$> filter (fun entry => F32.gtb (sti (snd entry)) F32.c0_7 = true) (map_to_list bank).

(** Body of the second loop, for one collected handle. *)
Definition spread_from (store : AtomSpace.t) (bank : gmap AtomHandle AttentionValue)
    (handle : AtomHandle) : gmap AtomHandle AttentionValue :=
  match AtomSpace.getAtom handle store with
  | Some atom =>
      if AtomSpace.isLink atom then fold_left raise_sti (AtomSpace.getOutgoing atom) bank
      else bank
  | None => bank
  end.

Definition spreadAttention (r : t) : t :=
  with_attention
    (fold_left (spread_from (atomspace_ r)) (high_attention (attention_bank_ r))
               (attention_bank_ r))
    r.

Definition addConcept (name : string) (embedding : list f32) (r : t) : outcome (AtomSpace.Atom * t) :=
  '(node, store) ← AtomSpace.addNode name embedding (atomspace_ r);
  space ←
    (if negb (length embedding =? 0)%nat && (length embedding =? embedding_dim_ r)%nat then
       EmbeddingSpace.addEmbedding name (TensorEmbedding.of_data embedding) (embedding_space_ r)
     else Ok (embedding_space_ r));
  let r1 := with_embedding_space space (with_atomspace store r) in
  let r2 := setRelevance (AtomSpace.getHandle node) F32.half r1 in
  mret (node, setAttention (AtomSpace.getHandle node) neutral_attention r2).

Definition addRelation (type : string) (outgoing : list AtomHandle) (r : t) : AtomSpace.Atom * t :=
  let '(link, store) := AtomSpace.addLink type outgoing (atomspace_ r) in
  (link, setRelevance (AtomSpace.getHandle link) F32.half (with_atomspace store r)).

Definition querySimilar (std_sort : sorter) (query_embedding : list f32) (k : nat)
    (threshold : f32) (r : t) : outcome (list (string * f32)) :=
  EmbeddingSpace.findNearest std_sort (TensorEmbedding.of_data query_embedding) k threshold
    (embedding_space_ r).

Definition learnSimilarity (concept1 concept2 : string) (target_similarity : f32) (r : t)
  : outcome (f32 * t) :=
  match EmbeddingSpace.getEmbedding concept1 (embedding_space_ r),
        EmbeddingSpace.getEmbedding concept2 (embedding_space_ r) with
  | Some emb1, Some emb2 =>
      '(loss, l) ← EmbeddingLearner.learnFromSimilarity emb1 emb2 target_similarity (learner_ r);
      mret (loss, with_learner l r)
  | _, _ => Ok (F32.minus_one, r)
  end.

Definition sendMessage (message : AgentMessage.t) (r : t) (heap : gmap AgentPtr Agent.t)
  : outcome (gmap AgentPtr Agent.t) :=
  AgentOrchestrator.sendMessage message (orchestrator_ r) heap.

Definition transformEmbedding (embedding : TensorEmbedding.t) (r : t)
  : outcome (TensorEmbedding.t * t) :=
  '(transformed, l) ← EmbeddingLearner.transform embedding (learner_ r);
  mret (transformed, with_learner l r).

End CognitiveFusionReactor.

(** * Invariants and auxiliary notions *)

(** Values in the closed interval [[0, 1]]. *)
Definition in_unit_interval (x : f32) : bool := F32.leb F32.zero x && F32.leb x F32.one.

(** The squared norm as the cosine loops accumulate it. *)
Definition sqnorm (v : list f32) : f32 :=
  fold_left (fun acc x => F32.add acc (F32.mul x x)) v F32.zero.

(** [f] applied [n] times. *)
Fixpoint iterate {A} (f : A -> A) (n : nat) (x : A) : A :=
  match n with
  | O => x
  | S n' => iterate f n' (f x)
  end.

(** Every handle that the name index lists is a key of the atom table. *)
Definition index_closed (s : AtomSpace.t) : Prop :=
  forall name hs h,
    AtomSpace.name_index_ s !! name = Some hs -> In h hs ->
    is_Some (AtomSpace.atoms_ s !! h).

(** The atom that the lookup of [addNode] reads for a name. *)
Definition first_indexed (name : string) (s : AtomSpace.t) : option AtomSpace.Atom :=
  match AtomSpace.name_index_ s !! name with
  | Some (h0 :: _) => AtomSpace.atoms_ s !! h0
  | _ => None
  end.

(** Some Node of the store is indexed under the name. *)
Definition node_named (name : string) (s : AtomSpace.t) : Prop :=
  exists hs h a,
    AtomSpace.name_index_ s !! name = Some hs /\ In h hs /\
    AtomSpace.atoms_ s !! h = Some a /\ AtomSpace.isNode a = true.

(** Layers that accept [n] inputs and feed one another. *)
Fixpoint chained (n : nat) (layers : list NeuralLayer.t) : Prop :=
  match layers with
  | [] => True
  | L :: rest =>
      NeuralLayer.shaped L /\ NeuralLayer.input_size_ L = n /\
      chained (NeuralLayer.output_size_ L) rest
  end.

Fixpoint final_size (n : nat) (layers : list NeuralLayer.t) : nat :=
  match layers with
  | [] => n
  | L :: rest => final_size (NeuralLayer.output_size_ L) rest
  end.

(** The caches that [forward] leaves behind, as [backward] needs them. *)
Definition cached (L : NeuralLayer.t) : Prop :=
  NeuralLayer.input_size_ L <= length (NeuralLayer.last_input_ L) /\
  length (NeuralLayer.last_preactivation_ L) = NeuralLayer.output_size_ L.

(** A learner as its constructor builds it: the network maps
    [embedding_dim_] inputs to [embedding_dim_] outputs. *)
Definition learner_shaped (l : EmbeddingLearner.t) : Prop :=
  let layers := LearnableNetwork.layers_ (EmbeddingLearner.network_ l) in
  layers <> [] /\
  chained (EmbeddingLearner.embedding_dim_ l) layers /\
  final_size (EmbeddingLearner.embedding_dim_ l) layers = EmbeddingLearner.embedding_dim_ l.

(** Every stored embedding has the dimension of the space. *)
Definition uniform (sp : EmbeddingSpace.t) : Prop :=
  Forall (fun entry => TensorEmbedding.dimensions (snd entry) = EmbeddingSpace.dimensions_ sp)
         (EmbeddingSpace.embeddings_ sp).

(** Spaces obtained from the empty one by successful insertions. *)
Inductive built (dims : nat) : EmbeddingSpace.t -> Prop :=
| built_empty : built dims (EmbeddingSpace.empty dims)
| built_add sp id e sp' :
    built dims sp -> EmbeddingSpace.addEmbedding id e sp = Ok sp' -> built dims sp'.

(** What the constructor of the facade establishes and its operations keep:
    one dimension for the space, the learner and the facade. *)
Definition consistent (r : CognitiveFusionReactor.t) : Prop :=
  EmbeddingSpace.dimensions_ (CognitiveFusionReactor.embedding_space_ r)
    = CognitiveFusionReactor.embedding_dim_ r /\
  EmbeddingLearner.embedding_dim_ (CognitiveFusionReactor.learner_ r)
    = CognitiveFusionReactor.embedding_dim_ r /\
  uniform (CognitiveFusionReactor.embedding_space_ r) /\
  learner_shaped (CognitiveFusionReactor.learner_ r).

(** Every registered pointer is the address of a live agent. *)
Definition registered_live (o : AgentOrchestrator.t) (heap : gmap AgentPtr Agent.t) : Prop :=
  Forall (fun p => is_Some (heap !! p)) (AgentOrchestrator.agents_ o).

(** Some registered agent has the id. *)
Definition registered (agent_id : string) (o : AgentOrchestrator.t)
    (heap : gmap AgentPtr Agent.t) : Prop :=
  exists p a, In p (AgentOrchestrator.agents_ o) /\ heap !! p = Some a /\ Agent.id_ a = agent_id.

(** The outgoing handles that the second loop of [spreadAttention] visits,
    in visiting order: those of every collected handle that is a Link. *)
Definition outgoing_of (store : AtomSpace.t) (handle : AtomHandle) : list AtomHandle :=
  match AtomSpace.getAtom handle store with
  | Some atom => if AtomSpace.isLink atom then AtomSpace.getOutgoing atom else []
  | None => []
  end.

Definition spread_targets (r : CognitiveFusionReactor.t) : list AtomHandle :=
  flat_map (outgoing_of (CognitiveFusionReactor.atomspace_ r))
           (CognitiveFusionReactor.high_attention (CognitiveFusionReactor.attention_bank_ r)).

(** One raise of a short-term importance: [min(1, sti + 0.1)]. *)
Definition raised (x : f32) : f32 := F32.min F32.one (F32.add x F32.c0_1).

(** The relevance table holds values of [[0, 1]] only. *)
Definition relevance_in_range (r : CognitiveFusionReactor.t) : Prop :=
  forall h x, CognitiveFusionReactor.relevance_scores_ r !! h = Some x ->
              in_unit_interval x = true.

(** A run of [updateRelevance] calls. *)
Definition updateRelevance_all (calls : list (AtomHandle * f32)) (r : CognitiveFusionReactor.t)
  : CognitiveFusionReactor.t :=
  fold_left (fun r call => CognitiveFusionReactor.updateRelevance (fst call) (snd call) r)
            calls r.

(** The result of a k-NN query: similarities in non-increasing order, at
    most [k] entries, none below the threshold. *)
Definition descending {A} (l : list (A * f32)) : Prop :=
  StronglySorted (fun a b => F32.geb (snd a) (snd b) = true) l.

Definition knn_result {A} (k : nat) (threshold : f32) (l : list (A * f32)) : Prop :=
  descending l /\ length l <= k /\
  Forall (fun e => F32.geb (snd e) threshold = true /\ F32.ltb (snd e) threshold = false) l.

(** The sign of a rounded value, NaN excluded. *)
Definition has_sign (s : bool) (x : f32) : Prop :=
  match x with
  | S754_nan => False
  | S754_zero s' | S754_infinity s' | S754_finite s' _ _ => s' = s
  end.

(** Two layers of the same sizes. *)
Definition same_sizes (L L' : NeuralLayer.t) : Prop :=
  NeuralLayer.input_size_ L' = NeuralLayer.input_size_ L /\
  NeuralLayer.output_size_ L' = NeuralLayer.output_size_ L.

(** The shape that the loops of [backward] keep. *)
Definition backward_shape (L : NeuralLayer.t) (input_gradient : list f32)
    (weights : list (list f32)) : Prop :=
  length input_gradient = NeuralLayer.input_size_ L /\
  length weights = NeuralLayer.output_size_ L /\
  Forall (fun row => length row = NeuralLayer.input_size_ L) weights.

(** Layers in the order of [backward]: each takes a gradient of its output
    size and hands on one of its input size. *)
Fixpoint rchained (m : nat) (visited : list NeuralLayer.t) : Prop :=
  match visited with
  | [] => True
  | L :: rest =>
      NeuralLayer.shaped L /\ cached L /\ NeuralLayer.output_size_ L = m /\
      rchained (NeuralLayer.input_size_ L) rest
  end.

Fixpoint rfinal (m : nat) (visited : list NeuralLayer.t) : nat :=
  match visited with
  | [] => m
  | L :: rest => rfinal (NeuralLayer.input_size_ L) rest
  end.

(** Stores grown from the empty one by [addNode] and [addLink], the handle
    counter short of wrapping at every call. ([clear] gives the empty store
    back.) *)
Inductive grown : AtomSpace.t -> Prop :=
| grown_empty : grown AtomSpace.empty
| grown_addNode s name embedding node s' :
    grown s -> (AtomSpace.next_handle_ s + 1 < 2 ^ 64)%N ->
    AtomSpace.addNode name embedding s = Ok (node, s') -> grown s'
| grown_addLink s type outgoing :
    grown s -> (AtomSpace.next_handle_ s + 1 < 2 ^ 64)%N ->
    grown (snd (AtomSpace.addLink type outgoing s)).

(** What a grown store keeps: the keys of the atom table are the handles
    issued so far, every atom sits under its own handle and is indexed under
    its name, and the index lists, for each name, handles of atoms of that
    name in increasing order. *)
Definition well_formed (s : AtomSpace.t) : Prop :=
  (forall h, is_Some (AtomSpace.atoms_ s !! h) <-> (1 <= h <= AtomSpace.next_handle_ s)%N) /\
  AtomSpace.size s = N.to_nat (AtomSpace.next_handle_ s) /\
  (forall h a, AtomSpace.atoms_ s !! h = Some a ->
     AtomSpace.getHandle a = h /\
     exists hs, AtomSpace.name_index_ s !! AtomSpace.getName a = Some hs /\ In h hs) /\
  (forall name hs, AtomSpace.name_index_ s !! name = Some hs ->
     StronglySorted N.lt hs /\
     forall h, In h hs ->
       exists a, AtomSpace.atoms_ s !! h = Some a /\ AtomSpace.getName a = name).

(** Zero or above, or NaN: what a value that is never negative can be. *)
Definition nonneg_or_nan (x : f32) : Prop :=
  match x with
  | S754_nan => True
  | S754_zero s | S754_infinity s | S754_finite s _ _ => s = false
  end.

(** The agent at an address has the id. *)
Definition has_id (agent_id : string) (heap : gmap AgentPtr Agent.t) (p : AgentPtr) : bool :=
  match heap !! p with
  | Some a => String.eqb (Agent.id_ a) agent_id
  | None => false
  end.

(** A loop over the elements of a vector. *)
Fixpoint for_each {A B} (body : A -> B -> outcome A) (l : list B) (acc : A) : outcome A :=
  match l with
  | [] => Ok acc
  | x :: rest => acc' ← body acc x; for_each body rest acc'
  end.

(** A run of [learnSimilarity] calls, with the losses in call order. *)
Fixpoint learnSimilarity_all (calls : list (string * string * f32))
    (r : CognitiveFusionReactor.t) : outcome (list f32 * CognitiveFusionReactor.t) :=
  match calls with
  | [] => Ok ([], r)
  | (concept1, concept2, target) :: rest =>
      '(loss, r1) ← CognitiveFusionReactor.learnSimilarity concept1 concept2 target r;
      '(losses, r2) ← learnSimilarity_all rest r1;
      mret (loss :: losses, r2)
  end.

(** Layers with the default activation, as [EmbeddingLearner] adds them. *)
Definition relu_layers (layers : list NeuralLayer.t) : Prop :=
  Forall (fun L => NeuralLayer.activation_ L = activation.relu) layers.

(** A run of [sendMessage] calls on one orchestrator. *)
Fixpoint sendMessage_all (messages : list AgentMessage.t) (o : AgentOrchestrator.t)
    (heap : gmap AgentPtr Agent.t) : outcome (gmap AgentPtr Agent.t) :=
  match messages with
  | [] => Ok heap
  | message :: rest =>
      heap1 ← AgentOrchestrator.sendMessage message o heap;
      sendMessage_all rest o heap1
  end.

(** The lookup of [sendMessage] finds the agent at [p] for the message. *)
Definition addressed_to (o : AgentOrchestrator.t) (heap : gmap AgentPtr Agent.t)
    (p : AgentPtr) (message : AgentMessage.t) : bool :=
  match AgentOrchestrator.getAgent (AgentMessage.to message) heap o with
  | Ok (Some q) => Pos.eqb q p
  | _ => false
  end.

(** The agent with the messages appended to its queue, in their order. *)
Definition enqueue (messages : list AgentMessage.t) (a : Agent.t) : Agent.t :=
  fold_left (fun a message => Agent.push message a) messages a.

(** The atom is in the store under the name and no atom of that name has a
    smaller handle: it was added before every other atom of the name, so no
    Link with that type string precedes it. *)
Definition oldest_named (name : string) (s : AtomSpace.t) (atom : AtomSpace.Atom) : Prop :=
  AtomSpace.getAtom (AtomSpace.getHandle atom) s = Some atom /\
  AtomSpace.getName atom = name /\
  forall h a, AtomSpace.getAtom h s = Some a -> AtomSpace.getName a = name ->
    (AtomSpace.getHandle atom <= h)%N.

(** * Example values and states *)

(** [3e19f]: its square exceeds the largest binary32 value. *)
Definition huge : f32 := Eval vm_compute in F32.of_Z 30000000000000000000.

(** The agents of the orchestrator test: "test_agent" and "agent2", both
    registered, and the message the test sends from the first to the second. *)
Definition demo_heap : gmap AgentPtr Agent.t :=
  <[2%positive := Agent.make "agent2" "Agent 2"]>
    (<[1%positive := Agent.make "test_agent" "Test Agent"]> ∅).

Definition demo_orchestrator : AgentOrchestrator.t :=
  {| AgentOrchestrator.agents_ := [1%positive; 2%positive];
     AgentOrchestrator.running_ := false;
     AgentOrchestrator.strategy_ := AgentOrchestrator.PARALLEL |}.

Definition demo_message : AgentMessage.t :=
  AgentMessage.make "test_agent" "agent2" "test" "hello".

(** A facade of dimension 1 whose learner has all weights drawn as 0.5. *)
Definition lab : CognitiveFusionReactor.t :=
  CognitiveFusionReactor.make 1 F32.c0_01 [[F32.half]; [F32.half]] [[F32.half; F32.half]].

Definition state_of {A} (m : outcome (A * CognitiveFusionReactor.t))
    (otherwise : CognitiveFusionReactor.t) : CognitiveFusionReactor.t :=
  match m with
  | Ok (_, r) => r
  | _ => otherwise
  end.

Definition c0_2 : f32 := Eval vm_compute in F32.lit 2 10.   (* 0.2f *)
Definition c0_3 : f32 := Eval vm_compute in F32.lit 3 10.   (* 0.3f *)
Definition c0_4 : f32 := Eval vm_compute in F32.lit 4 10.   (* 0.4f *)
Definition c0_8 : f32 := Eval vm_compute in F32.lit 8 10.   (* 0.8f *)
Definition c0_9 : f32 := Eval vm_compute in F32.lit 9 10.   (* 0.9f *)

Definition with_sti (x : f32) : CognitiveFusionReactor.AttentionValue :=
  {| CognitiveFusionReactor.sti := x; CognitiveFusionReactor.lti := F32.half;
     CognitiveFusionReactor.vlti := F32.half |}.

(** Nodes A (handle 1) and B (2) at sti 0.2, Link L (3) over A and B at
    sti 0.8. *)
Definition hop : CognitiveFusionReactor.t :=
  let rA := state_of (CognitiveFusionReactor.addConcept "A" [] lab) lab in
  let rB := state_of (CognitiveFusionReactor.addConcept "B" [] rA) lab in
  let rL := snd (CognitiveFusionReactor.addRelation "L" [1; 2]%N rB) in
  CognitiveFusionReactor.setAttention 3 (with_sti c0_8)
    (CognitiveFusionReactor.setAttention 2 (with_sti c0_2)
       (CognitiveFusionReactor.setAttention 1 (with_sti c0_2) rL)).

(** Node A (1), Link L1 (2) over A, Link L2 (3) over L1; both Links at
    sti 0.8. *)
Definition nested : CognitiveFusionReactor.t :=
  let rA := state_of (CognitiveFusionReactor.addConcept "A" [] lab) lab in
  let r1 := snd (CognitiveFusionReactor.addRelation "L1" [1]%N rA) in
  let r2 := snd (CognitiveFusionReactor.addRelation "L2" [2]%N r1) in
  CognitiveFusionReactor.setAttention 3 (with_sti c0_8)
    (CognitiveFusionReactor.setAttention 2 (with_sti c0_8) r2).

(** Node A (1), Link L1 (2) over A with no attention entry (as
    [addRelation] leaves it), Links L2 (3) and L3 (4) over L1, both at
    sti 0.8. *)
Definition shared : CognitiveFusionReactor.t :=
  let rA := state_of (CognitiveFusionReactor.addConcept "A" [] lab) lab in
  let r1 := snd (CognitiveFusionReactor.addRelation "L1" [1]%N rA) in
  let r2 := snd (CognitiveFusionReactor.addRelation "L2" [2]%N r1) in
  let r3 := snd (CognitiveFusionReactor.addRelation "L3" [2]%N r2) in
  CognitiveFusionReactor.setAttention 4 (with_sti c0_8)
    (CognitiveFusionReactor.setAttention 3 (with_sti c0_8) r3).

(** Node A (1), Link L1 (2) over A with no attention entry, Link L2 (3)
    over L1 at sti 0.8. *)
Definition chain : CognitiveFusionReactor.t :=
  let rA := state_of (CognitiveFusionReactor.addConcept "A" [] lab) lab in
  let r1 := snd (CognitiveFusionReactor.addRelation "L1" [1]%N rA) in
  let r2 := snd (CognitiveFusionReactor.addRelation "L2" [2]%N r1) in
  CognitiveFusionReactor.setAttention 3 (with_sti c0_8) r2.

(** A Link of type "x" (handle 1) added before the concept "x" (Node 2),
    whose relevance and attention the caller then sets. *)
Definition shadowed : CognitiveFusionReactor.t :=
  let r1 := snd (CognitiveFusionReactor.addRelation "x" [] lab) in
  let r2 := state_of (CognitiveFusionReactor.addConcept "x" [] r1) lab in
  CognitiveFusionReactor.setAttention 2 (with_sti c0_8)
    (CognitiveFusionReactor.setRelevance 2 c0_9 r2).

(** The concept "cat" with the embedding [1.0], relevance and attention set
    by the caller afterwards. *)
Definition tuned : CognitiveFusionReactor.t :=
  let r1 := state_of (CognitiveFusionReactor.addConcept "cat" [F32.one] lab) lab in
  CognitiveFusionReactor.setAttention 1 (with_sti c0_8)
    (CognitiveFusionReactor.setRelevance 1 c0_9 r1).

(** The concept "cat" created without an embedding: a Node in the store, no
    entry in the embedding space. *)
Definition plain : CognitiveFusionReactor.t :=
  state_of (CognitiveFusionReactor.addConcept "cat" [] lab) lab.

(** The concepts "cat" and "dog" of [lab], both with the embedding [1.0]. *)
Definition pets : CognitiveFusionReactor.t :=
  let r1 := state_of (CognitiveFusionReactor.addConcept "cat" [F32.one] lab) lab in
  state_of (CognitiveFusionReactor.addConcept "dog" [F32.one] r1) lab.

(** The facade of the fusion test: dimension 4, the concepts "cat" and
    "dog" with the embeddings of the test. *)
Definition v_cat : list f32 :=
  Eval vm_compute in [F32.lit 8 10; F32.lit 2 10; F32.lit 9 10; F32.lit 1 10].

Definition v_dog : list f32 :=
  Eval vm_compute in [F32.lit 7 10; F32.lit 3 10; F32.lit 8 10; F32.lit 2 10].

Definition kennel : CognitiveFusionReactor.t :=
  let r0 := CognitiveFusionReactor.make 4 F32.c0_01
              (replicate 8 (replicate 4 F32.half)) (replicate 4 (replicate 8 F32.half)) in
  let r1 := state_of (CognitiveFusionReactor.addConcept "cat" v_cat r0) r0 in
  state_of (CognitiveFusionReactor.addConcept "dog" v_dog r1) r0.

(** * Properties *)

(** ** binary32 comparison and rounding *)

Section Float.

Ltac cmp_goal :=
  repeat match goal with
  | |- context [Z.compare ?a ?b] => destruct (Z.compare_spec a b)
  | |- context [Pos.compare_cont Eq ?a ?b] =>
      change (Pos.compare_cont Eq a b) with (Pos.compare a b);
      destruct (Pos.compare_spec a b)
  end.

Ltac cmp_solve :=
  simpl; intros;
  repeat match goal with s : bool |- _ => destruct s end;
  simpl in *; try congruence;
  repeat match goal with
  | H : context [Z.compare ?a ?b] |- _ => destruct (Z.compare_spec a b); simpl in H
  | H : context [Pos.compare_cont Eq ?a ?b] |- _ =>
      change (Pos.compare_cont Eq a b) with (Pos.compare a b) in H;
      destruct (Pos.compare_spec a b); simpl in H
  end;
  try congruence; subst;
  cmp_goal; simpl; try congruence; try lia.

Lemma SFcompare_antisym x y c :
  SFcompare x y = Some c -> SFcompare y x = Some (CompOpp c).
Proof.
  destruct x as [sx|sx| |sx mx ex], y as [sy|sy| |sy my ey]; simpl; intros H;
    try discriminate;
    repeat match goal with s : bool |- _ => destruct s end;
    simpl in *; injection H as <-; try reflexivity;
    rewrite (Z.compare_antisym ex ey); destruct (ex ?= ey)%Z; simpl; try reflexivity;
    rewrite Pos.compare_cont_antisym; simpl; try reflexivity;
    destruct (Pos.compare_cont Eq mx my); reflexivity.
Qed.

Lemma SFcompare_lt_trans x y z :
  SFcompare x y = Some Lt -> SFcompare y z = Some Lt -> SFcompare x z = Some Lt.
Proof.
  destruct x as [sx|sx| |sx mx ex], y as [sy|sy| |sy my ey], z as [sz|sz| |sz mz ez];
    try discriminate; cmp_solve.
Qed.

Lemma SFcompare_eq_trans x y z :
  SFcompare x y = Some Eq -> SFcompare y z = Some Eq -> SFcompare x z = Some Eq.
Proof.
  destruct x as [sx|sx| |sx mx ex], y as [sy|sy| |sy my ey], z as [sz|sz| |sz mz ez];
    try discriminate; cmp_solve.
Qed.

Lemma SFcompare_total x y :
  F32.is_nan x = false -> F32.is_nan y = false -> exists c, SFcompare x y = Some c.
Proof.
  destruct x, y; simpl; intros; try discriminate; eauto.
Qed.

Lemma SFcompare_nan x y c : SFcompare x y = Some c -> F32.is_nan x = false /\ F32.is_nan y = false.
Proof. destruct x, y; simpl; intros; try discriminate; auto. Qed.

Lemma SFcompare_refl x : F32.is_nan x = false -> SFcompare x x = Some Eq.
Proof.
  destruct x as [s|s| |s m e]; simpl; intros; try discriminate; try reflexivity.
  - destruct s; reflexivity.
  - destruct s; rewrite Z.compare_refl, Pos.compare_cont_refl; reflexivity.
Qed.

End Float.

(** ** Order on binary32 values *)

Lemma ltb_irrefl x : F32.ltb x x = false.
Proof.
  unfold F32.ltb, SFltb. destruct (F32.is_nan x) eqn:E.
  - destruct x; try discriminate; reflexivity.
  - rewrite SFcompare_refl by assumption. reflexivity.
Qed.

Lemma ltb_trans x y z : F32.ltb x y = true -> F32.ltb y z = true -> F32.ltb x z = true.
Proof.
  unfold F32.ltb, SFltb. intros Hxy Hyz.
  destruct (SFcompare x y) as [[]|] eqn:E1; try discriminate.
  destruct (SFcompare y z) as [[]|] eqn:E2; try discriminate.
  rewrite (SFcompare_lt_trans _ _ _ E1 E2). reflexivity.
Qed.

Lemma leb_not_nan x y : F32.leb x y = true -> F32.is_nan x = false /\ F32.is_nan y = false.
Proof.
  unfold F32.leb, SFleb. destruct (SFcompare x y) eqn:E; try discriminate.
  intros _. eapply SFcompare_nan; eassumption.
Qed.

Lemma leb_ltb_false x y : F32.leb x y = true -> F32.ltb y x = false.
Proof.
  unfold F32.leb, F32.ltb, SFleb, SFltb. intros H.
  destruct (SFcompare x y) as [c|] eqn:E; try discriminate.
  rewrite (SFcompare_antisym _ _ _ E). destruct c; simpl; try reflexivity; discriminate.
Qed.

Lemma not_ltb_leb x y :
  F32.is_nan x = false -> F32.is_nan y = false -> F32.ltb x y = false -> F32.leb y x = true.
Proof.
  unfold F32.leb, F32.ltb, SFleb, SFltb. intros Hx Hy H.
  destruct (SFcompare_total x y Hx Hy) as [c E]. rewrite E in H.
  rewrite (SFcompare_antisym _ _ _ E). destruct c; simpl; try reflexivity; discriminate.
Qed.

Lemma ltb_equiv_trans x y z :
  F32.is_nan x = false -> F32.is_nan y = false -> F32.is_nan z = false ->
  F32.ltb x y = false -> F32.ltb y x = false ->
  F32.ltb y z = false -> F32.ltb z y = false ->
  F32.ltb x z = false /\ F32.ltb z x = false.
Proof.
  unfold F32.ltb, SFltb. intros Hx Hy Hz H1 H2 H3 H4.
  destruct (SFcompare_total x y Hx Hy) as [c1 E1].
  destruct (SFcompare_total y z Hy Hz) as [c2 E2].
  rewrite (SFcompare_antisym _ _ _ E1) in H2. rewrite E1 in H1.
  rewrite (SFcompare_antisym _ _ _ E2) in H4. rewrite E2 in H3.
  destruct c1; simpl in *; try discriminate.
  destruct c2; simpl in *; try discriminate.
  pose proof (SFcompare_eq_trans _ _ _ E1 E2) as E3.
  rewrite (SFcompare_antisym _ _ _ E3), E3. auto.
Qed.

Lemma by_similarity_swo {A} (l : list (A * f32)) :
  Forall (fun e => F32.is_nan (snd e) = false) l ->
  strict_weak_order_on AtomSpace.by_similarity l.
Proof.
  intros Hl. rewrite List.Forall_forall in Hl.
  unfold strict_weak_order_on, AtomSpace.by_similarity, F32.gtb.
  split; [|split].
  - intros x _. apply ltb_irrefl.
  - intros x y z _ _ _ Hxy Hyz. eapply ltb_trans; eassumption.
  - intros x y z Hx Hy Hz H1 H2 H3 H4.
    destruct (ltb_equiv_trans (snd z) (snd y) (snd x)); auto.
Qed.

(** ** Straight insertion meets the contract of [std::sort] *)

Section Insertion.

Context {A : Type} (comp : A -> A -> bool) (universe : list A).
Hypothesis swo : strict_weak_order_on comp universe.

Let later_not_before (a b : A) : Prop := comp b a = false.

Lemma comp_asym x y :
  In x universe -> In y universe -> comp x y = true -> comp y x = false.
Proof.
  intros Hx Hy Hxy. destruct swo as (Hirr & Htr & _).
  destruct (comp y x) eqn:E; [|reflexivity].
  rewrite <- (Hirr x Hx). symmetry. eapply Htr; eauto.
Qed.

Lemma insert_sorted_perm x l : Permutation (x :: l) (insert_sorted comp x l).
Proof.
  induction l as [|y l IH]; simpl; [reflexivity|].
  destruct (comp x y); [reflexivity|].
  rewrite perm_swap. constructor. exact IH.
Qed.

Lemma insert_sorted_sorted x l :
  In x universe -> incl l universe ->
  StronglySorted later_not_before l ->
  StronglySorted later_not_before (insert_sorted comp x l).
Proof.
  intros Hx. induction l as [|y l IH]; simpl; intros Hl Hs.
  - repeat constructor.
  - assert (Hy : In y universe) by (apply Hl; left; reflexivity).
    assert (Hl' : incl l universe) by (intros z Hz; apply Hl; right; exact Hz).
    inversion Hs as [|? ? Hs' Hall]; subst.
    destruct (comp x y) eqn:E.
    + constructor; [exact Hs|]. constructor.
      * unfold later_not_before. apply comp_asym; assumption.
      * rewrite List.Forall_forall in *. intros z Hz. unfold later_not_before.
        destruct (comp z x) eqn:Ezx; [|reflexivity].
        destruct swo as (_ & Htr & _).
        rewrite <- (Hall z Hz). symmetry. apply (Htr z x y); auto.
    + constructor; [apply IH; assumption|].
      eapply Permutation_Forall; [apply insert_sorted_perm|].
      constructor; assumption.
Qed.

Lemma insertion_fold_spec l acc :
  incl l universe -> incl acc universe ->
  StronglySorted later_not_before acc ->
  let r := fold_left (fun acc x => insert_sorted comp x acc) l acc in
  Permutation (acc ++ l) r /\ StronglySorted later_not_before r.
Proof.
  revert acc. induction l as [|x l IH]; simpl; intros acc Hl Hacc Hs.
  - rewrite app_nil_r. split; [reflexivity|exact Hs].
  - assert (Hx : In x universe) by (apply Hl; left; reflexivity).
    assert (Hl' : incl l universe) by (intros z Hz; apply Hl; right; exact Hz).
    destruct (IH (insert_sorted comp x acc)) as [Hp Hs'].
    + exact Hl'.
    + intros z Hz.
      apply (Permutation_in _ (Permutation_sym (insert_sorted_perm x acc))) in Hz.
      destruct Hz as [<-|Hz]; auto.
    + apply insert_sorted_sorted; assumption.
    + split; [|exact Hs'].
      rewrite <- Hp. rewrite <- insert_sorted_perm.
      rewrite <- Permutation_middle. reflexivity.
Qed.

End Insertion.

Lemma insertion_sort_contract : sort_contract insertion_sort.
Proof.
  intros A comp l Hswo. unfold insertion_sort.
  destruct (insertion_fold_spec comp l Hswo l []) as [Hp Hs].
  - intros x Hx; exact Hx.
  - intros x [].
  - constructor.
  - simpl in Hp. split; assumption.
Qed.

(** ** Cosine similarity *)

Lemma cosine_fold (a b : list f32) :
  length a = length b ->
  forall dot na nb,
    exists dot',
      fold_left
        (fun '(dot, na, nb) '(x, y) =>
           (F32.add dot (F32.mul x y), F32.add na (F32.mul x x), F32.add nb (F32.mul y y)))
        (combine a b) (dot, na, nb)
      = (dot',
         fold_left (fun acc x => F32.add acc (F32.mul x x)) a na,
         fold_left (fun acc x => F32.add acc (F32.mul x x)) b nb).
Proof.
  revert b. induction a as [|x a IH]; intros [|y b] Hlen dot na nb;
    simpl in *; try discriminate.
  - eexists; reflexivity.
  - apply IH. congruence.
Qed.

Lemma cosine_mismatch (a b : list f32) :
  length a <> length b -> AtomSpace.cosineSimilarity a b = F32.zero.
Proof.
  intros H. unfold AtomSpace.cosineSimilarity.
  destruct (Nat.eqb_spec (length a) (length b)); [contradiction|reflexivity].
Qed.

Lemma cosine_zero_norm (a b : list f32) :
  length a = length b ->
  F32.is_zero (sqnorm b) = true ->
  F32.is_finite (F32.sqrt (sqnorm a)) = true ->
  AtomSpace.cosineSimilarity a b = F32.zero.
Proof.
  intros Hlen Hb Ha. unfold AtomSpace.cosineSimilarity.
  destruct (negb (length a =? length b)%nat || (length a =? 0)%nat); [reflexivity|].
  destruct (cosine_fold a b Hlen F32.zero F32.zero F32.zero) as [dot ->].
  fold (sqnorm a) (sqnorm b).
  destruct (sqnorm b) as [sb| | |]; try discriminate.
  destruct (F32.sqrt (sqnorm a)) as [sa| | |sa ma ea]; try discriminate; reflexivity.
Qed.

(** ** k-NN queries *)

Lemma StronglySorted_weaken {A} (R R' : A -> A -> Prop) (P : A -> Prop) (l : list A) :
  (forall a b, P a -> P b -> R a b -> R' a b) ->
  List.Forall P l -> StronglySorted R l -> StronglySorted R' l.
Proof.
  intros HR HP Hs. induction Hs as [|a l Hs IH Hall]; [constructor|].
  inversion HP as [|? ? Pa Pl]; subst.
  constructor; [apply IH; exact Pl|].
  rewrite List.Forall_forall in *. intros b Hb. apply HR; auto.
Qed.

Lemma StronglySorted_take {A} (R : A -> A -> Prop) (k : nat) (l : list A) :
  StronglySorted R l -> StronglySorted R (take k l).
Proof.
  intros Hs. revert k. induction Hs as [|a l Hs IH Hall]; intros [|k]; simpl;
    try constructor.
  - apply IH.
  - apply Forall_take. exact Hall.
Qed.

Lemma knn_result_sorted {A} (std_sort : sorter) (k : nat) (threshold : f32)
    (l : list (A * f32)) :
  sort_contract std_sort ->
  List.Forall (fun e => F32.geb (snd e) threshold = true) l ->
  Permutation l (std_sort _ AtomSpace.by_similarity l) /\
  knn_result k threshold (take k (std_sort _ AtomSpace.by_similarity l)).
Proof.
  intros Hsort Hl.
  assert (Hnan : List.Forall (fun e : A * f32 => F32.is_nan (snd e) = false) l).
  { eapply List.Forall_impl; [|exact Hl]. intros e He. apply (leb_not_nan _ _ He). }
  destruct (Hsort _ AtomSpace.by_similarity l (by_similarity_swo l Hnan)) as [Hp Hs].
  split; [exact Hp|].
  set (sorted := std_sort (A * f32)%type AtomSpace.by_similarity l) in *.
  assert (Hnan' : List.Forall (fun e : A * f32 => F32.is_nan (snd e) = false) sorted)
    by (eapply Permutation_Forall; eassumption).
  assert (Hl' : List.Forall (fun e : A * f32 => F32.geb (snd e) threshold = true) sorted)
    by (eapply Permutation_Forall; eassumption).
  repeat split.
  - apply StronglySorted_take.
    eapply StronglySorted_weaken; [|exact Hnan'|exact Hs].
    intros a b Ha Hb Hab. unfold AtomSpace.by_similarity, F32.gtb in Hab.
    unfold F32.geb. apply not_ltb_leb; assumption.
  - rewrite length_take. lia.
  - apply Forall_take. eapply List.Forall_impl; [|exact Hl'].
    intros e He. split; [exact He|]. apply leb_ltb_false. exact He.
Qed.

Lemma scan_atom_Some query threshold atom e :
  AtomSpace.scan_atom query threshold atom = Some e ->
  fst e = atom /\ AtomSpace.isNode atom = true /\ AtomSpace.hasEmbedding atom = true /\
  snd e = AtomSpace.cosineSimilarity query (AtomSpace.getEmbedding atom) /\
  F32.geb (snd e) threshold = true.
Proof.
  unfold AtomSpace.scan_atom.
  destruct (AtomSpace.isNode atom); [|discriminate].
  destruct (AtomSpace.hasEmbedding atom); [|discriminate]. simpl.
  destruct (F32.geb _ threshold) eqn:E; [|discriminate].
  intros [= <-]. simpl. auto.
Qed.

Lemma scan_entry_Some query threshold entry e :
  EmbeddingSpace.scan_entry query threshold entry = Some e ->
  F32.geb (snd e) threshold = true.
Proof.
  unfold EmbeddingSpace.scan_entry.
  destruct (F32.geb _ threshold) eqn:E; [|discriminate].
  intros [= <-]. exact E.
Qed.

Lemma Forall_omap {A B} (f : A -> option B) (P : B -> Prop) (l : list A) :
  (forall x y, f x = Some y -> P y) -> List.Forall P (omap f l).
Proof.
  intros H. induction l as [|x l IH]; simpl; [constructor|].
  destruct (f x) eqn:E; [constructor; eauto|exact IH].
Qed.

(** ** C3: the k-NN query contract *)

(** C3 (as amended). For every query vector, k and threshold, and every
    [std::sort] that meets its contract: [AtomSpace::querySimilar] returns
    Nodes of the store that carry an embedding, each with its cosine
    similarity to the query, sorted by non-increasing similarity, at most k
    of them, none below the threshold; [EmbeddingSpace::findNearest] returns
    such a list whenever the query has the dimension of the space and throws
    otherwise. In the store's scan a candidate of mismatched dimension
    contributes similarity 0.0, and so does a candidate of zero norm
    provided the norm of the query itself is finite. *)
Theorem knn_query_contract (std_sort : sorter) (query : list f32) (k : nat)
    (threshold : f32) (s : AtomSpace.t) (sp : EmbeddingSpace.t) :
  sort_contract std_sort ->
  knn_result k threshold (AtomSpace.querySimilar std_sort query k threshold s) /\
  (forall e, In e (AtomSpace.querySimilar std_sort query k threshold s) ->
     exists h, AtomSpace.atoms_ s !! h = Some (fst e)) /\
  (forall e, In e (AtomSpace.querySimilar std_sort query k threshold s) ->
     AtomSpace.isNode (fst e) = true /\ AtomSpace.hasEmbedding (fst e) = true /\
     snd e = AtomSpace.cosineSimilarity query (AtomSpace.getEmbedding (fst e))) /\
  match EmbeddingSpace.findNearest std_sort (TensorEmbedding.of_data query) k threshold sp with
  | Ok l => length query = EmbeddingSpace.dimensions_ sp /\ knn_result k threshold l
  | Throw _ => length query <> EmbeddingSpace.dimensions_ sp
  | Undefined => False
  end /\
  (forall candidate, length candidate <> length query ->
     AtomSpace.cosineSimilarity query candidate = F32.zero) /\
  (forall candidate, length candidate = length query ->
     F32.is_zero (sqnorm candidate) = true ->
     F32.is_finite (F32.sqrt (sqnorm query)) = true ->
     AtomSpace.cosineSimilarity query candidate = F32.zero).
Proof.
  intros Hsort.
  pose (scanned := omap (AtomSpace.scan_atom query threshold) (AtomSpace.getAllAtoms s)).
  assert (Hscan : List.Forall (fun e => F32.geb (snd e) threshold = true) scanned).
  { apply Forall_omap. intros x y Hxy. apply (scan_atom_Some _ _ _ _ Hxy). }
  destruct (knn_result_sorted std_sort k threshold scanned Hsort Hscan) as [Hperm Hknn].
  assert (Hin : forall e, In e (AtomSpace.querySimilar std_sort query k threshold s) ->
                exists atom, atom ∈ AtomSpace.getAllAtoms s /\
                             AtomSpace.scan_atom query threshold atom = Some e).
  { intros e He. unfold AtomSpace.querySimilar in He. fold scanned in He.
    apply list_elem_of_In, subseteq_take in He.
    rewrite <- Hperm in He. apply list_elem_of_omap in He. exact He. }
  split; [exact Hknn|]. split; [|split; [|split; [|split]]].
  - intros e He. destruct (Hin e He) as (atom & Hatom & Hscanned).
    unfold AtomSpace.getAllAtoms in Hatom.
    apply list_elem_of_fmap in Hatom as ([h a] & -> & Hmem).
    apply elem_of_map_to_list in Hmem. exists h.
    destruct (scan_atom_Some _ _ _ _ Hscanned) as (-> & _). exact Hmem.
  - intros e He. destruct (Hin e He) as (atom & _ & Hscanned).
    destruct (scan_atom_Some _ _ _ _ Hscanned) as (-> & Hn & Hemb & Hsim & _). auto.
  - unfold EmbeddingSpace.findNearest, TensorEmbedding.dimensions. simpl.
    destruct (Nat.eqb_spec (length query) (EmbeddingSpace.dimensions_ sp)) as [E|E]; simpl.
    + split; [exact E|].
      apply knn_result_sorted; [exact Hsort|].
      apply Forall_omap. intros x y Hxy. apply (scan_entry_Some _ _ _ _ Hxy).
    + exact E.
  - intros candidate Hlen. apply cosine_mismatch. congruence.
  - intros candidate Hlen Hz Hf. apply cosine_zero_norm; auto.
Qed.

(** Instance of C3: straight insertion as [std::sort], a store with one
    embedded Node and a space with one entry. *)
Lemma knn_query_contract_witness :
  sort_contract insertion_sort /\
  knn_result 1 F32.zero
    (AtomSpace.querySimilar insertion_sort [F32.one] 1 F32.zero
       (snd (AtomSpace.create_node "cat" [F32.one] AtomSpace.empty))).
Proof.
  split; [exact insertion_sort_contract|].
  exact (proj1 (knn_query_contract insertion_sort [F32.one] 1 F32.zero
                  (snd (AtomSpace.create_node "cat" [F32.one] AtomSpace.empty))
                  (EmbeddingSpace.empty 1) insertion_sort_contract)).
Defined.

(** C3 as stated fails: against the query [3e19f], whose squared norm
    overflows, the zero-norm candidate [0.0f] gets similarity NaN, not 0.0,
    and is left out of the result even for the threshold -1.0, which a
    similarity of 0.0 passes (as it does against the query [1.0f]). *)
Lemma zero_norm_candidate_dropped :
  exists node store,
    AtomSpace.addNode "origin" [F32.zero] AtomSpace.empty = Ok (node, store) /\
    sqnorm [F32.zero] = F32.zero /\
    AtomSpace.cosineSimilarity [huge] [F32.zero] = S754_nan /\
    AtomSpace.querySimilar insertion_sort [huge] 5 F32.minus_one store = [] /\
    AtomSpace.querySimilar insertion_sort [F32.one] 5 F32.minus_one store
      = [(node, F32.zero)].
Proof.
  eexists; eexists. split; [reflexivity|]. vm_compute. auto.
Qed.

(** ** C1: deduplication of Nodes by name *)

Lemma index_closed_empty : index_closed AtomSpace.empty.
Proof. intros name hs h H. simpl in H. rewrite lookup_empty in H. discriminate. Qed.

Lemma index_closed_store_atom handle name atom s :
  index_closed s -> index_closed (AtomSpace.store_atom handle name atom s).
Proof.
  intros Hs name' hs h. unfold AtomSpace.store_atom. simpl.
  destruct (decide (name = name')) as [<-|Hne].
  - rewrite lookup_insert_eq. intros [= <-] Hin.
    apply in_app_or in Hin as [Hin|[<-|[]]].
    + destruct (AtomSpace.name_index_ s !! name) as [old|] eqn:E; [|destruct Hin].
      destruct (decide (handle = h)) as [->|Hh].
      * rewrite lookup_insert_eq. eauto.
      * rewrite lookup_insert_ne by exact Hh. eapply Hs; eassumption.
    + rewrite lookup_insert_eq. eauto.
  - rewrite lookup_insert_ne by exact Hne. intros Hidx Hin.
    destruct (decide (handle = h)) as [->|Hh].
    + rewrite lookup_insert_eq. eauto.
    + rewrite lookup_insert_ne by exact Hh. eapply Hs; eassumption.
Qed.

Lemma index_closed_addLink type outgoing s :
  index_closed s -> index_closed (snd (AtomSpace.addLink type outgoing s)).
Proof.
  intros Hs. unfold AtomSpace.addLink, AtomSpace.generateHandle. simpl.
  apply index_closed_store_atom. exact Hs.
Qed.

Lemma index_closed_addNode name embedding s node s' :
  index_closed s -> AtomSpace.addNode name embedding s = Ok (node, s') -> index_closed s'.
Proof.
  intros Hs. unfold AtomSpace.addNode, AtomSpace.create_node, AtomSpace.generateHandle.
  destruct (AtomSpace.name_index_ s !! name) as [[|h0 hs]|]; simpl.
  - intros [= <- <-]. apply index_closed_store_atom. exact Hs.
  - destruct (AtomSpace.atoms_ s !! h0) as [existing|]; [|discriminate].
    destruct (AtomSpace.isNode existing); intros [= <- <-].
    + exact Hs.
    + apply index_closed_store_atom. exact Hs.
  - intros [= <- <-]. apply index_closed_store_atom. exact Hs.
Qed.

(** On a store whose index is closed, [addNode] never runs into the null
    dereference. *)
Lemma addNode_defined name embedding s :
  index_closed s -> is_Ok (AtomSpace.addNode name embedding s).
Proof.
  intros Hs. unfold AtomSpace.addNode, is_Ok.
  destruct (AtomSpace.name_index_ s !! name) as [[|h0 hs]|] eqn:E; eauto.
  destruct (Hs name (h0 :: hs) h0 E) as [existing ->]; [left; reflexivity|].
  destruct (AtomSpace.isNode existing); eauto.
Qed.

(** The path of [addNode] that reuses a Node: taken when the first handle
    indexed under the name is a Node; the embedding argument is not read and
    the store does not change. *)
Lemma addNode_reuses_first name embedding s existing :
  first_indexed name s = Some existing -> AtomSpace.isNode existing = true ->
  AtomSpace.addNode name embedding s = Ok (existing, s).
Proof.
  unfold first_indexed, AtomSpace.addNode.
  destruct (AtomSpace.name_index_ s !! name) as [[|h0 hs]|]; try discriminate.
  intros -> ->. reflexivity.
Qed.

(** Two successive [addNode] calls return one Node, whatever the embedding
    arguments, unless an atom that is no Node heads the index of the name. *)
Lemma addNode_twice name embedding1 embedding2 s :
  index_closed s ->
  (forall a, first_indexed name s = Some a -> AtomSpace.isNode a = true) ->
  exists node s',
    AtomSpace.addNode name embedding1 s = Ok (node, s') /\
    AtomSpace.addNode name embedding2 s' = Ok (node, s').
Proof.
  intros Hclosed Hfirst.
  assert (Hcreate : forall s0,
    AtomSpace.name_index_ s0 !! name = None \/ AtomSpace.name_index_ s0 !! name = Some [] ->
    forall node s', AtomSpace.create_node name embedding1 s0 = (node, s') ->
    AtomSpace.addNode name embedding2 s' = Ok (node, s')).
  { intros s0 Hidx node s'. unfold AtomSpace.create_node, AtomSpace.generateHandle.
    intros [= <- <-]. apply addNode_reuses_first; [|reflexivity].
    unfold first_indexed, AtomSpace.store_atom. simpl.
    rewrite lookup_insert_eq.
    destruct Hidx as [-> | ->]; simpl; apply lookup_insert_eq. }
  unfold first_indexed in Hfirst. unfold AtomSpace.addNode at 1.
  destruct (AtomSpace.name_index_ s !! name) as [[|h0 hs]|] eqn:E.
  - destruct (AtomSpace.create_node name embedding1 s) as [node s'] eqn:Ec.
    exists node, s'. split; [reflexivity|]. eapply Hcreate; eauto.
  - destruct (Hclosed name (h0 :: hs) h0 E) as [existing Hex]; [left; reflexivity|].
    rewrite Hex. rewrite (Hfirst existing Hex).
    exists existing, s. split; [reflexivity|].
    apply addNode_reuses_first; [|exact (Hfirst existing Hex)].
    unfold first_indexed. rewrite E. exact Hex.
  - destruct (AtomSpace.create_node name embedding1 s) as [node s'] eqn:Ec.
    exists node, s'. split; [reflexivity|]. eapply Hcreate; eauto.
Qed.

(** C1: the code departs from the claim. After [addLink("x", {})] the index
    of "x" starts with the Link; [addNode("x")] creates a Node with handle 2,
    and a second [addNode("x")] reads the Link again and creates another
    Node, with handle 3, although a Node named "x" exists. *)
Lemma addNode_after_link_duplicates :
  exists link s1 node2 s2 node3 s3,
    AtomSpace.addLink "x" [] AtomSpace.empty = (link, s1) /\
    AtomSpace.addNode "x" [] s1 = Ok (node2, s2) /\
    AtomSpace.addNode "x" [] s2 = Ok (node3, s3) /\
    AtomSpace.isNode node2 = true /\ AtomSpace.getName node2 = "x" /\
    AtomSpace.name_index_ s2 !! "x" = Some [1; 2]%N /\
    AtomSpace.atoms_ s2 !! 2%N = Some node2 /\
    node_named "x" s2 /\
    AtomSpace.getHandle node2 = 2%N /\ AtomSpace.getHandle node3 = 3%N.
Proof.
  do 6 eexists. split; [reflexivity|]. split; [reflexivity|].
  split; [reflexivity|]. split; [reflexivity|]. split; [reflexivity|].
  split; [vm_compute; reflexivity|]. split; [vm_compute; reflexivity|].
  split; [|split; reflexivity].
  exists [1; 2]%N, 2%N. eexists.
  split; [vm_compute; reflexivity|]. split; [right; left; reflexivity|].
  split; [vm_compute; reflexivity|]. reflexivity.
Qed.

(** ** C7: message delivery *)

Lemma find_agent_cases agent_id heap agents :
  List.Forall (fun p => is_Some (heap !! p)) agents ->
  (exists p a, AgentOrchestrator.find_agent agent_id heap agents = Ok (Some p) /\
               In p agents /\ heap !! p = Some a /\ Agent.id_ a = agent_id) \/
  (AgentOrchestrator.find_agent agent_id heap agents = Ok None /\
   forall p a, In p agents -> heap !! p = Some a -> Agent.id_ a <> agent_id).
Proof.
  induction 1 as [|p agents [a Ha] _ IH]; simpl.
  - right. split; [reflexivity|]. intros p a [].
  - unfold AgentHeap.deref. rewrite Ha. simpl.
    destruct (String.eqb_spec (Agent.id_ a) agent_id) as [E|E].
    + left. exists p, a. auto.
    + destruct IH as [(q & b & Hfind & Hin & Hq & Hid)|[Hfind Hnone]].
      * left. exists q, b. auto.
      * right. split; [exact Hfind|].
        intros q b [<-|Hin] Hq; [congruence|eauto].
Qed.

Lemma getNextMessages_drain p heap a q1 q2 :
  heap !! p = Some a -> Agent.message_queue_ a = q1 ++ q2 ->
  AgentHeap.getNextMessages (length q1) p heap
  = Ok (q1, if q1 is [] then heap
            else <[p := {| Agent.id_ := Agent.id_ a; Agent.name_ := Agent.name_ a;
                           Agent.state_ := Agent.state_ a;
                           Agent.message_queue_ := q2 |}]> heap).
Proof.
  revert heap a. induction q1 as [|m q1 IH]; intros heap a Ha Hq; simpl; [reflexivity|].
  unfold AgentHeap.getNextMessage, AgentHeap.deref. rewrite Ha. simpl.
  rewrite Hq. simpl.
  rewrite (IH (<[p := Agent.pop a]> heap) (Agent.pop a)).
  - simpl. f_equal. f_equal. destruct q1; simpl.
    + unfold Agent.pop. rewrite Hq. reflexivity.
    + rewrite insert_insert_eq. reflexivity.
  - apply lookup_insert_eq.
  - unfold Agent.pop. simpl. rewrite Hq. reflexivity.
Qed.

(** C7. With every registered pointer live: if some registered agent has
    the id [message.to], [sendMessage] appends the message, unchanged, to
    the queue of one such agent and touches no other agent; that agent then
    has messages, and [getNextMessage] returns the earlier messages first
    and the new one after them. If no registered agent has that id,
    [sendMessage] returns normally and the heap of agents is unchanged.
    So a queue changes exactly when a recipient is registered. *)
Theorem sendMessage_delivery (message : AgentMessage.t) (o : AgentOrchestrator.t)
    (heap : gmap AgentPtr Agent.t) :
  registered_live o heap ->
  (registered (AgentMessage.to message) o heap ->
   exists p a,
     In p (AgentOrchestrator.agents_ o) /\ heap !! p = Some a /\
     Agent.id_ a = AgentMessage.to message /\
     AgentOrchestrator.sendMessage message o heap = Ok (<[p := Agent.push message a]> heap) /\
     (forall q, q <> p -> <[p := Agent.push message a]> heap !! q = heap !! q) /\
     AgentHeap.hasMessages p (<[p := Agent.push message a]> heap) = Ok true /\
     fst <$> AgentHeap.getNextMessages (S (length (Agent.message_queue_ a))) p
               (<[p := Agent.push message a]> heap)
       = Ok (Agent.message_queue_ a ++ [message])) /\
  (~ registered (AgentMessage.to message) o heap ->
   AgentOrchestrator.sendMessage message o heap = Ok heap) /\
  (registered (AgentMessage.to message) o heap <->
   AgentOrchestrator.sendMessage message o heap <> Ok heap).
Proof.
  intros Hlive.
  assert (Hyes : registered (AgentMessage.to message) o heap ->
    exists p a,
     In p (AgentOrchestrator.agents_ o) /\ heap !! p = Some a /\
     Agent.id_ a = AgentMessage.to message /\
     AgentOrchestrator.sendMessage message o heap = Ok (<[p := Agent.push message a]> heap)).
  { intros (p0 & a0 & Hin0 & Hp0 & Hid0).
    unfold AgentOrchestrator.sendMessage, AgentOrchestrator.getAgent.
    destruct (find_agent_cases (AgentMessage.to message) heap _ Hlive)
      as [(p & a & Hfind & Hin & Hp & Hid)|[_ Hnone]].
    - exists p, a. rewrite Hfind. simpl.
      unfold AgentHeap.receiveMessage, AgentHeap.deref. rewrite Hp. auto.
    - destruct (Hnone p0 a0 Hin0 Hp0 Hid0). }
  assert (Hno : ~ registered (AgentMessage.to message) o heap ->
    AgentOrchestrator.sendMessage message o heap = Ok heap).
  { intros Hnot. unfold AgentOrchestrator.sendMessage, AgentOrchestrator.getAgent.
    destruct (find_agent_cases (AgentMessage.to message) heap _ Hlive)
      as [(p & a & Hfind & Hin & Hp & Hid)|[Hfind _]].
    - destruct Hnot. exists p, a. auto.
    - rewrite Hfind. reflexivity. }
  split; [|split; [exact Hno|]].
  - intros Hreg. destruct (Hyes Hreg) as (p & a & Hin & Hp & Hid & Hsend).
    exists p, a. repeat (split; [assumption|]). split; [|split].
    + intros q Hq. apply lookup_insert_ne. congruence.
    + unfold AgentHeap.hasMessages, AgentHeap.deref. rewrite lookup_insert_eq. simpl.
      destruct (Agent.message_queue_ a); reflexivity.
    + pose proof (getNextMessages_drain p (<[p := Agent.push message a]> heap)
                    (Agent.push message a) (Agent.message_queue_ a ++ [message]) []) as Hd.
      replace (S (length (Agent.message_queue_ a)))
        with (length (Agent.message_queue_ a ++ [message]))
        by (rewrite length_app; simpl; lia).
      rewrite Hd; [reflexivity|apply lookup_insert_eq|].
      rewrite app_nil_r. reflexivity.
  - split.
    + intros Hreg Heq. destruct (Hyes Hreg) as (p & a & _ & Hp & _ & Hsend).
      rewrite Hsend in Heq. injection Heq as Heq.
      assert (Hq : <[p := Agent.push message a]> heap !! p = Some a) by (rewrite Heq; exact Hp).
      rewrite lookup_insert_eq in Hq. injection Hq as Hq.
      apply (f_equal (fun x => length (Agent.message_queue_ x))) in Hq.
      simpl in Hq. rewrite length_app in Hq. simpl in Hq. lia.
    + intros Hne.
      destruct (find_agent_cases (AgentMessage.to message) heap _ Hlive)
        as [(p & a & _ & Hin & Hp & Hid)|[_ Hnone]].
      * exists p, a. auto.
      * destruct Hne. apply Hno. intros (p & a & Hin & Hp & Hid).
        exact (Hnone p a Hin Hp Hid).
Qed.

(** Instance of C7: the message of the orchestrator test reaches "agent2". *)
Lemma sendMessage_delivery_witness :
  registered_live demo_orchestrator demo_heap /\
  registered "agent2" demo_orchestrator demo_heap /\
  exists p a,
    In p (AgentOrchestrator.agents_ demo_orchestrator) /\ demo_heap !! p = Some a /\
    Agent.id_ a = "agent2" /\
    AgentOrchestrator.sendMessage demo_message demo_orchestrator demo_heap
      = Ok (<[p := Agent.push demo_message a]> demo_heap) /\
    (forall q, q <> p -> <[p := Agent.push demo_message a]> demo_heap !! q = demo_heap !! q) /\
    AgentHeap.hasMessages p (<[p := Agent.push demo_message a]> demo_heap) = Ok true /\
    fst <$> AgentHeap.getNextMessages (S (length (Agent.message_queue_ a))) p
              (<[p := Agent.push demo_message a]> demo_heap)
      = Ok (Agent.message_queue_ a ++ [demo_message]).
Proof.
  assert (Hlive : registered_live demo_orchestrator demo_heap).
  { repeat constructor; eexists; reflexivity. }
  assert (Hreg : registered "agent2" demo_orchestrator demo_heap).
  { exists 2%positive, (Agent.make "agent2" "Agent 2").
    split; [right; left; reflexivity|]. split; reflexivity. }
  split; [exact Hlive|]. split; [exact Hreg|].
  exact (proj1 (sendMessage_delivery demo_message demo_orchestrator demo_heap Hlive) Hreg).
Defined.

(** ** C8: dimension checks of the embedding space *)

Lemma addEmbedding_cases id embedding sp :
  (TensorEmbedding.dimensions embedding <> EmbeddingSpace.dimensions_ sp /\
   EmbeddingSpace.addEmbedding id embedding sp = Throw "Embedding dimension mismatch") \/
  (TensorEmbedding.dimensions embedding = EmbeddingSpace.dimensions_ sp /\
   EmbeddingSpace.addEmbedding id embedding sp
   = Ok {| EmbeddingSpace.dimensions_ := EmbeddingSpace.dimensions_ sp;
           EmbeddingSpace.embeddings_ := EmbeddingSpace.embeddings_ sp ++ [(id, embedding)] |}).
Proof.
  unfold EmbeddingSpace.addEmbedding.
  destruct (Nat.eqb_spec (TensorEmbedding.dimensions embedding) (EmbeddingSpace.dimensions_ sp));
    simpl; auto.
Qed.

Lemma uniform_addEmbedding id embedding sp sp' :
  uniform sp -> EmbeddingSpace.addEmbedding id embedding sp = Ok sp' ->
  EmbeddingSpace.dimensions_ sp' = EmbeddingSpace.dimensions_ sp /\ uniform sp'.
Proof.
  intros Hu Hadd.
  destruct (addEmbedding_cases id embedding sp) as [[_ E]|[Hdim E]];
    rewrite E in Hadd; [discriminate|].
  injection Hadd as <-. split; [reflexivity|].
  unfold uniform in *. simpl. apply Forall_app. split; [exact Hu|].
  constructor; [exact Hdim|constructor].
Qed.

Lemma built_uniform dims sp :
  built dims sp -> EmbeddingSpace.dimensions_ sp = dims /\ uniform sp.
Proof.
  induction 1 as [|sp id e sp' _ [IHd IHu] Hadd].
  - split; [reflexivity|constructor].
  - destruct (uniform_addEmbedding id e sp sp' IHu Hadd) as [Hd Hu].
    split; [congruence|exact Hu].
Qed.

(** C8. [addEmbedding(name, vector)] throws exactly when the length of the
    vector differs from [dimensions] and appends the entry otherwise, so a
    space built by insertions stores vectors of length [dimensions] only;
    [findNearest] throws exactly when the length of the query differs from
    [dimensions] and returns a list otherwise. The store's scan has no such
    check: a candidate whose dimension differs from the query's gets
    similarity 0.0. *)
Theorem embedding_space_dimension_checks (std_sort : sorter) (sp : EmbeddingSpace.t)
    (id : string) (vector query : list f32) (k : nat) (threshold : f32) :
  (length vector <> EmbeddingSpace.dimensions_ sp <->
   EmbeddingSpace.addEmbedding id (TensorEmbedding.of_data vector) sp
   = Throw "Embedding dimension mismatch") /\
  (length vector = EmbeddingSpace.dimensions_ sp <->
   EmbeddingSpace.addEmbedding id (TensorEmbedding.of_data vector) sp
   = Ok {| EmbeddingSpace.dimensions_ := EmbeddingSpace.dimensions_ sp;
           EmbeddingSpace.embeddings_ :=
             EmbeddingSpace.embeddings_ sp ++ [(id, TensorEmbedding.of_data vector)] |}) /\
  (forall dims, built dims sp ->
     EmbeddingSpace.dimensions_ sp = dims /\
     Forall (fun entry => length (TensorEmbedding.data_ (snd entry)) = dims)
            (EmbeddingSpace.embeddings_ sp)) /\
  (length query <> EmbeddingSpace.dimensions_ sp <->
   EmbeddingSpace.findNearest std_sort (TensorEmbedding.of_data query) k threshold sp
   = Throw "Query dimension mismatch") /\
  (length query = EmbeddingSpace.dimensions_ sp <->
   is_Ok (EmbeddingSpace.findNearest std_sort (TensorEmbedding.of_data query) k threshold sp)) /\
  (forall candidate, length candidate <> length query ->
     AtomSpace.cosineSimilarity query candidate = F32.zero).
Proof.
  split; [|split; [|split; [|split; [|split]]]].
  - destruct (addEmbedding_cases id (TensorEmbedding.of_data vector) sp) as [[H ->]|[H ->]];
      unfold TensorEmbedding.dimensions in H; simpl in H; split; intros; try congruence.
  - destruct (addEmbedding_cases id (TensorEmbedding.of_data vector) sp) as [[H ->]|[H ->]];
      unfold TensorEmbedding.dimensions in H; simpl in H; split; intros; try congruence.
  - intros dims Hb. destruct (built_uniform dims sp Hb) as [Hd Hu].
    split; [exact Hd|]. unfold uniform, TensorEmbedding.dimensions in Hu.
    rewrite Hd in Hu. exact Hu.
  - unfold EmbeddingSpace.findNearest, TensorEmbedding.dimensions. simpl.
    destruct (Nat.eqb_spec (length query) (EmbeddingSpace.dimensions_ sp)); simpl;
      split; intros; try congruence.
  - unfold EmbeddingSpace.findNearest, TensorEmbedding.dimensions, is_Ok. simpl.
    destruct (Nat.eqb_spec (length query) (EmbeddingSpace.dimensions_ sp)); simpl;
      split; intros H; eauto; try contradiction.
    destruct H; discriminate.
  - intros candidate H. apply cosine_mismatch. congruence.
Qed.

(** Instance of C8: the space of the embedding-space test after its first
    insertion. *)
Lemma embedding_space_dimension_checks_witness :
  built 3 {| EmbeddingSpace.dimensions_ := 3;
             EmbeddingSpace.embeddings_ :=
               [("cat", TensorEmbedding.of_data [F32.one; F32.zero; F32.zero])] |} /\
  Forall (fun entry => length (TensorEmbedding.data_ (snd entry)) = 3)
         [("cat", TensorEmbedding.of_data [F32.one; F32.zero; F32.zero])].
Proof.
  assert (Hb : built 3 {| EmbeddingSpace.dimensions_ := 3;
             EmbeddingSpace.embeddings_ :=
               [("cat", TensorEmbedding.of_data [F32.one; F32.zero; F32.zero])] |}).
  { exact (built_add 3 (EmbeddingSpace.empty 3) "cat"
             (TensorEmbedding.of_data [F32.one; F32.zero; F32.zero]) _
             (built_empty 3) eq_refl). }
  split; [exact Hb|].
  exact (proj2 (proj1 (proj2 (proj2
           (embedding_space_dimension_checks insertion_sort _ "dog" [] [] 0 F32.zero)))
           3 Hb)).
Defined.

(** ** Rounding never produces NaN and keeps the sign *)

Lemma shr_1_nonneg mrs : (0 <= shr_m mrs)%Z -> (0 <= shr_m (shr_1 mrs))%Z.
Proof.
  destruct mrs as [m r s]. simpl.
  destruct m as [|[p|p|]|[p|p|]]; simpl; lia.
Qed.

Lemma iter_pos_shr_1_nonneg p mrs :
  (0 <= shr_m mrs)%Z -> (0 <= shr_m (SpecFloat.iter_pos shr_1 p mrs))%Z.
Proof.
  revert mrs. induction p as [p IH|p IH|]; intros mrs H; simpl.
  - apply IH, IH, shr_1_nonneg, H.
  - apply IH, IH, H.
  - apply shr_1_nonneg, H.
Qed.

Lemma shr_fexp_nonneg m e l :
  (0 <= m)%Z -> (0 <= shr_m (fst (shr_fexp F32.prec F32.emax m e l)))%Z.
Proof.
  intros H. unfold shr_fexp, shr.
  assert (H0 : (0 <= shr_m (shr_record_of_loc m l))%Z) by (destruct l as [|[]]; exact H).
  destruct (_ - e)%Z; simpl; auto using iter_pos_shr_1_nonneg.
Qed.

Lemma round_nearest_even_nonneg m l : (0 <= m)%Z -> (0 <= round_nearest_even m l)%Z.
Proof.
  intros H. destruct l as [|[]]; simpl; try destruct (Z.even m); lia.
Qed.

Lemma binary_round_aux_sign sx mx ex lx :
  (0 <= mx)%Z -> has_sign sx (binary_round_aux F32.prec F32.emax sx mx ex lx).
Proof.
  intros H. unfold binary_round_aux.
  pose proof (shr_fexp_nonneg mx ex lx H) as H1.
  destruct (shr_fexp F32.prec F32.emax mx ex lx) as [mrs' e']. simpl in H1.
  pose proof (shr_fexp_nonneg _ e' loc_Exact
                (round_nearest_even_nonneg _ (loc_of_shr_record mrs') H1)) as H2.
  destruct (shr_fexp F32.prec F32.emax _ e' loc_Exact) as [mrs'' e'']. simpl in H2.
  destruct (shr_m mrs''); simpl; try reflexivity; [|lia].
  destruct (Z.leb e'' _); reflexivity.
Qed.

Lemma binary_normalize_not_nan m e s :
  F32.is_nan (binary_normalize F32.prec F32.emax m e s) = false.
Proof.
  unfold binary_normalize, binary_round. destruct m as [|p|p]; [reflexivity| |].
  - destruct (shl_align p e _) as [mz ez].
    pose proof (binary_round_aux_sign false (Zpos mz) ez loc_Exact ltac:(lia)) as H.
    destruct (binary_round_aux _ _ _ _ _ _); simpl in *; tauto.
  - destruct (shl_align p e _) as [mz ez].
    pose proof (binary_round_aux_sign true (Zpos mz) ez loc_Exact ltac:(lia)) as H.
    destruct (binary_round_aux _ _ _ _ _ _); simpl in *; tauto.
Qed.

Lemma add_finite_not_nan x d :
  F32.is_finite x = true -> F32.is_nan d = false -> F32.is_nan (F32.add x d) = false.
Proof.
  destruct x as [sx| | |sx mx ex], d as [sd|sd| |sd md ed]; simpl; intros;
    try discriminate; try reflexivity.
  - destruct sx, sd; reflexivity.
  - apply binary_normalize_not_nan.
Qed.

Lemma mul_self_nonneg x : F32.is_nan x = false -> F32.geb (F32.mul x x) F32.zero = true.
Proof.
  destruct x as [s|s| |s m e]; simpl; intros; try discriminate.
  - destruct s; reflexivity.
  - destruct s; reflexivity.
  - unfold F32.geb, F32.mul, SFmul.
    pose proof (binary_round_aux_sign (xorb s s) (Zpos (m * m)) (e + e) loc_Exact
                  ltac:(lia)) as Hs.
    replace (xorb s s) with false in * by (destruct s; reflexivity).
    destruct (binary_round_aux _ _ _ _ _ _) as [s'|s'| |s' m' e']; simpl in Hs;
      try contradiction; subst; reflexivity.
Qed.

(** ** Values of the unit interval *)

Lemma in_unit_interval_finite x : in_unit_interval x = true -> F32.is_finite x = true.
Proof.
  unfold in_unit_interval. destruct x as [s|[]| |s m e]; simpl; intros H;
    try reflexivity; discriminate.
Qed.

Lemma clamp_in_unit_interval v :
  F32.is_nan v = false -> in_unit_interval (F32.clamp v F32.zero F32.one) = true.
Proof.
  intros Hv. unfold F32.clamp.
  destruct (F32.ltb v F32.zero) eqn:E0; [reflexivity|].
  destruct (F32.ltb F32.one v) eqn:E1; [reflexivity|].
  unfold in_unit_interval.
  rewrite (not_ltb_leb v F32.zero Hv eq_refl E0).
  rewrite (not_ltb_leb F32.one v eq_refl Hv E1). reflexivity.
Qed.

Lemma clamp_nan : F32.clamp S754_nan F32.zero F32.one = S754_nan.
Proof. reflexivity. Qed.

(** ** C6: [updateRelevance] *)

Lemma updateRelevance_scores handle delta r :
  CognitiveFusionReactor.relevance_scores_ (CognitiveFusionReactor.updateRelevance handle delta r)
  = <[handle := F32.clamp
                  (F32.add (default F32.zero (CognitiveFusionReactor.relevance_scores_ r !! handle))
                           delta)
                  F32.zero F32.one]> (CognitiveFusionReactor.relevance_scores_ r).
Proof. reflexivity. Qed.

Lemma updateRelevance_in_range handle delta r :
  F32.is_nan delta = false -> relevance_in_range r ->
  relevance_in_range (CognitiveFusionReactor.updateRelevance handle delta r).
Proof.
  intros Hd Hr h x. rewrite updateRelevance_scores.
  destruct (decide (handle = h)) as [<-|Hne].
  - rewrite lookup_insert_eq. intros [= <-].
    apply clamp_in_unit_interval, add_finite_not_nan; [|exact Hd].
    destruct (CognitiveFusionReactor.relevance_scores_ r !! handle) as [x|] eqn:E;
      simpl; [|reflexivity].
    apply in_unit_interval_finite. exact (Hr handle x E).
  - rewrite lookup_insert_ne by exact Hne. apply Hr.
Qed.

(** C6 (as amended). [updateRelevance(handle, delta)] stores
    [clamp(previous + delta, 0, 1)], where [previous] is the stored relevance
    and 0.0 when the handle has none, and leaves the relevance of the other
    handles alone. A table with values in [0, 1] stays so under a call whose
    [delta] is not NaN, hence under any run of such calls. Exactly when [delta > 0] and the handle has an
    attention entry, the sti of that entry becomes [min(1, sti + 0.5 delta)],
    lti and vlti unchanged; otherwise the attention table is untouched. *)
Theorem updateRelevance_effect (handle : AtomHandle) (delta : f32)
    (r : CognitiveFusionReactor.t) :
  let r' := CognitiveFusionReactor.updateRelevance handle delta r in
  CognitiveFusionReactor.relevance_scores_ r' !! handle
  = Some (F32.clamp
            (F32.add (default F32.zero (CognitiveFusionReactor.relevance_scores_ r !! handle))
                     delta)
            F32.zero F32.one) /\
  (forall h, h <> handle ->
     CognitiveFusionReactor.relevance_scores_ r' !! h
     = CognitiveFusionReactor.relevance_scores_ r !! h) /\
  (F32.is_nan delta = false -> relevance_in_range r ->
     relevance_in_range r' /\
     in_unit_interval (CognitiveFusionReactor.getRelevance handle r') = true) /\
  (forall calls, List.Forall (fun call => F32.is_nan (snd call) = false) calls ->
     relevance_in_range r -> relevance_in_range (updateRelevance_all calls r)) /\
  (forall a, F32.gtb delta F32.zero = true ->
     CognitiveFusionReactor.attention_bank_ r !! handle = Some a ->
     CognitiveFusionReactor.attention_bank_ r'
     = <[handle := {| CognitiveFusionReactor.sti :=
                        F32.min F32.one
                          (F32.add (CognitiveFusionReactor.sti a) (F32.mul delta F32.half));
                      CognitiveFusionReactor.lti := CognitiveFusionReactor.lti a;
                      CognitiveFusionReactor.vlti := CognitiveFusionReactor.vlti a |}]>
         (CognitiveFusionReactor.attention_bank_ r)) /\
  (F32.gtb delta F32.zero = false \/ CognitiveFusionReactor.attention_bank_ r !! handle = None ->
     CognitiveFusionReactor.attention_bank_ r' = CognitiveFusionReactor.attention_bank_ r).
Proof.
  intros r'. subst r'. split; [|split; [|split; [|split; [|split]]]].
  - rewrite updateRelevance_scores. apply lookup_insert_eq.
  - intros h Hne. rewrite updateRelevance_scores. apply lookup_insert_ne. congruence.
  - intros Hd Hr.
    pose proof (updateRelevance_in_range handle delta r Hd Hr) as Hr'.
    split; [exact Hr'|].
    unfold CognitiveFusionReactor.getRelevance.
    apply (Hr' handle). rewrite updateRelevance_scores, lookup_insert_eq. reflexivity.
  - intros calls. unfold updateRelevance_all. revert r.
    induction calls as [|[h d] calls IH]; intros r Hc Hr; simpl; [exact Hr|].
    inversion Hc as [|? ? Hd Hc']; subst. apply IH; [exact Hc'|].
    apply updateRelevance_in_range; assumption.
  - intros a Hpos Ha. unfold CognitiveFusionReactor.updateRelevance. simpl.
    rewrite Hpos, Ha. reflexivity.
  - intros H. unfold CognitiveFusionReactor.updateRelevance. simpl.
    destruct (F32.gtb delta F32.zero); [|reflexivity].
    destruct H as [H | ->]; [discriminate|reflexivity].
Qed.

(** Instance of C6: the call of the demo, [updateRelevance(cat, 0.3f)], on
    the fresh facade and on one where handle 1 has an attention entry. *)
Lemma updateRelevance_effect_witness :
  (F32.is_nan c0_3 = false /\ relevance_in_range lab /\
   relevance_in_range (CognitiveFusionReactor.updateRelevance 1 c0_3 lab) /\
   in_unit_interval
     (CognitiveFusionReactor.getRelevance 1
        (CognitiveFusionReactor.updateRelevance 1 c0_3 lab)) = true) /\
  (F32.gtb c0_3 F32.zero = true /\
   CognitiveFusionReactor.attention_bank_
     (CognitiveFusionReactor.updateRelevance 1 c0_3
        (CognitiveFusionReactor.setAttention 1 (with_sti c0_2) lab))
   = <[1%N := {| CognitiveFusionReactor.sti :=
                   F32.min F32.one (F32.add c0_2 (F32.mul c0_3 F32.half));
                 CognitiveFusionReactor.lti := F32.half;
                 CognitiveFusionReactor.vlti := F32.half |}]>
       (CognitiveFusionReactor.attention_bank_
          (CognitiveFusionReactor.setAttention 1 (with_sti c0_2) lab))).
Proof.
  assert (Hlab : relevance_in_range lab).
  { intros h x H. simpl in H. rewrite lookup_empty in H. discriminate. }
  split.
  - split; [reflexivity|]. split; [exact Hlab|].
    exact (proj1 (proj2 (proj2 (updateRelevance_effect 1 c0_3 lab))) eq_refl Hlab).
  - split; [reflexivity|].
    exact (proj1 (proj2 (proj2 (proj2 (proj2
             (updateRelevance_effect 1 c0_3
                (CognitiveFusionReactor.setAttention 1 (with_sti c0_2) lab))))))
             (with_sti c0_2) eq_refl (lookup_insert_eq _ _ _)).
Defined.

(** C6 as stated fails: a NaN delta passes through [std::clamp], both of
    whose comparisons are false, and the stored relevance is NaN, which is
    not within [0, 1]. *)
Lemma updateRelevance_nan_delta :
  CognitiveFusionReactor.getRelevance 1
    (CognitiveFusionReactor.setRelevance 1 F32.half lab) = F32.half /\
  CognitiveFusionReactor.relevance_scores_
    (CognitiveFusionReactor.updateRelevance 1 S754_nan
       (CognitiveFusionReactor.setRelevance 1 F32.half lab)) !! 1%N = Some S754_nan /\
  in_unit_interval
    (CognitiveFusionReactor.getRelevance 1
       (CognitiveFusionReactor.updateRelevance 1 S754_nan
          (CognitiveFusionReactor.setRelevance 1 F32.half lab))) = false.
Proof. vm_compute. auto. Qed.

(** ** C4 and C10: [spreadAttention] *)

Lemma high_attention_spec bank h :
  In h (CognitiveFusionReactor.high_attention bank) <->
  exists a, bank !! h = Some a /\ F32.gtb (CognitiveFusionReactor.sti a) F32.c0_7 = true.
Proof.
  unfold CognitiveFusionReactor.high_attention.
  rewrite <- list_elem_of_In, list_elem_of_fmap. split.
  - intros ([h' a] & -> & Hin). apply list_elem_of_filter in Hin as [Hsti Hin].
    apply elem_of_map_to_list in Hin. exists a. auto.
  - intros (a & Ha & Hsti). exists (h, a). split; [reflexivity|].
    apply list_elem_of_filter. split; [exact Hsti|]. apply elem_of_map_to_list. exact Ha.
Qed.

Lemma spread_from_outgoing store bank h :
  CognitiveFusionReactor.spread_from store bank h
  = fold_left CognitiveFusionReactor.raise_sti (outgoing_of store h) bank.
Proof.
  unfold CognitiveFusionReactor.spread_from, outgoing_of.
  destruct (AtomSpace.getAtom h store) as [atom|]; [|reflexivity].
  destruct (AtomSpace.isLink atom); reflexivity.
Qed.

Lemma spread_fold store hs bank :
  fold_left (CognitiveFusionReactor.spread_from store) hs bank
  = fold_left CognitiveFusionReactor.raise_sti (flat_map (outgoing_of store) hs) bank.
Proof.
  revert bank. induction hs as [|h hs IH]; intros bank; simpl; [reflexivity|].
  rewrite fold_left_app, IH, spread_from_outgoing. reflexivity.
Qed.

Lemma spreadAttention_bank r :
  CognitiveFusionReactor.attention_bank_ (CognitiveFusionReactor.spreadAttention r)
  = fold_left CognitiveFusionReactor.raise_sti (spread_targets r)
              (CognitiveFusionReactor.attention_bank_ r).
Proof. unfold CognitiveFusionReactor.spreadAttention. simpl. apply spread_fold. Qed.

Lemma spread_targets_spec r t :
  In t (spread_targets r) <->
  exists h link,
    In h (CognitiveFusionReactor.high_attention (CognitiveFusionReactor.attention_bank_ r)) /\
    AtomSpace.getAtom h (CognitiveFusionReactor.atomspace_ r) = Some link /\
    AtomSpace.isLink link = true /\ In t (AtomSpace.getOutgoing link).
Proof.
  unfold spread_targets. rewrite in_flat_map. split.
  - intros (h & Hh & Ht). unfold outgoing_of in Ht.
    destruct (AtomSpace.getAtom h _) as [link|] eqn:E; [|destruct Ht].
    destruct (AtomSpace.isLink link) eqn:El; [|destruct Ht].
    exists h, link. auto.
  - intros (h & link & Hh & Hl & Hlink & Ht). exists h. split; [exact Hh|].
    unfold outgoing_of. rewrite Hl, Hlink. exact Ht.
Qed.

(** The table after a run of raises: a handle that the run visits [n > 0]
    times holds its former entry, all zeros if it had none, with the sti
    raised [n] times; any other handle keeps what it had. *)
Lemma raise_fold_lookup targets bank h :
  fold_left CognitiveFusionReactor.raise_sti targets bank !! h
  = match count_occ N.eq_dec targets h with
    | O => bank !! h
    | S n =>
        let a := default CognitiveFusionReactor.zero_attention (bank !! h) in
        Some {| CognitiveFusionReactor.sti := iterate raised (S n) (CognitiveFusionReactor.sti a);
                CognitiveFusionReactor.lti := CognitiveFusionReactor.lti a;
                CognitiveFusionReactor.vlti := CognitiveFusionReactor.vlti a |}
    end.
Proof.
  revert bank. induction targets as [|t targets IH]; intros bank; simpl; [reflexivity|].
  rewrite IH. unfold CognitiveFusionReactor.raise_sti.
  destruct (N.eq_dec t h) as [->|Hne].
  - rewrite lookup_insert_eq. simpl.
    destruct (count_occ N.eq_dec targets h); reflexivity.
  - rewrite lookup_insert_ne by exact Hne.
    destruct (count_occ N.eq_dec targets h); reflexivity.
Qed.

(** C4 (as amended). [spreadAttention] is one pass over the table as it
    stands at the call: it collects exactly the handles whose sti exceeds
    0.7; the atoms it visits are those of the outgoing lists of the collected
    handles that are Links; every visit raises the sti of the visited atom
    by 0.1, capped at 1.0, and an atom that is not visited keeps its entry -
    so a collected Link keeps its own sti unless it stands in the outgoing
    list of a collected Link. Nothing but the attention table changes. With
    Link L at sti 0.8 over A and B at sti 0.2, one call yields 0.3 for A and
    B and leaves L at 0.8; a second call yields 0.4. *)
Theorem spreadAttention_one_hop (r : CognitiveFusionReactor.t) :
  let bank := CognitiveFusionReactor.attention_bank_ r in
  let bank' := CognitiveFusionReactor.attention_bank_ (CognitiveFusionReactor.spreadAttention r) in
  (forall h, In h (CognitiveFusionReactor.high_attention bank) <->
     exists a, bank !! h = Some a /\ F32.gtb (CognitiveFusionReactor.sti a) F32.c0_7 = true) /\
  (forall t, In t (spread_targets r) <->
     exists h link,
       In h (CognitiveFusionReactor.high_attention bank) /\
       AtomSpace.getAtom h (CognitiveFusionReactor.atomspace_ r) = Some link /\
       AtomSpace.isLink link = true /\ In t (AtomSpace.getOutgoing link)) /\
  (forall h, ~ In h (spread_targets r) -> bank' !! h = bank !! h) /\
  (forall h n, count_occ N.eq_dec (spread_targets r) h = S n ->
     let a := default CognitiveFusionReactor.zero_attention (bank !! h) in
     bank' !! h
     = Some {| CognitiveFusionReactor.sti := iterate raised (S n) (CognitiveFusionReactor.sti a);
               CognitiveFusionReactor.lti := CognitiveFusionReactor.lti a;
               CognitiveFusionReactor.vlti := CognitiveFusionReactor.vlti a |}) /\
  CognitiveFusionReactor.spreadAttention r = CognitiveFusionReactor.with_attention bank' r /\
  (CognitiveFusionReactor.sti (CognitiveFusionReactor.getAttention 1 hop) = c0_2 /\
   CognitiveFusionReactor.sti (CognitiveFusionReactor.getAttention 2 hop) = c0_2 /\
   CognitiveFusionReactor.sti (CognitiveFusionReactor.getAttention 3 hop) = c0_8 /\
   spread_targets hop = [1; 2]%N /\
   CognitiveFusionReactor.sti
     (CognitiveFusionReactor.getAttention 1 (CognitiveFusionReactor.spreadAttention hop)) = c0_3 /\
   CognitiveFusionReactor.sti
     (CognitiveFusionReactor.getAttention 2 (CognitiveFusionReactor.spreadAttention hop)) = c0_3 /\
   CognitiveFusionReactor.sti
     (CognitiveFusionReactor.getAttention 3 (CognitiveFusionReactor.spreadAttention hop)) = c0_8 /\
   CognitiveFusionReactor.sti
     (CognitiveFusionReactor.getAttention 1
        (CognitiveFusionReactor.spreadAttention (CognitiveFusionReactor.spreadAttention hop)))
   = c0_4 /\
   CognitiveFusionReactor.sti
     (CognitiveFusionReactor.getAttention 2
        (CognitiveFusionReactor.spreadAttention (CognitiveFusionReactor.spreadAttention hop)))
   = c0_4).
Proof.
  intros bank bank'. subst bank bank'.
  split; [intros h; apply high_attention_spec|].
  split; [intros t; apply spread_targets_spec|].
  split; [|split; [|split]].
  - intros h Hh. rewrite spreadAttention_bank, raise_fold_lookup.
    rewrite (proj1 (count_occ_not_In N.eq_dec _ _) Hh). reflexivity.
  - intros h n Hn. rewrite spreadAttention_bank, raise_fold_lookup, Hn. reflexivity.
  - reflexivity.
  - vm_compute. repeat split; reflexivity.
Qed.

(** Instance of C4: the single visit of Node A in the example. *)
Lemma spreadAttention_one_hop_witness :
  count_occ N.eq_dec (spread_targets hop) 1%N = 1 /\
  CognitiveFusionReactor.attention_bank_ (CognitiveFusionReactor.spreadAttention hop) !! 1%N
  = Some {| CognitiveFusionReactor.sti := raised c0_2;
            CognitiveFusionReactor.lti := F32.half;
            CognitiveFusionReactor.vlti := F32.half |}.
Proof.
  split; [reflexivity|].
  exact (proj1 (proj2 (proj2 (proj2 (spreadAttention_one_hop hop)))) 1%N 0 eq_refl).
Defined.

(** C4 as stated fails: in [nested] both Links are collected, and Link L1
    stands in the outgoing list of Link L2, so the call raises L1's own sti
    from 0.8 to 0.8 + 0.1. *)
Lemma collected_link_raised :
  CognitiveFusionReactor.high_attention (CognitiveFusionReactor.attention_bank_ nested)
    = [2; 3]%N /\
  AtomSpace.isLink <$> AtomSpace.getAtom 2 (CognitiveFusionReactor.atomspace_ nested)
    = Some true /\
  CognitiveFusionReactor.sti (CognitiveFusionReactor.getAttention 2 nested) = c0_8 /\
  CognitiveFusionReactor.sti
    (CognitiveFusionReactor.getAttention 2 (CognitiveFusionReactor.spreadAttention nested))
    = F32.add c0_8 F32.c0_1 /\
  F32.gtb (F32.add c0_8 F32.c0_1) c0_8 = true.
Proof. vm_compute. auto. Qed.

(** C10 (as amended). An atom of a collected Link's outgoing list that has
    no attention entry before the call reads as {0.5, 0.5, 0.5} before it;
    the call creates its entry from zeros, so that afterwards lti and vlti
    read 0.0 and sti is 0.0 raised once per occurrence of the atom in the
    outgoing lists of the collected Links: {0.1, 0.0, 0.0} when it occurs
    once. *)
Theorem spreadAttention_zero_initialises (r : CognitiveFusionReactor.t) (h : AtomHandle) :
  In h (spread_targets r) ->
  CognitiveFusionReactor.attention_bank_ r !! h = None ->
  CognitiveFusionReactor.getAttention h r = CognitiveFusionReactor.neutral_attention /\
  CognitiveFusionReactor.getAttention h (CognitiveFusionReactor.spreadAttention r)
  = {| CognitiveFusionReactor.sti :=
         iterate raised (count_occ N.eq_dec (spread_targets r) h) F32.zero;
       CognitiveFusionReactor.lti := F32.zero;
       CognitiveFusionReactor.vlti := F32.zero |} /\
  (count_occ N.eq_dec (spread_targets r) h = 1 ->
   CognitiveFusionReactor.getAttention h (CognitiveFusionReactor.spreadAttention r)
   = {| CognitiveFusionReactor.sti := F32.c0_1;
        CognitiveFusionReactor.lti := F32.zero;
        CognitiveFusionReactor.vlti := F32.zero |}).
Proof.
  intros Hin Hnone.
  assert (Hafter :
    CognitiveFusionReactor.getAttention h (CognitiveFusionReactor.spreadAttention r)
    = {| CognitiveFusionReactor.sti :=
           iterate raised (count_occ N.eq_dec (spread_targets r) h) F32.zero;
         CognitiveFusionReactor.lti := F32.zero;
         CognitiveFusionReactor.vlti := F32.zero |}).
  { unfold CognitiveFusionReactor.getAttention.
    rewrite spreadAttention_bank, raise_fold_lookup, Hnone.
    apply (count_occ_In N.eq_dec) in Hin.
    destruct (count_occ N.eq_dec (spread_targets r) h); [lia|reflexivity]. }
  split; [|split].
  - unfold CognitiveFusionReactor.getAttention. rewrite Hnone. reflexivity.
  - exact Hafter.
  - intros Hone. rewrite Hafter, Hone. reflexivity.
Qed.

(** Instance of C10: Link L1 of [chain], the one outgoing atom of the
    collected Link L2. *)
Lemma spreadAttention_zero_initialises_witness :
  In 2%N (spread_targets chain) /\
  CognitiveFusionReactor.attention_bank_ chain !! 2%N = None /\
  CognitiveFusionReactor.getAttention 2 (CognitiveFusionReactor.spreadAttention chain)
  = {| CognitiveFusionReactor.sti := F32.c0_1;
       CognitiveFusionReactor.lti := F32.zero;
       CognitiveFusionReactor.vlti := F32.zero |}.
Proof.
  assert (Hin : In 2%N (spread_targets chain)) by (vm_compute; auto).
  split; [exact Hin|]. split; [reflexivity|].
  exact (proj2 (proj2 (spreadAttention_zero_initialises chain 2%N Hin eq_refl)) eq_refl).
Defined.

(** C10 as stated fails: in [shared] Link L1 has no attention entry and
    stands in the outgoing lists of the two collected Links L2 and L3; after
    the call its attention reads {0.2, 0.0, 0.0}. *)
Lemma twice_visited_atom :
  spread_targets shared = [2; 2]%N /\
  CognitiveFusionReactor.attention_bank_ shared !! 2%N = None /\
  CognitiveFusionReactor.getAttention 2 (CognitiveFusionReactor.spreadAttention shared)
  = {| CognitiveFusionReactor.sti := c0_2;
       CognitiveFusionReactor.lti := F32.zero;
       CognitiveFusionReactor.vlti := F32.zero |}.
Proof. vm_compute. auto. Qed.

(** ** [addConcept] where [addNode] hands back a Node of the store *)

Lemma lookup_first_app id l l' :
  EmbeddingSpace.lookup_first id (l ++ l')
  = match EmbeddingSpace.lookup_first id l with
    | Some e => Some e
    | None => EmbeddingSpace.lookup_first id l'
    end.
Proof.
  induction l as [|[emb_id e] l IH]; simpl; [reflexivity|].
  destruct (String.eqb emb_id id); [reflexivity|exact IH].
Qed.

(** The path of [addConcept] on which [addNode] reuses a Node: the Node is
    returned, the store is left as it is, the relevance of its handle is set
    to 0.5 and its attention to {0.5, 0.5, 0.5} whatever they were, no other
    handle is touched; an embedding that is non-empty and of the configured
    dimension is appended to the Embedding Space, where lookup by name keeps
    returning an earlier entry. *)
Lemma addConcept_reuses_node (name : string) (embedding : list f32)
    (r : CognitiveFusionReactor.t) (existing : AtomSpace.Atom) :
  EmbeddingSpace.dimensions_ (CognitiveFusionReactor.embedding_space_ r)
    = CognitiveFusionReactor.embedding_dim_ r ->
  first_indexed name (CognitiveFusionReactor.atomspace_ r) = Some existing ->
  AtomSpace.isNode existing = true ->
  exists r',
    CognitiveFusionReactor.addConcept name embedding r = Ok (existing, r') /\
    CognitiveFusionReactor.atomspace_ r' = CognitiveFusionReactor.atomspace_ r /\
    CognitiveFusionReactor.relevance_scores_ r' !! AtomSpace.getHandle existing
      = Some F32.half /\
    CognitiveFusionReactor.getRelevance (AtomSpace.getHandle existing) r' = F32.half /\
    CognitiveFusionReactor.attention_bank_ r' !! AtomSpace.getHandle existing
      = Some CognitiveFusionReactor.neutral_attention /\
    CognitiveFusionReactor.getAttention (AtomSpace.getHandle existing) r'
      = CognitiveFusionReactor.neutral_attention /\
    (forall h, h <> AtomSpace.getHandle existing ->
       CognitiveFusionReactor.relevance_scores_ r' !! h
         = CognitiveFusionReactor.relevance_scores_ r !! h /\
       CognitiveFusionReactor.attention_bank_ r' !! h
         = CognitiveFusionReactor.attention_bank_ r !! h) /\
    (embedding <> [] /\ length embedding = CognitiveFusionReactor.embedding_dim_ r ->
       EmbeddingSpace.embeddings_ (CognitiveFusionReactor.embedding_space_ r')
         = EmbeddingSpace.embeddings_ (CognitiveFusionReactor.embedding_space_ r)
             ++ [(name, TensorEmbedding.of_data embedding)] /\
       (forall e,
          EmbeddingSpace.getEmbedding name (CognitiveFusionReactor.embedding_space_ r) = Some e ->
          EmbeddingSpace.getEmbedding name (CognitiveFusionReactor.embedding_space_ r') = Some e)) /\
    (embedding = [] \/ length embedding <> CognitiveFusionReactor.embedding_dim_ r ->
       CognitiveFusionReactor.embedding_space_ r' = CognitiveFusionReactor.embedding_space_ r).
Proof.
  intros Hdim Hfirst Hnode.
  unfold CognitiveFusionReactor.addConcept.
  rewrite (addNode_reuses_first name embedding _ existing Hfirst Hnode). simpl.
  unfold EmbeddingSpace.addEmbedding, TensorEmbedding.dimensions. simpl. rewrite Hdim.
  destruct (Nat.eqb_spec (length embedding) 0) as [E0|E0];
    destruct (Nat.eqb_spec (length embedding) (CognitiveFusionReactor.embedding_dim_ r))
      as [Ed|Ed]; simpl;
    eexists; (split; [reflexivity|]); simpl;
    (split; [reflexivity|]);
    (split; [apply lookup_insert_eq|]);
    (split; [unfold CognitiveFusionReactor.getRelevance; simpl;
             rewrite lookup_insert_eq; reflexivity|]);
    (split; [apply lookup_insert_eq|]);
    (split; [unfold CognitiveFusionReactor.getAttention; simpl;
             rewrite lookup_insert_eq; reflexivity|]);
    (split; [intros h Hh; split; apply lookup_insert_ne; congruence|]).
  - split; [|reflexivity]. intros [Hne _]. destruct embedding; [congruence|discriminate].
  - split; [|reflexivity]. intros [_ Hlen]. contradiction.
  - split.
    + intros _. split; [reflexivity|]. intros e He.
      unfold EmbeddingSpace.getEmbedding in *. simpl.
      rewrite lookup_first_app, He. reflexivity.
    + intros [-> | Hne]; [simpl in E0; congruence|contradiction].
  - split; [|reflexivity]. intros [_ Hlen]. contradiction.
Qed.

(** The defect of [addNode] seen from the facade: in [shadowed] a Link of
    type "x" was added before the Node named "x" (handle 2);
    [addConcept("x")] then creates a further Node (handle 3) and leaves the
    relevance 0.9 and the sti 0.8 that the caller set for handle 2. *)
Lemma addConcept_behind_link :
  AtomSpace.getAtom 2 (CognitiveFusionReactor.atomspace_ shadowed)
    = Some (AtomSpace.Node 2 "x" AtomSpace.default_truth_value []) /\
  AtomSpace.name_index_ (CognitiveFusionReactor.atomspace_ shadowed) !! "x"
    = Some [1; 2]%N /\
  AtomSpace.getHandle <$> (fst <$> CognitiveFusionReactor.addConcept "x" [] shadowed) = Ok 3%N /\
  CognitiveFusionReactor.getRelevance 2
    (state_of (CognitiveFusionReactor.addConcept "x" [] shadowed) lab) = c0_9 /\
  CognitiveFusionReactor.getAttention 2
    (state_of (CognitiveFusionReactor.addConcept "x" [] shadowed) lab) = with_sti c0_8.
Proof. vm_compute. auto 10. Qed.

(** From here on the arithmetic stays folded under [simpl]. *)
#[global] Arguments F32.add : simpl never.
#[global] Arguments F32.sub : simpl never.
#[global] Arguments F32.mul : simpl never.
#[global] Arguments F32.div : simpl never.
#[global] Arguments F32.of_Z : simpl never.
#[global] Arguments F32.pow2 : simpl never.

(** ** Loops over vectors *)

Lemma at_ok {A} (v : list A) (i : nat) :
  i < length v -> exists x, at_ v i = Ok x /\ v !! i = Some x.
Proof.
  intros H. unfold at_. destruct (lookup_lt_is_Some_2 v i H) as [x Hx].
  rewrite Hx. eauto.
Qed.

Lemma at_no_throw {A} (v : list A) (i : nat) what : at_ v i <> Throw what.
Proof. unfold at_. destruct (v !! i); discriminate. Qed.

Lemma bind_ok {A B} (m : outcome A) (k : A -> outcome B) a :
  m = Ok a -> (m ≫= k) = k a.
Proof. intros ->. reflexivity. Qed.

Lemma bind_no_throw {A B} (m : outcome A) (k : A -> outcome B) :
  (forall what, m <> Throw what) -> (forall a what, k a <> Throw what) ->
  forall what, (m ≫= k) <> Throw what.
Proof.
  intros Hm Hk what. destruct m as [a|w|]; simpl.
  - apply Hk.
  - destruct (Hm w). reflexivity.
  - discriminate.
Qed.

Lemma for_loop_no_throw {A} (body : A -> nat -> outcome A) idx acc :
  (forall a i what, body a i <> Throw what) ->
  forall what, for_loop body idx acc <> Throw what.
Proof.
  intros Hbody. revert acc. induction idx as [|i idx IH]; intros acc what; simpl.
  - discriminate.
  - apply bind_no_throw; [intros w; apply Hbody|intros a w; apply IH].
Qed.

(** A loop whose body keeps an invariant and succeeds under it runs to its
    end. *)
Lemma for_loop_inv {A} (P : A -> Prop) (body : A -> nat -> outcome A) idx acc :
  P acc ->
  (forall a i, In i idx -> P a -> exists a', body a i = Ok a' /\ P a') ->
  exists a', for_loop body idx acc = Ok a' /\ P a'.
Proof.
  revert acc. induction idx as [|i idx IH]; intros acc Hacc Hbody; simpl.
  - eauto.
  - destruct (Hbody acc i (or_introl eq_refl) Hacc) as (a1 & -> & H1). simpl.
    apply IH; [exact H1|]. intros a j Hj. apply Hbody. right. exact Hj.
Qed.

(** ** Layers *)

Lemma preactivation_ok L input i :
  NeuralLayer.shaped L -> NeuralLayer.input_size_ L <= length input ->
  i < NeuralLayer.output_size_ L ->
  exists sum, NeuralLayer.preactivation L input i = Ok sum.
Proof.
  intros (Hw & Hrows & Hb) Hin Hi. unfold NeuralLayer.preactivation.
  destruct (at_ok (NeuralLayer.biases_ L) i ltac:(lia)) as (b & -> & _). simpl.
  destruct (at_ok (NeuralLayer.weights_ L) i ltac:(lia)) as (row & Hrow & Hlk).
  assert (Hlen : length row = NeuralLayer.input_size_ L).
  { rewrite List.Forall_forall in Hrows. apply Hrows.
    apply list_elem_of_In. eapply list_elem_of_lookup_2. exact Hlk. }
  destruct (for_loop_inv (fun _ => True)
              (fun sum j =>
                 row ← at_ (NeuralLayer.weights_ L) i;
                 w ← at_ row j;
                 x ← at_ input j;
                 mret (F32.add sum (F32.mul w x)))
              (seq 0 (NeuralLayer.input_size_ L)) b I) as (sum & Hsum & _).
  - intros a j Hj _. apply in_seq in Hj. rewrite Hrow. simpl.
    destruct (at_ok row j ltac:(lia)) as (w & -> & _). simpl.
    destruct (at_ok input j ltac:(lia)) as (x & -> & _). simpl. eauto.
  - eauto.
Qed.

Lemma preactivations_ok L input idx :
  NeuralLayer.shaped L -> NeuralLayer.input_size_ L <= length input ->
  (forall i, In i idx -> i < NeuralLayer.output_size_ L) ->
  exists pre, NeuralLayer.preactivations L input idx = Ok pre /\ length pre = length idx.
Proof.
  intros HL Hin. induction idx as [|i idx IH]; intros Hidx; simpl.
  - exists []. auto.
  - destruct (preactivation_ok L input i HL Hin (Hidx i (or_introl eq_refl))) as [sum ->].
    simpl. destruct IH as (pre & -> & Hlen); [intros j Hj; apply Hidx; right; exact Hj|].
    simpl. exists (sum :: pre). simpl. auto.
Qed.

Lemma forward_ok input L :
  NeuralLayer.shaped L -> NeuralLayer.input_size_ L <= length input ->
  exists out L',
    NeuralLayer.forward input L = Ok (out, L') /\
    length out = NeuralLayer.output_size_ L /\
    NeuralLayer.shaped L' /\ cached L' /\ same_sizes L L'.
Proof.
  intros HL Hin. unfold NeuralLayer.forward.
  destruct (preactivations_ok L input (seq 0 (NeuralLayer.output_size_ L)) HL Hin)
    as (pre & -> & Hlen).
  { intros i Hi. apply in_seq in Hi. lia. }
  rewrite length_seq in Hlen. simpl. do 2 eexists. split; [reflexivity|].
  split; [rewrite length_map; exact Hlen|].
  split; [exact HL|]. split; [|split; reflexivity].
  split; simpl; [exact Hin|exact Hlen].
Qed.

Lemma preact_gradients_ok L output_gradient idx :
  (forall i, In i idx ->
     i < length output_gradient /\ i < length (NeuralLayer.last_preactivation_ L)) ->
  exists gs, NeuralLayer.preact_gradients L output_gradient idx = Ok gs /\
             length gs = length idx.
Proof.
  induction idx as [|i idx IH]; intros Hidx; simpl.
  - exists []. auto.
  - destruct (Hidx i (or_introl eq_refl)) as [H1 H2].
    destruct (at_ok output_gradient i H1) as (g & -> & _). simpl.
    destruct (at_ok (NeuralLayer.last_preactivation_ L) i H2) as (p & -> & _). simpl.
    destruct IH as (gs & -> & Hlen); [intros j Hj; apply Hidx; right; exact Hj|].
    simpl. eexists. split; [reflexivity|]. simpl. auto.
Qed.

Lemma backward_row_ok L learning_rate pg i st j :
  cached L -> i < NeuralLayer.output_size_ L -> j < NeuralLayer.input_size_ L ->
  backward_shape L (fst st) (snd st) ->
  exists st', NeuralLayer.backward_row L learning_rate pg i st j = Ok st' /\
              backward_shape L (fst st') (snd st').
Proof.
  intros [Hc _] Hi Hj. destruct st as [ig W]. simpl. intros (Hig & HW & Hrows).
  unfold NeuralLayer.backward_row.
  destruct (at_ok W i ltac:(lia)) as (row & -> & Hlk). simpl.
  assert (Hlen : length row = NeuralLayer.input_size_ L).
  { rewrite List.Forall_forall in Hrows. apply Hrows.
    apply list_elem_of_In. eapply list_elem_of_lookup_2. exact Hlk. }
  destruct (at_ok row j ltac:(lia)) as (w & -> & _). simpl.
  destruct (at_ok ig j ltac:(lia)) as (g & -> & _). simpl.
  destruct (at_ok (NeuralLayer.last_input_ L) j ltac:(lia)) as (x & -> & _). simpl.
  eexists. split; [reflexivity|]. simpl. repeat split.
  - rewrite length_insert. exact Hig.
  - rewrite length_insert. exact HW.
  - apply Forall_insert; [exact Hrows|]. rewrite length_insert. exact Hlen.
Qed.

Lemma backward_unit_ok L learning_rate preact_gradient st i :
  cached L -> i < NeuralLayer.output_size_ L -> i < length preact_gradient ->
  backward_shape L (fst (fst st)) (snd (fst st)) ->
  length (snd st) = NeuralLayer.output_size_ L ->
  exists st', NeuralLayer.backward_unit L learning_rate preact_gradient st i = Ok st' /\
              backward_shape L (fst (fst st')) (snd (fst st')) /\
              length (snd st') = NeuralLayer.output_size_ L.
Proof.
  intros Hc Hi Hpg. destruct st as [[ig W] B]. simpl. intros Hshape HB.
  unfold NeuralLayer.backward_unit.
  destruct (at_ok preact_gradient i Hpg) as (pg & -> & _). simpl.
  destruct (for_loop_inv (fun st => backward_shape L (fst st) (snd st))
              (NeuralLayer.backward_row L learning_rate pg i)
              (seq 0 (NeuralLayer.input_size_ L)) (ig, W) Hshape)
    as ([ig' W'] & -> & Hshape').
  { intros st j Hj Hst. apply in_seq in Hj. apply backward_row_ok; auto. lia. }
  simpl. destruct (at_ok B i ltac:(lia)) as (b & -> & _). simpl.
  eexists. split; [reflexivity|]. simpl. split; [exact Hshape'|].
  rewrite length_insert. exact HB.
Qed.

Lemma backward_ok output_gradient learning_rate L :
  NeuralLayer.shaped L -> cached L ->
  NeuralLayer.output_size_ L <= length output_gradient ->
  exists input_gradient L',
    NeuralLayer.backward output_gradient learning_rate L = Ok (input_gradient, L') /\
    length input_gradient = NeuralLayer.input_size_ L /\
    NeuralLayer.shaped L' /\ cached L' /\ same_sizes L L'.
Proof.
  intros (Hw & Hrows & Hb) Hc Hog. unfold NeuralLayer.backward.
  destruct (preact_gradients_ok L output_gradient (seq 0 (NeuralLayer.output_size_ L)))
    as (gs & -> & Hgs).
  { intros i Hi. apply in_seq in Hi. destruct Hc as [_ Hp]. lia. }
  rewrite length_seq in Hgs. simpl.
  destruct (for_loop_inv
              (fun st => backward_shape L (fst (fst st)) (snd (fst st)) /\
                         length (snd st) = NeuralLayer.output_size_ L)
              (NeuralLayer.backward_unit L learning_rate gs)
              (seq 0 (NeuralLayer.output_size_ L))
              (replicate (NeuralLayer.input_size_ L) F32.zero,
               NeuralLayer.weights_ L, NeuralLayer.biases_ L))
    as ([[ig W] B] & -> & (Hig & HW & HWrows) & HB).
  - simpl. split; [|exact Hb]. split; [apply length_replicate|]. split; assumption.
  - intros st i Hi [Hst HB]. apply in_seq in Hi.
    apply backward_unit_ok; auto; lia.
  - simpl in *. do 2 eexists. split; [reflexivity|]. split; [exact Hig|].
    split; [repeat split; assumption|]. split; [exact Hc|split; reflexivity].
Qed.

(** ** The network *)

Lemma Forall2_rev {A B} (P : A -> B -> Prop) l k :
  Forall2 P l k -> Forall2 P (rev l) (rev k).
Proof.
  induction 1 as [|x y l k Hxy _ IH]; simpl; [constructor|].
  apply Forall2_app; [exact IH|]. constructor; [exact Hxy|constructor].
Qed.

Lemma chained_same_sizes n layers layers' :
  chained n layers -> Forall2 same_sizes layers layers' ->
  Forall NeuralLayer.shaped layers' ->
  chained n layers' /\ final_size n layers' = final_size n layers.
Proof.
  intros Hc Hs. revert n Hc.
  induction Hs as [|L L' layers layers' [Hi Ho] _ IH]; intros n Hc Hsh; simpl in *.
  - auto.
  - destruct Hc as (_ & Hn & Hc). inversion Hsh as [|? ? HL' Hsh']; subst.
    rewrite Ho. destruct (IH _ Hc Hsh') as [IH1 IH2].
    split; [|exact IH2]. split; [exact HL'|]. split; [congruence|exact IH1].
Qed.

Lemma forward_layers_ok n input layers :
  chained n layers -> n <= length input ->
  exists out layers',
    LearnableNetwork.forward_layers input layers = Ok (out, layers') /\
    length out = match layers with [] => length input | _ :: _ => final_size n layers end /\
    Forall2 same_sizes layers layers' /\
    Forall NeuralLayer.shaped layers' /\ Forall cached layers'.
Proof.
  revert n input. induction layers as [|L rest IH]; intros n input Hc Hin; simpl.
  - exists input, []. repeat split; constructor.
  - destruct Hc as (HL & Hn & Hc).
    destruct (forward_ok input L HL ltac:(lia)) as (out1 & L' & -> & Hlen1 & HL' & Hc' & Hs).
    simpl.
    destruct (IH (NeuralLayer.output_size_ L) out1 Hc ltac:(lia))
      as (out & rest' & -> & Hlen & Hs2 & Hsh & Hca).
    simpl. exists out, (L' :: rest'). split; [reflexivity|].
    split; [|repeat split; constructor; assumption].
    rewrite Hlen. destruct rest; simpl; [exact Hlen1|reflexivity].
Qed.

Lemma rchained_snoc m visited L :
  rchained m visited -> rfinal m visited = NeuralLayer.output_size_ L ->
  NeuralLayer.shaped L -> cached L ->
  rchained m (visited ++ [L]) /\ rfinal m (visited ++ [L]) = NeuralLayer.input_size_ L.
Proof.
  revert m. induction visited as [|V visited IH]; intros m Hr Hf HL Hc; simpl in *.
  - auto.
  - destruct Hr as (HV & HcV & Hm & Hr).
    destruct (IH _ Hr Hf HL Hc) as [IH1 IH2]. auto.
Qed.

Lemma rchained_rev n layers :
  chained n layers -> Forall cached layers ->
  rchained (final_size n layers) (rev layers) /\ rfinal (final_size n layers) (rev layers) = n.
Proof.
  revert n. induction layers as [|L rest IH]; intros n Hc Hca; simpl in *.
  - auto.
  - destruct Hc as (HL & Hn & Hc). inversion Hca as [|? ? HcL Hca']; subst.
    destruct (IH _ Hc Hca') as [IH1 IH2].
    apply rchained_snoc; assumption.
Qed.

Lemma backward_layers_ok learning_rate m gradient visited :
  rchained m visited -> m <= length gradient ->
  exists visited',
    LearnableNetwork.backward_layers learning_rate gradient visited = Ok visited' /\
    Forall2 same_sizes visited visited' /\ Forall NeuralLayer.shaped visited'.
Proof.
  revert m gradient. induction visited as [|L rest IH]; intros m gradient Hr Hg; simpl.
  - exists []. repeat split; constructor.
  - destruct Hr as (HL & Hc & Hm & Hr).
    destruct (backward_ok gradient learning_rate L HL Hc ltac:(lia))
      as (ig & L' & -> & Hig & HL' & _ & Hs).
    simpl. destruct (IH _ ig Hr ltac:(lia)) as (rest' & -> & Hs2 & Hsh).
    simpl. exists (L' :: rest'). repeat split; constructor; assumption.
Qed.

Lemma network_backward_ok n gradient net :
  chained n (LearnableNetwork.layers_ net) -> Forall cached (LearnableNetwork.layers_ net) ->
  final_size n (LearnableNetwork.layers_ net) <= length gradient ->
  exists net',
    LearnableNetwork.backward gradient net = Ok net' /\
    Forall2 same_sizes (LearnableNetwork.layers_ net) (LearnableNetwork.layers_ net') /\
    Forall NeuralLayer.shaped (LearnableNetwork.layers_ net').
Proof.
  intros Hc Hca Hg. unfold LearnableNetwork.backward.
  destruct (rchained_rev n _ Hc Hca) as [Hr _].
  destruct (backward_layers_ok (LearnableNetwork.learning_rate_ net) _ gradient _ Hr Hg)
    as (visited' & -> & Hs & Hsh).
  simpl. eexists. split; [reflexivity|]. simpl. split.
  - rewrite <- (rev_involutive (LearnableNetwork.layers_ net)). apply Forall2_rev. exact Hs.
  - apply List.Forall_rev. exact Hsh.
Qed.

Lemma errors_ok output target i :
  i + length output <= length target ->
  exists es, LearnableNetwork.errors output target i = Ok es /\ length es = length output.
Proof.
  revert i. induction output as [|o output IH]; intros i Hlen; simpl in *.
  - exists []. auto.
  - destruct (at_ok target i ltac:(lia)) as (t & -> & _). simpl.
    destruct (IH (S i) ltac:(lia)) as (es & -> & Hes). simpl.
    eexists. split; [reflexivity|]. simpl. auto.
Qed.

(** [train] returns normally on a network of chained layers as soon as the
    input has at least as many components as the first layer reads and the
    target at least as many as the last layer writes. *)
Lemma train_ok n input target net :
  LearnableNetwork.layers_ net <> [] ->
  chained n (LearnableNetwork.layers_ net) -> n <= length input ->
  final_size n (LearnableNetwork.layers_ net) <= length target ->
  exists loss net',
    LearnableNetwork.train input target net = Ok (loss, net') /\
    chained n (LearnableNetwork.layers_ net') /\
    final_size n (LearnableNetwork.layers_ net') = final_size n (LearnableNetwork.layers_ net) /\
    LearnableNetwork.layers_ net' <> [].
Proof.
  intros Hne Hc Hin Ht. unfold LearnableNetwork.train, LearnableNetwork.forward.
  destruct (forward_layers_ok n input _ Hc Hin) as (out & layers1 & -> & Hout & Hs1 & Hsh1 & Hca1).
  simpl.
  assert (Hout' : length out = final_size n (LearnableNetwork.layers_ net))
    by (destruct (LearnableNetwork.layers_ net); [congruence|exact Hout]).
  destruct (errors_ok out target 0 ltac:(simpl; lia)) as (es & -> & Hes). simpl.
  destruct (chained_same_sizes n _ _ Hc Hs1 Hsh1) as [Hc1 Hf1].
  destruct (network_backward_ok n
              (map (fun error => F32.div (F32.mul F32.two error)
                                   (F32.of_Z (Z.of_nat (length out)))) es)
              {| LearnableNetwork.layers_ := layers1;
                 LearnableNetwork.learning_rate_ := LearnableNetwork.learning_rate_ net |}
              Hc1 Hca1) as (net2 & -> & Hs2 & Hsh2).
  { simpl. rewrite length_map. lia. }
  simpl in *. do 2 eexists. split; [reflexivity|].
  destruct (chained_same_sizes n _ _ Hc1 Hs2 Hsh2) as [Hc2 Hf2].
  split; [exact Hc2|]. split; [congruence|].
  apply Forall2_length in Hs1, Hs2. intros E. rewrite E in Hs2. simpl in Hs2.
  destruct (LearnableNetwork.layers_ net); [congruence|].
  destruct layers1; simpl in *; discriminate.
Qed.

(** ** No code of the network throws *)

Ltac no_throw_step :=
  first
    [ apply at_no_throw
    | discriminate
    | apply bind_no_throw; [intros ?|intros ? ?]
    | apply for_loop_no_throw; intros ? ? ?
    | match goal with
      | |- (let '(_, _) := ?x in _) <> Throw _ => destruct x; simpl
      | |- (match ?x with _ => _ end) <> Throw _ => destruct x; simpl
      end ].

Ltac no_throw := simpl; repeat no_throw_step.

Lemma preactivations_no_throw L input idx what :
  NeuralLayer.preactivations L input idx <> Throw what.
Proof.
  revert what. induction idx as [|i idx IH]; intros what; simpl; [discriminate|].
  apply bind_no_throw; [intros w|intros sum w].
  - unfold NeuralLayer.preactivation. no_throw.
  - apply bind_no_throw; [exact IH|intros sums w']. discriminate.
Qed.

Lemma forward_no_throw input L what : NeuralLayer.forward input L <> Throw what.
Proof.
  unfold NeuralLayer.forward.
  apply bind_no_throw; [intros w; apply preactivations_no_throw|intros pre w].
  discriminate.
Qed.

Lemma preact_gradients_no_throw L output_gradient idx what :
  NeuralLayer.preact_gradients L output_gradient idx <> Throw what.
Proof.
  revert what. induction idx as [|i idx IH]; intros what; simpl; [discriminate|].
  apply bind_no_throw; [intros w; apply at_no_throw|intros g w].
  apply bind_no_throw; [intros w'; apply at_no_throw|intros p w'].
  apply bind_no_throw; [exact IH|intros gs w'']. discriminate.
Qed.

Lemma backward_no_throw output_gradient learning_rate L what :
  NeuralLayer.backward output_gradient learning_rate L <> Throw what.
Proof.
  unfold NeuralLayer.backward.
  apply bind_no_throw; [intros w; apply preact_gradients_no_throw|intros gs w].
  apply bind_no_throw; [intros w'|intros [[ig W] B] w'; discriminate].
  apply for_loop_no_throw. intros [[ig W] B] i w''.
  unfold NeuralLayer.backward_unit.
  apply bind_no_throw; [intros w3; apply at_no_throw|intros pg w3].
  apply bind_no_throw; [intros w4|intros [ig' W'] w4].
  - apply for_loop_no_throw. intros [ig1 W1] j w5.
    unfold NeuralLayer.backward_row. no_throw.
  - apply bind_no_throw; [intros w5; apply at_no_throw|intros b w5]. discriminate.
Qed.

Lemma forward_layers_no_throw input layers what :
  LearnableNetwork.forward_layers input layers <> Throw what.
Proof.
  revert input what. induction layers as [|L rest IH]; intros input what; simpl;
    [discriminate|].
  apply bind_no_throw; [intros w; apply forward_no_throw|intros [out L'] w].
  apply bind_no_throw; [intros w'; apply IH|intros [final rest'] w']. discriminate.
Qed.

Lemma backward_layers_no_throw learning_rate gradient visited what :
  LearnableNetwork.backward_layers learning_rate gradient visited <> Throw what.
Proof.
  revert gradient what. induction visited as [|L rest IH]; intros gradient what; simpl;
    [discriminate|].
  apply bind_no_throw; [intros w; apply backward_no_throw|intros [g L'] w].
  apply bind_no_throw; [intros w'; apply IH|intros rest' w']. discriminate.
Qed.

Lemma errors_no_throw output target i what :
  LearnableNetwork.errors output target i <> Throw what.
Proof.
  revert i what. induction output as [|o output IH]; intros i what; simpl;
    [discriminate|].
  apply bind_no_throw; [intros w; apply at_no_throw|intros t w].
  apply bind_no_throw; [intros w'; apply IH|intros es w']. discriminate.
Qed.

Lemma train_no_throw input target net what :
  LearnableNetwork.train input target net <> Throw what.
Proof.
  unfold LearnableNetwork.train, LearnableNetwork.forward, LearnableNetwork.backward.
  apply bind_no_throw; [intros w|intros [output net1] w].
  - apply bind_no_throw; [intros w'; apply forward_layers_no_throw|intros [out layers] w'].
    discriminate.
  - apply bind_no_throw; [intros w'; apply errors_no_throw|intros es w'].
    apply bind_no_throw; [intros w''|intros net2 w'']; [|discriminate].
    apply bind_no_throw; [intros w3; apply backward_layers_no_throw|intros visited w3].
    discriminate.
Qed.

(** ** The embedding learner *)

Lemma transform_mismatch input l :
  TensorEmbedding.dimensions input <> EmbeddingLearner.embedding_dim_ l ->
  EmbeddingLearner.transform input l = Throw "Input dimension mismatch".
Proof.
  intros H. unfold EmbeddingLearner.transform.
  destruct (Nat.eqb_spec (TensorEmbedding.dimensions input) (EmbeddingLearner.embedding_dim_ l));
    [contradiction|reflexivity].
Qed.

Lemma transform_ok input l :
  learner_shaped l ->
  TensorEmbedding.dimensions input = EmbeddingLearner.embedding_dim_ l ->
  exists out l',
    EmbeddingLearner.transform input l = Ok (out, l') /\
    TensorEmbedding.dimensions out = EmbeddingLearner.embedding_dim_ l /\
    learner_shaped l' /\
    EmbeddingLearner.embedding_dim_ l' = EmbeddingLearner.embedding_dim_ l.
Proof.
  intros (Hne & Hc & Hf) Hdim. unfold EmbeddingLearner.transform, LearnableNetwork.forward.
  rewrite Hdim, Nat.eqb_refl. simpl.
  destruct (forward_layers_ok _ (TensorEmbedding.data_ input) _ Hc)
    as (out & layers' & -> & Hout & Hs & Hsh & _).
  { unfold TensorEmbedding.dimensions in Hdim. lia. }
  simpl. do 2 eexists. split; [reflexivity|].
  destruct (chained_same_sizes _ _ _ Hc Hs Hsh) as [Hc' Hf'].
  split; [|split; [|reflexivity]].
  - unfold TensorEmbedding.dimensions. simpl. rewrite Hout.
    destruct (LearnableNetwork.layers_ (EmbeddingLearner.network_ l)); [congruence|exact Hf].
  - unfold learner_shaped. simpl. split; [|split; [exact Hc'|congruence]].
    apply Forall2_length in Hs. intros ->.
    destruct (LearnableNetwork.layers_ (EmbeddingLearner.network_ l)); [congruence|discriminate].
Qed.

(** The loss that [learnFromSimilarity] returns is the square of the
    difference between the similarity of the two transforms, taken on the
    learner as it stands at the call, and the target. *)
Lemma learnFromSimilarity_loss embedding1 embedding2 target l loss l' :
  EmbeddingLearner.learnFromSimilarity embedding1 embedding2 target l = Ok (loss, l') ->
  exists current,
    EmbeddingLearner.current_similarity embedding1 embedding2 l = Ok current /\
    loss = F32.pow2 (F32.sub current target).
Proof.
  unfold EmbeddingLearner.learnFromSimilarity, EmbeddingLearner.current_similarity.
  destruct (EmbeddingLearner.transform embedding1 l) as [[t1 l1]| |]; simpl; try discriminate.
  destruct (EmbeddingLearner.transform embedding2 l1) as [[t2 l2]| |]; simpl; try discriminate.
  destruct (for_loop _ _ _) as [target1| |]; simpl; try discriminate.
  destruct (LearnableNetwork.train _ _ _) as [[tl net]| |]; simpl; try discriminate.
  intros [= <- <-]. eexists. split; reflexivity.
Qed.

Lemma learnFromSimilarity_ok embedding1 embedding2 target l :
  learner_shaped l ->
  TensorEmbedding.dimensions embedding1 = EmbeddingLearner.embedding_dim_ l ->
  TensorEmbedding.dimensions embedding2 = EmbeddingLearner.embedding_dim_ l ->
  exists loss l',
    EmbeddingLearner.learnFromSimilarity embedding1 embedding2 target l = Ok (loss, l') /\
    learner_shaped l' /\
    EmbeddingLearner.embedding_dim_ l' = EmbeddingLearner.embedding_dim_ l.
Proof.
  intros Hl H1 H2. unfold EmbeddingLearner.learnFromSimilarity.
  destruct (transform_ok embedding1 l Hl H1) as (t1 & l1 & -> & Ht1 & Hl1 & Hd1). simpl.
  destruct (transform_ok embedding2 l1 Hl1 ltac:(congruence))
    as (t2 & l2 & -> & Ht2 & (Hne & Hc & Hf) & Hd2).
  simpl.
  set (adjustment := F32.mul _ F32.c0_1).
  destruct (for_loop_inv
              (fun tgt : list f32 => length tgt = EmbeddingLearner.embedding_dim_ l)
              (EmbeddingLearner.nudge adjustment t1 t2)
              (seq 0 (EmbeddingLearner.embedding_dim_ l))
              (TensorEmbedding.data_ embedding1) H1)
    as (target1 & -> & Htgt).
  { intros tgt i Hi Hlen. apply in_seq in Hi.
    unfold EmbeddingLearner.nudge, TensorEmbedding.get, TensorEmbedding.dimensions in *.
    destruct (at_ok (TensorEmbedding.data_ t2) i ltac:(lia)) as (x2 & -> & _). simpl.
    destruct (at_ok (TensorEmbedding.data_ t1) i ltac:(lia)) as (x1 & -> & _). simpl.
    destruct (at_ok tgt i ltac:(lia)) as (x & -> & _). simpl.
    eexists. split; [reflexivity|]. rewrite length_insert. exact Hlen. }
  simpl.
  destruct (train_ok (EmbeddingLearner.embedding_dim_ l2) (TensorEmbedding.data_ embedding1)
              target1 (EmbeddingLearner.network_ l2) Hne Hc)
    as (tl & net & -> & Hc' & Hf' & Hne').
  { unfold TensorEmbedding.dimensions in H1. lia. }
  { lia. }
  simpl. do 2 eexists. split; [reflexivity|]. split; [|reflexivity].
  unfold learner_shaped. simpl. rewrite <- Hd1, <- Hd2.
  split; [exact Hne'|]. split; [exact Hc'|]. congruence.
Qed.

Lemma lookup_first_In id l e :
  EmbeddingSpace.lookup_first id l = Some e -> In (id, e) l.
Proof.
  induction l as [|[emb_id e'] l IH]; simpl; [discriminate|].
  destruct (String.eqb_spec emb_id id) as [->|Hne].
  - intros [= ->]. left. reflexivity.
  - intros H. right. apply IH. exact H.
Qed.

(** ** The facade keeps one dimension *)

Lemma make_consistent embedding_dim learning_rate drawn1 drawn2 :
  length drawn1 = embedding_dim * 2 ->
  Forall (fun row => length row = embedding_dim) drawn1 ->
  length drawn2 = embedding_dim ->
  Forall (fun row => length row = embedding_dim * 2) drawn2 ->
  consistent (CognitiveFusionReactor.make embedding_dim learning_rate drawn1 drawn2).
Proof.
  intros H1 H1' H2 H2'. unfold consistent. simpl.
  split; [reflexivity|]. split; [reflexivity|]. split; [constructor|].
  unfold learner_shaped. simpl. split; [discriminate|]. split; [|reflexivity].
  unfold NeuralLayer.shaped. simpl. rewrite !length_replicate. auto 10.
Qed.

Lemma addConcept_consistent name embedding r node r' :
  consistent r -> CognitiveFusionReactor.addConcept name embedding r = Ok (node, r') ->
  consistent r'.
Proof.
  intros (Hd & Hl & Hu & Hs). unfold CognitiveFusionReactor.addConcept.
  destruct (AtomSpace.addNode name embedding _) as [[n store]| |]; simpl; try discriminate.
  destruct (negb (length embedding =? 0)%nat &&
            (length embedding =? CognitiveFusionReactor.embedding_dim_ r)%nat) eqn:E.
  - destruct (EmbeddingSpace.addEmbedding name _ _) as [space| |] eqn:Ea; simpl;
      try discriminate.
    intros [= <- <-]. destruct (uniform_addEmbedding _ _ _ _ Hu Ea) as [Hd' Hu'].
    unfold consistent. simpl. split; [congruence|]. auto.
  - simpl. intros [= <- <-]. unfold consistent. simpl. auto.
Qed.

(** ** Inputs shorter than the first layer reads *)

Lemma for_loop_undefined {A} (body : A -> nat -> outcome A) before k after acc :
  (forall a i, In i before -> exists a', body a i = Ok a') ->
  (forall a, body a k = Undefined) ->
  for_loop body (before ++ k :: after) acc = Undefined.
Proof.
  intros Hbefore Hk. revert acc.
  induction before as [|i before IH]; intros acc; simpl.
  - rewrite Hk. reflexivity.
  - destruct (Hbefore acc i (or_introl eq_refl)) as [a' ->]. simpl.
    apply IH. intros a j Hj. apply Hbefore. right. exact Hj.
Qed.

Lemma seq_split k n : k < n -> seq 0 n = seq 0 k ++ k :: seq (S k) (n - S k).
Proof.
  intros H. replace n with (k + S (n - S k)) at 1 by lia.
  rewrite seq_app. reflexivity.
Qed.

Lemma forward_short_input input L :
  NeuralLayer.shaped L -> 0 < NeuralLayer.output_size_ L ->
  length input < NeuralLayer.input_size_ L ->
  NeuralLayer.forward input L = Undefined.
Proof.
  intros (Hw & Hrows & Hb) Hout Hin. unfold NeuralLayer.forward.
  destruct (NeuralLayer.output_size_ L) as [|m] eqn:Eo; [lia|]. simpl.
  unfold NeuralLayer.preactivation.
  destruct (at_ok (NeuralLayer.biases_ L) 0 ltac:(lia)) as (b & -> & _). simpl.
  destruct (at_ok (NeuralLayer.weights_ L) 0 ltac:(lia)) as (row & Hrow & Hlk).
  assert (Hlen : length row = NeuralLayer.input_size_ L).
  { rewrite List.Forall_forall in Hrows. apply Hrows.
    apply list_elem_of_In. eapply list_elem_of_lookup_2. exact Hlk. }
  rewrite (seq_split (length input) (NeuralLayer.input_size_ L) Hin).
  rewrite for_loop_undefined; [reflexivity| |].
  - intros a j Hj. apply in_seq in Hj. rewrite Hrow. simpl.
    destruct (at_ok row j ltac:(lia)) as (w & -> & _). simpl.
    destruct (at_ok input j ltac:(lia)) as (x & -> & _). simpl. eauto.
  - intros a. rewrite Hrow. simpl.
    destruct (at_ok row (length input) ltac:(lia)) as (w & -> & _). simpl.
    unfold at_. rewrite (proj2 (lookup_ge_None input (length input)) (le_n _)).
    reflexivity.
Qed.

Lemma train_short_input n input target net L rest :
  LearnableNetwork.layers_ net = L :: rest -> chained n (LearnableNetwork.layers_ net) ->
  0 < NeuralLayer.output_size_ L -> length input < n ->
  LearnableNetwork.train input target net = Undefined.
Proof.
  intros Hl Hc Hout Hin. rewrite Hl in Hc. destruct Hc as (HL & Hn & _).
  unfold LearnableNetwork.train, LearnableNetwork.forward. rewrite Hl. simpl.
  rewrite (forward_short_input input L HL Hout ltac:(lia)). reflexivity.
Qed.

(** ** C2: dimension checks of the learner and of the network *)

(** C2 (as amended). [EmbeddingLearner::transform] throws the
    dimension-mismatch error on every input whose length differs from the
    configured dimension. [LearnableNetwork::train] has no such check and
    never throws: on a network of chained layers whose first layer reads
    [n] components, an input with more than [n] components (and a target
    that covers the output) makes it return a loss normally, and an input
    with fewer than [n] components is read past its end, which is undefined
    behaviour and no error. *)
Theorem transform_checks_train_does_not (l : EmbeddingLearner.t)
    (net : LearnableNetwork.t) (n : nat) (input target : list f32) :
  (length input <> EmbeddingLearner.embedding_dim_ l ->
   EmbeddingLearner.transform (TensorEmbedding.of_data input) l
   = Throw "Input dimension mismatch") /\
  (forall what, LearnableNetwork.train input target net <> Throw what) /\
  (LearnableNetwork.layers_ net <> [] -> chained n (LearnableNetwork.layers_ net) ->
   n < length input -> final_size n (LearnableNetwork.layers_ net) <= length target ->
   is_Ok (LearnableNetwork.train input target net)) /\
  (forall L rest,
     LearnableNetwork.layers_ net = L :: rest -> chained n (LearnableNetwork.layers_ net) ->
     0 < NeuralLayer.output_size_ L -> length input < n ->
     LearnableNetwork.train input target net = Undefined).
Proof.
  split; [|split; [|split]].
  - intros H. apply transform_mismatch. exact H.
  - intros what. apply train_no_throw.
  - intros Hne Hc Hn Ht.
    destruct (train_ok n input target net Hne Hc ltac:(lia) Ht) as (loss & net' & -> & _).
    eexists. reflexivity.
  - intros L rest. apply train_short_input.
Qed.

(** Instance of C2: the learner of [lab], of dimension 1, on an input of
    two components. *)
Lemma transform_checks_train_does_not_witness :
  chained 1 (LearnableNetwork.layers_
               (EmbeddingLearner.network_ (CognitiveFusionReactor.learner_ lab))) /\
  EmbeddingLearner.transform (TensorEmbedding.of_data [F32.one; F32.one])
    (CognitiveFusionReactor.learner_ lab) = Throw "Input dimension mismatch" /\
  is_Ok (LearnableNetwork.train [F32.one; F32.one] [F32.zero]
           (EmbeddingLearner.network_ (CognitiveFusionReactor.learner_ lab))) /\
  LearnableNetwork.train [] [F32.zero]
    (EmbeddingLearner.network_ (CognitiveFusionReactor.learner_ lab)) = Undefined.
Proof.
  assert (Hc : chained 1 (LearnableNetwork.layers_
                 (EmbeddingLearner.network_ (CognitiveFusionReactor.learner_ lab)))).
  { simpl. unfold NeuralLayer.shaped. simpl. auto 20. }
  split; [exact Hc|].
  pose proof (transform_checks_train_does_not (CognitiveFusionReactor.learner_ lab)
                (EmbeddingLearner.network_ (CognitiveFusionReactor.learner_ lab)) 1
                [F32.one; F32.one] [F32.zero]) as (Ht & _ & Hok & _).
  pose proof (transform_checks_train_does_not (CognitiveFusionReactor.learner_ lab)
                (EmbeddingLearner.network_ (CognitiveFusionReactor.learner_ lab)) 1
                [] [F32.zero]) as (_ & _ & _ & Hshort).
  split; [apply Ht; discriminate|]. split.
  - apply Hok; [discriminate|exact Hc|simpl; lia|simpl; lia].
  - eapply Hshort; [reflexivity|exact Hc|simpl; lia|simpl; lia].
Defined.

(** C2 as stated fails for [train]: on the network of [lab], configured
    for inputs of length 1, an input of length 2 raises no error; [train]
    returns the loss it computes from the first component alone. *)
Lemma train_accepts_longer_input :
  NeuralLayer.input_size_ <$>
    head (LearnableNetwork.layers_ (EmbeddingLearner.network_ (CognitiveFusionReactor.learner_ lab)))
    = Some 1 /\
  fst <$> LearnableNetwork.train [F32.one; F32.one] [F32.zero]
            (EmbeddingLearner.network_ (CognitiveFusionReactor.learner_ lab))
    = Ok (S754_finite false 9073118 (-25)) /\
  fst <$> LearnableNetwork.train [F32.one] [F32.zero]
            (EmbeddingLearner.network_ (CognitiveFusionReactor.learner_ lab))
    = Ok (S754_finite false 9073118 (-25)).
Proof. vm_compute. auto. Qed.

Lemma state_of_addConcept_consistent name embedding r otherwise :
  consistent r -> consistent otherwise ->
  consistent (state_of (CognitiveFusionReactor.addConcept name embedding r) otherwise).
Proof.
  intros Hr Ho.
  destruct (CognitiveFusionReactor.addConcept name embedding r) as [[node r']| |] eqn:E;
    simpl; try exact Ho.
  exact (addConcept_consistent _ _ _ _ _ Hr E).
Qed.

(** ** C5: the loss of [learnSimilarity] and its sentinel *)

Lemma square_loss x :
  F32.pow2 x <> F32.minus_one /\
  (F32.is_nan x = false -> F32.geb (F32.pow2 x) F32.zero = true) /\
  (F32.is_nan x = true -> F32.pow2 x = S754_nan).
Proof.
  unfold F32.pow2. destruct (F32.is_nan x) eqn:E.
  - destruct x; try discriminate. repeat split; try discriminate; reflexivity.
  - pose proof (mul_self_nonneg x E) as H. split; [|split].
    + intros Heq. rewrite Heq in H. discriminate.
    + intros _. exact H.
    + discriminate.
Qed.

(** C5 (as amended). [learnSimilarity(name1, name2, target)] returns exactly
    -1.0 and leaves the whole facade, the network included, as it is when
    either name has no embedding in the Embedding Space. When both names are
    present it hands the two first-stored embeddings to
    [learnFromSimilarity]; the loss it returns is the binary32 square of
    (currentSimilarity - target), with the similarity taken on the learner
    as it stands before any weight update; that loss is never the sentinel,
    it is >= 0 whenever the difference is not NaN, and it is NaN otherwise
    (as for a NaN target). On a facade that keeps one dimension the call
    returns normally. *)
Theorem learnSimilarity_sentinel_and_loss (concept1 concept2 : string)
    (target_similarity : f32) (r : CognitiveFusionReactor.t) :
  (EmbeddingSpace.getEmbedding concept1 (CognitiveFusionReactor.embedding_space_ r) = None \/
   EmbeddingSpace.getEmbedding concept2 (CognitiveFusionReactor.embedding_space_ r) = None ->
   CognitiveFusionReactor.learnSimilarity concept1 concept2 target_similarity r
   = Ok (F32.minus_one, r)) /\
  (forall emb1 emb2,
     EmbeddingSpace.getEmbedding concept1 (CognitiveFusionReactor.embedding_space_ r)
       = Some emb1 ->
     EmbeddingSpace.getEmbedding concept2 (CognitiveFusionReactor.embedding_space_ r)
       = Some emb2 ->
     CognitiveFusionReactor.learnSimilarity concept1 concept2 target_similarity r
     = (EmbeddingLearner.learnFromSimilarity emb1 emb2 target_similarity
          (CognitiveFusionReactor.learner_ r)
        ≫= fun '(loss, l) => Ok (loss, CognitiveFusionReactor.with_learner l r)) /\
     (forall loss r',
        CognitiveFusionReactor.learnSimilarity concept1 concept2 target_similarity r
          = Ok (loss, r') ->
        exists current,
          EmbeddingLearner.current_similarity emb1 emb2 (CognitiveFusionReactor.learner_ r)
            = Ok current /\
          loss = F32.pow2 (F32.sub current target_similarity) /\
          loss <> F32.minus_one /\
          (F32.is_nan (F32.sub current target_similarity) = false ->
           F32.geb loss F32.zero = true) /\
          (F32.is_nan (F32.sub current target_similarity) = true -> loss = S754_nan)) /\
     (consistent r ->
      exists loss r',
        CognitiveFusionReactor.learnSimilarity concept1 concept2 target_similarity r
          = Ok (loss, r') /\ consistent r')).
Proof.
  split.
  - unfold CognitiveFusionReactor.learnSimilarity. intros [-> | ->]; [reflexivity|].
    destruct (EmbeddingSpace.getEmbedding concept1 _); reflexivity.
  - intros emb1 emb2 H1 H2.
    assert (Hdelegate :
      CognitiveFusionReactor.learnSimilarity concept1 concept2 target_similarity r
      = (EmbeddingLearner.learnFromSimilarity emb1 emb2 target_similarity
           (CognitiveFusionReactor.learner_ r)
         ≫= fun '(loss, l) => Ok (loss, CognitiveFusionReactor.with_learner l r))).
    { unfold CognitiveFusionReactor.learnSimilarity. rewrite H1, H2. reflexivity. }
    split; [exact Hdelegate|]. split.
    + intros loss r'. rewrite Hdelegate.
      destruct (EmbeddingLearner.learnFromSimilarity emb1 emb2 target_similarity _)
        as [[loss0 l0]| |] eqn:E; simpl; try discriminate.
      intros [= <- <-].
      destruct (learnFromSimilarity_loss _ _ _ _ _ _ E) as (current & Hcur & ->).
      exists current. split; [exact Hcur|]. split; [reflexivity|].
      apply square_loss.
    + intros (Hd & Hl & Hu & Hs). rewrite Hdelegate.
      assert (Hdims : forall c e,
                EmbeddingSpace.getEmbedding c (CognitiveFusionReactor.embedding_space_ r)
                  = Some e ->
                TensorEmbedding.dimensions e
                  = EmbeddingLearner.embedding_dim_ (CognitiveFusionReactor.learner_ r)).
      { intros c e He. apply lookup_first_In in He.
        unfold uniform in Hu. rewrite List.Forall_forall in Hu.
        pose proof (Hu _ He) as Hdim. simpl in Hdim. congruence. }
      destruct (learnFromSimilarity_ok emb1 emb2 target_similarity _ Hs
                  (Hdims _ _ H1) (Hdims _ _ H2)) as (loss & l' & -> & Hs' & Hd').
      simpl. do 2 eexists. split; [reflexivity|].
      unfold consistent. simpl. split; [exact Hd|]. split; [congruence|]. auto.
Qed.

(** Instance of C5 on [pets]: "bird" is missing, "cat" and "dog" are
    present and the facade keeps one dimension. *)
Lemma learnSimilarity_sentinel_and_loss_witness :
  CognitiveFusionReactor.learnSimilarity "cat" "bird" c0_9 pets = Ok (F32.minus_one, pets) /\
  consistent pets /\
  exists loss r',
    CognitiveFusionReactor.learnSimilarity "cat" "dog" c0_9 pets = Ok (loss, r') /\
    consistent r'.
Proof.
  assert (Hlab : consistent lab).
  { apply make_consistent; repeat constructor. }
  assert (Hpets : consistent pets).
  { unfold pets. repeat apply state_of_addConcept_consistent; exact Hlab. }
  split; [|split; [exact Hpets|]].
  - apply (proj1 (learnSimilarity_sentinel_and_loss "cat" "bird" c0_9 pets)).
    right. vm_compute. reflexivity.
  - apply (proj2 (proj2 (proj2 (learnSimilarity_sentinel_and_loss "cat" "dog" c0_9 pets)
              (TensorEmbedding.of_data [F32.one]) (TensorEmbedding.of_data [F32.one])
              ltac:(vm_compute; reflexivity) ltac:(vm_compute; reflexivity)))).
    exact Hpets.
Defined.

(** C5 as stated fails: with both names present and a NaN target the
    returned loss is NaN, which is not >= 0. *)
Lemma loss_of_nan_target :
  EmbeddingSpace.getEmbedding "cat" (CognitiveFusionReactor.embedding_space_ pets)
    = Some (TensorEmbedding.of_data [F32.one]) /\
  EmbeddingSpace.getEmbedding "dog" (CognitiveFusionReactor.embedding_space_ pets)
    = Some (TensorEmbedding.of_data [F32.one]) /\
  fst <$> CognitiveFusionReactor.learnSimilarity "cat" "dog" S754_nan pets = Ok S754_nan /\
  F32.geb S754_nan F32.zero = false.
Proof. vm_compute. auto. Qed.

(** ** Further properties of the store, the queues and the facade *)

(** Two [addNode] calls with one name on a store that has no atom of that
    name return the same Node, whatever the embedding arguments. *)
Lemma addNode_twice_fresh_name :
  exists node s',
    AtomSpace.addNode "cat" [] AtomSpace.empty = Ok (node, s') /\
    AtomSpace.addNode "cat" [F32.one] s' = Ok (node, s').
Proof.
  apply (addNode_twice "cat" [] [F32.one] AtomSpace.empty index_closed_empty).
  intros a H. vm_compute in H. discriminate.
Defined.

(** Links are never deduplicated: two [addLink] calls with the same type
    and outgoing list create two Links with consecutive, distinct handles. *)
Lemma addLink_always_creates type outgoing s :
  let '(link1, s1) := AtomSpace.addLink type outgoing s in
  let '(link2, s2) := AtomSpace.addLink type outgoing s1 in
  AtomSpace.getHandle link1 = ((AtomSpace.next_handle_ s + 1) mod 2 ^ 64)%N /\
  AtomSpace.getHandle link2 = ((AtomSpace.getHandle link1 + 1) mod 2 ^ 64)%N /\
  AtomSpace.getHandle link1 <> AtomSpace.getHandle link2 /\
  AtomSpace.isLink link1 = true /\ AtomSpace.isLink link2 = true /\
  AtomSpace.atoms_ s2 !! AtomSpace.getHandle link1 = Some link1 /\
  AtomSpace.atoms_ s2 !! AtomSpace.getHandle link2 = Some link2.
Proof.
  unfold AtomSpace.addLink, AtomSpace.generateHandle, AtomSpace.store_atom. simpl.
  set (h1 := ((AtomSpace.next_handle_ s + 1) mod 2 ^ 64)%N).
  assert (Hne : h1 <> ((h1 + 1) mod 2 ^ 64)%N).
  { assert (h1 < 2 ^ 64)%N by (apply N.mod_lt; discriminate).
    destruct (N.eq_dec (h1 + 1)%N (2 ^ 64)%N) as [E|E].
    - rewrite E, N.Div0.mod_same. lia.
    - rewrite N.mod_small by lia. lia. }
  repeat split; try reflexivity; try exact Hne.
  - rewrite lookup_insert_ne by (intros E; apply Hne; symmetry; exact E).
    apply lookup_insert_eq.
  - apply lookup_insert_eq.
Qed.

Lemma getNextMessages_beyond p k heap a :
  heap !! p = Some a -> length (Agent.message_queue_ a) < k ->
  AgentHeap.getNextMessages k p heap = Throw "No messages available".
Proof.
  revert heap a. induction k as [|k IH]; intros heap a Ha Hlen; [lia|]. simpl.
  unfold AgentHeap.getNextMessage, AgentHeap.deref. rewrite Ha. simpl.
  destruct (Agent.message_queue_ a) as [|m q] eqn:Eq; [reflexivity|]. simpl.
  rewrite (IH (<[p := Agent.pop a]> heap) (Agent.pop a)); [reflexivity| |].
  - apply lookup_insert_eq.
  - unfold Agent.pop. simpl. rewrite Eq. simpl in *. lia.
Qed.

(** Reading a queue to its end and beyond: of an agent with [n] queued
    messages, [k <= n] successive calls of [getNextMessage] return the
    first [k] messages in their order; any run of more than [n] calls ends
    in the error "No messages available"; and [hasMessages] is false
    exactly when the next [getNextMessage] throws. *)
Theorem getNextMessage_past_the_end (p : AgentPtr) (heap : gmap AgentPtr Agent.t)
    (a : Agent.t) :
  heap !! p = Some a ->
  (forall k, k <= length (Agent.message_queue_ a) ->
     fst <$> AgentHeap.getNextMessages k p heap = Ok (take k (Agent.message_queue_ a))) /\
  (forall k, length (Agent.message_queue_ a) < k ->
     AgentHeap.getNextMessages k p heap = Throw "No messages available") /\
  (AgentHeap.hasMessages p heap = Ok false <->
   AgentHeap.getNextMessage p heap = Throw "No messages available").
Proof.
  intros Ha. split; [|split].
  - intros k Hk.
    pose proof (getNextMessages_drain p heap a (take k (Agent.message_queue_ a))
                  (drop k (Agent.message_queue_ a)) Ha
                  (eq_sym (take_drop k (Agent.message_queue_ a)))) as Hd.
    rewrite length_take, Nat.min_l in Hd by exact Hk. rewrite Hd. reflexivity.
  - intros k Hk. exact (getNextMessages_beyond p k heap a Ha Hk).
  - unfold AgentHeap.hasMessages, AgentHeap.getNextMessage, AgentHeap.deref.
    rewrite Ha. simpl. destruct (Agent.message_queue_ a); split; intros H;
      try reflexivity; discriminate.
Qed.

(** Instance: "agent2" of the orchestrator test after one message, read
    once and then once more. *)
Lemma getNextMessage_past_the_end_witness :
  fst <$> AgentHeap.getNextMessages 1 2%positive
            (<[2%positive := Agent.push demo_message (Agent.make "agent2" "Agent 2")]> demo_heap)
    = Ok [demo_message] /\
  AgentHeap.getNextMessages 2 2%positive
    (<[2%positive := Agent.push demo_message (Agent.make "agent2" "Agent 2")]> demo_heap)
    = Throw "No messages available".
Proof.
  pose proof (getNextMessage_past_the_end 2%positive
                (<[2%positive := Agent.push demo_message (Agent.make "agent2" "Agent 2")]>
                   demo_heap)
                (Agent.push demo_message (Agent.make "agent2" "Agent 2"))
                (lookup_insert_eq _ _ _)) as (Hread & Hbeyond & _).
  split.
  - exact (Hread 1 (le_n 1)).
  - apply Hbeyond. simpl. lia.
Defined.

(** [addRelation] initialises the relevance of the new Link to 0.5 and
    leaves the attention table as it is. *)
Lemma addRelation_relevance_only type outgoing r :
  let '(link, r') := CognitiveFusionReactor.addRelation type outgoing r in
  AtomSpace.isLink link = true /\
  CognitiveFusionReactor.getRelevance (AtomSpace.getHandle link) r' = F32.half /\
  CognitiveFusionReactor.attention_bank_ r' = CognitiveFusionReactor.attention_bank_ r.
Proof.
  unfold CognitiveFusionReactor.addRelation, AtomSpace.addLink, AtomSpace.generateHandle.
  simpl. split; [reflexivity|]. split; [|reflexivity].
  unfold CognitiveFusionReactor.getRelevance. simpl. rewrite lookup_insert_eq. reflexivity.
Qed.

(** The end-to-end scenario: on the facade of dimension 4 with "cat" and
    "dog", the query with the embedding of "cat" and k = 2 returns "cat"
    first, with similarity 1 - 2^-24, and "dog" second, with a similarity
    between 0.9 and 1.0. *)
Lemma end_to_end_scenario :
  CognitiveFusionReactor.querySimilar insertion_sort v_cat 2 F32.zero kennel
    = Ok [("cat", S754_finite false 16777215 (-24));
          ("dog", S754_finite false 16596933 (-24))] /\
  F32.sub F32.one (S754_finite false 16777215 (-24)) = S754_finite false 8388608 (-47) /\
  F32.gtb (S754_finite false 16596933 (-24)) c0_9 = true /\
  F32.ltb (S754_finite false 16596933 (-24)) F32.one = true.
Proof. vm_compute. auto. Qed.

(** ** The store keeps its tables in step *)

Lemma StronglySorted_snoc {A} (R : A -> A -> Prop) (l : list A) (x : A) :
  StronglySorted R l -> (forall y, In y l -> R y x) -> StronglySorted R (l ++ [x]).
Proof.
  induction 1 as [|a l Hs IH Hall]; intros Hx; simpl.
  - repeat constructor.
  - constructor.
    + apply IH. intros y Hy. apply Hx. right. exact Hy.
    + apply Forall_app. split; [exact Hall|].
      constructor; [apply Hx; left; reflexivity|constructor].
Qed.

Lemma well_formed_empty : well_formed AtomSpace.empty.
Proof.
  unfold well_formed. simpl. split; [|split; [|split]].
  - intros h. rewrite lookup_empty. split; [intros [x Hx]; discriminate|lia].
  - reflexivity.
  - intros h a H. rewrite lookup_empty in H. discriminate.
  - intros name hs H. rewrite lookup_empty in H. discriminate.
Qed.

(** Storing an atom under the next handle, when the counter does not wrap. *)
Lemma well_formed_store_atom s name atom :
  well_formed s -> (AtomSpace.next_handle_ s + 1 < 2 ^ 64)%N ->
  AtomSpace.getHandle atom = (AtomSpace.next_handle_ s + 1)%N ->
  AtomSpace.getName atom = name ->
  well_formed (AtomSpace.store_atom (fst (AtomSpace.generateHandle s)) name atom
                 (snd (AtomSpace.generateHandle s))).
Proof.
  intros (Hdense & Hsize & Hatoms & Hindex) Hwrap Hh Hn.
  unfold AtomSpace.generateHandle, AtomSpace.store_atom. simpl.
  rewrite N.mod_small by exact Hwrap.
  set (h0 := (AtomSpace.next_handle_ s + 1)%N) in *.
  assert (Hfresh : AtomSpace.atoms_ s !! h0 = None).
  { destruct (AtomSpace.atoms_ s !! h0) eqn:E; [|reflexivity].
    assert (Hs : is_Some (AtomSpace.atoms_ s !! h0)) by (rewrite E; eauto).
    apply Hdense in Hs. subst h0. lia. }
  assert (Hold : forall name' hs h, AtomSpace.name_index_ s !! name' = Some hs -> In h hs ->
                   (h < h0)%N).
  { intros name' hs h Hhs Hin. destruct (Hindex name' hs Hhs) as [_ Hc].
    destruct (Hc h Hin) as (a & Ha & _).
    assert (Hs : is_Some (AtomSpace.atoms_ s !! h)) by (rewrite Ha; eauto).
    apply Hdense in Hs. subst h0. lia. }
  unfold well_formed. simpl. split; [|split; [|split]].
  - intros h. destruct (decide (h0 = h)) as [<-|Hne].
    + rewrite lookup_insert_eq. split; [intros _; subst h0; lia|eauto].
    + rewrite lookup_insert_ne by exact Hne. rewrite Hdense. subst h0. lia.
  - unfold AtomSpace.size in *. simpl. rewrite map_size_insert_None by exact Hfresh.
    rewrite Hsize. subst h0. lia.
  - intros h a. destruct (decide (h0 = h)) as [<-|Hne].
    + rewrite lookup_insert_eq. intros [= <-]. split; [exact Hh|].
      rewrite Hn, lookup_insert_eq. eexists. split; [reflexivity|].
      apply in_or_app. right. left. reflexivity.
    + rewrite lookup_insert_ne by exact Hne. intros Ha.
      destruct (Hatoms h a Ha) as (Hha & hs & Hhs & Hin). split; [exact Hha|].
      destruct (decide (name = AtomSpace.getName a)) as [->|Hname].
      * rewrite lookup_insert_eq, Hhs. simpl. eexists. split; [reflexivity|].
        apply in_or_app. left. exact Hin.
      * rewrite lookup_insert_ne by exact Hname. eauto.
  - intros name' hs. destruct (decide (name = name')) as [<-|Hname].
    + rewrite lookup_insert_eq. intros [= <-].
      destruct (AtomSpace.name_index_ s !! name) as [old|] eqn:E; simpl.
      * destruct (Hindex name old E) as [Hsorted Hc]. split.
        -- apply StronglySorted_snoc; [exact Hsorted|]. intros y Hy. eapply Hold; eassumption.
        -- intros h Hin. apply in_app_or in Hin as [Hin|[<-|[]]].
           ++ destruct (Hc h Hin) as (a & Ha & Hna). exists a. split; [|exact Hna].
              rewrite lookup_insert_ne; [exact Ha|].
              pose proof (Hold _ _ _ E Hin). lia.
           ++ exists atom. split; [apply lookup_insert_eq|exact Hn].
      * split; [repeat constructor|]. intros h [<-|[]].
        exists atom. split; [apply lookup_insert_eq|exact Hn].
    + rewrite lookup_insert_ne by exact Hname. intros Hhs.
      destruct (Hindex name' hs Hhs) as [Hsorted Hc]. split; [exact Hsorted|].
      intros h Hin. destruct (Hc h Hin) as (a & Ha & Hna). exists a. split; [|exact Hna].
      rewrite lookup_insert_ne; [exact Ha|].
      pose proof (Hold _ _ _ Hhs Hin). lia.
Qed.

Lemma well_formed_index_closed s : well_formed s -> index_closed s.
Proof.
  intros (_ & _ & _ & Hindex) name hs h Hhs Hin.
  destruct (Hindex name hs Hhs) as [_ Hc]. destruct (Hc h Hin) as (a & -> & _). eauto.
Qed.

Lemma well_formed_addLink type outgoing s :
  well_formed s -> (AtomSpace.next_handle_ s + 1 < 2 ^ 64)%N ->
  well_formed (snd (AtomSpace.addLink type outgoing s)).
Proof.
  intros Hs Hwrap. unfold AtomSpace.addLink.
  pose proof (well_formed_store_atom s type
                (AtomSpace.Link (fst (AtomSpace.generateHandle s)) type
                   AtomSpace.default_truth_value outgoing) Hs Hwrap) as H.
  destruct (AtomSpace.generateHandle s) as [handle s1] eqn:E. simpl in *.
  apply H; [|reflexivity].
  unfold AtomSpace.generateHandle in E. injection E as <- _.
  apply N.mod_small. exact Hwrap.
Qed.

Lemma well_formed_create_node name embedding s :
  well_formed s -> (AtomSpace.next_handle_ s + 1 < 2 ^ 64)%N ->
  well_formed (snd (AtomSpace.create_node name embedding s)).
Proof.
  intros Hs Hwrap. unfold AtomSpace.create_node.
  pose proof (well_formed_store_atom s name
                (AtomSpace.Node (fst (AtomSpace.generateHandle s)) name
                   AtomSpace.default_truth_value embedding) Hs Hwrap) as H.
  destruct (AtomSpace.generateHandle s) as [handle s1] eqn:E. simpl in *.
  apply H; [|reflexivity].
  unfold AtomSpace.generateHandle in E. injection E as <- _.
  apply N.mod_small. exact Hwrap.
Qed.

(** The two ways in which [addNode] returns on a well-formed store. *)
Lemma addNode_cases name embedding s :
  well_formed s ->
  (exists existing,
     first_indexed name s = Some existing /\ AtomSpace.isNode existing = true /\
     AtomSpace.addNode name embedding s = Ok (existing, s)) \/
  ((forall existing, first_indexed name s = Some existing ->
      AtomSpace.isNode existing = false) /\
   AtomSpace.addNode name embedding s = Ok (AtomSpace.create_node name embedding s)).
Proof.
  intros Hs. pose proof (well_formed_index_closed s Hs) as Hclosed.
  unfold first_indexed, AtomSpace.addNode.
  destruct (AtomSpace.name_index_ s !! name) as [[|h0 hs]|] eqn:E.
  - right. split; [discriminate|reflexivity].
  - destruct (Hclosed name (h0 :: hs) h0 E (or_introl eq_refl)) as [existing Hex].
    rewrite Hex. destruct (AtomSpace.isNode existing) eqn:En.
    + left. exists existing. auto.
    + right. split; [|reflexivity]. intros ? [= <-]. exact En.
  - right. split; [discriminate|reflexivity].
Qed.

Lemma well_formed_addNode name embedding s node s' :
  well_formed s -> (AtomSpace.next_handle_ s + 1 < 2 ^ 64)%N ->
  AtomSpace.addNode name embedding s = Ok (node, s') -> well_formed s'.
Proof.
  intros Hs Hwrap Hadd.
  destruct (addNode_cases name embedding s Hs) as [(existing & _ & _ & E)|[_ E]];
    rewrite E in Hadd; injection Hadd as <- <-; [exact Hs|].
  apply well_formed_create_node; assumption.
Qed.

Lemma grown_well_formed s : grown s -> well_formed s.
Proof.
  induction 1 as [|s name embedding node s' _ IH Hwrap Hadd|s type outgoing _ IH Hwrap].
  - exact well_formed_empty.
  - eapply well_formed_addNode; eassumption.
  - apply well_formed_addLink; assumption.
Qed.

Lemma atoms_at_spec atoms handles :
  (forall h, In h handles -> is_Some (atoms !! h)) ->
  exists l, AtomSpace.atoms_at atoms handles = Ok l /\
            Forall2 (fun h a => atoms !! h = Some a) handles l.
Proof.
  induction handles as [|h handles IH]; intros Hall; simpl.
  - exists []. split; [reflexivity|constructor].
  - destruct (Hall h (or_introl eq_refl)) as [a Ha]. rewrite Ha.
    destruct IH as (l & -> & Hl); [intros h' Hh'; apply Hall; right; exact Hh'|].
    simpl. exists (a :: l). split; [reflexivity|]. constructor; assumption.
Qed.

Lemma atoms_at_app atoms l1 l2 :
  AtomSpace.atoms_at atoms (l1 ++ l2)
  = (r1 ← AtomSpace.atoms_at atoms l1; r2 ← AtomSpace.atoms_at atoms l2; mret (r1 ++ r2)).
Proof.
  induction l1 as [|h l1 IH]; simpl.
  - destruct (AtomSpace.atoms_at atoms l2); reflexivity.
  - destruct (atoms !! h); [|reflexivity]. rewrite IH.
    destruct (AtomSpace.atoms_at atoms l1); simpl; [|reflexivity|reflexivity].
    destruct (AtomSpace.atoms_at atoms l2); reflexivity.
Qed.

Lemma atoms_at_insert_fresh atoms h0 atom handles :
  ~ In h0 handles ->
  AtomSpace.atoms_at (<[h0 := atom]> atoms) handles = AtomSpace.atoms_at atoms handles.
Proof.
  induction handles as [|h handles IH]; intros Hnot; simpl; [reflexivity|].
  rewrite lookup_insert_ne by (intros ->; apply Hnot; left; reflexivity).
  rewrite IH by (intros Hin; apply Hnot; right; exact Hin). reflexivity.
Qed.

Lemma Forall2_In_r {A B} (P : A -> B -> Prop) l k b :
  Forall2 P l k -> In b k -> exists a, In a l /\ P a b.
Proof.
  induction 1 as [|x y l k Hxy _ IH]; intros Hin; [destruct Hin|].
  destruct Hin as [<-|Hin].
  - exists x. split; [left; reflexivity|exact Hxy].
  - destruct (IH Hin) as (a & Ha & HP). exists a. split; [right; exact Ha|exact HP].
Qed.

Lemma Forall2_In_l {A B} (P : A -> B -> Prop) l k a :
  Forall2 P l k -> In a l -> exists b, In b k /\ P a b.
Proof.
  induction 1 as [|x y l k Hxy _ IH]; intros Hin; [destruct Hin|].
  destruct Hin as [<-|Hin].
  - exists y. split; [left; reflexivity|exact Hxy].
  - destruct (IH Hin) as (b & Hb & HP). exists b. split; [right; exact Hb|exact HP].
Qed.

Lemma getAtomsByName_well_formed name s :
  well_formed s ->
  exists l,
    AtomSpace.getAtomsByName name s = Ok l /\
    (forall a, In a l <->
       AtomSpace.getAtom (AtomSpace.getHandle a) s = Some a /\ AtomSpace.getName a = name) /\
    StronglySorted N.lt (map AtomSpace.getHandle l).
Proof.
  intros (Hdense & Hsize & Hatoms & Hindex). unfold AtomSpace.getAtomsByName, AtomSpace.getAtom.
  destruct (AtomSpace.name_index_ s !! name) as [hs|] eqn:E.
  - destruct (Hindex name hs E) as [Hsorted Hc].
    destruct (atoms_at_spec (AtomSpace.atoms_ s) hs) as (l & -> & Hl).
    { intros h Hin. destruct (Hc h Hin) as (a & -> & _). eauto. }
    exists l. split; [reflexivity|].
    assert (Hmap : map AtomSpace.getHandle l = hs).
    { clear -Hl Hatoms. induction Hl as [|h a hs l Ha _ IH]; simpl; [reflexivity|].
      rewrite IH. f_equal. apply (Hatoms h a Ha). }
    split; [|rewrite Hmap; exact Hsorted].
    intros a. split.
    + intros Hin. destruct (Forall2_In_r _ _ _ _ Hl Hin) as (h & Hh & Ha).
      destruct (Hatoms h a Ha) as [<- _].
      split; [exact Ha|]. destruct (Hc _ Hh) as (a' & Ha' & Hn). congruence.
    + intros [Ha Hn]. destruct (Hatoms _ a Ha) as (_ & hs' & Hhs' & Hin).
      rewrite Hn, E in Hhs'. injection Hhs' as <-.
      destruct (Forall2_In_l _ _ _ _ Hl Hin) as (a' & Hin' & Ha'). congruence.
  - exists []. split; [reflexivity|]. split; [|constructor].
    intros a. split; [intros []|]. intros [Ha Hn].
    destruct (Hatoms _ a Ha) as (_ & hs' & Hhs' & _). congruence.
Qed.

(** Handles are issued densely from 1: on a grown store [size()] is the
    number of handles issued, [getAllAtoms] has that many entries, an atom
    exists for the handle [h] exactly when [1 <= h <= size()], and the atom
    stored under a handle carries that handle. *)
Theorem grown_store_handles (s : AtomSpace.t) :
  grown s ->
  AtomSpace.size s = N.to_nat (AtomSpace.next_handle_ s) /\
  length (AtomSpace.getAllAtoms s) = AtomSpace.size s /\
  (forall h, is_Some (AtomSpace.getAtom h s) <-> 1 <= N.to_nat h <= AtomSpace.size s) /\
  (forall h a, AtomSpace.getAtom h s = Some a -> AtomSpace.getHandle a = h).
Proof.
  intros Hg. destruct (grown_well_formed s Hg) as (Hdense & Hsize & Hatoms & _).
  split; [exact Hsize|]. split; [|split].
  - unfold AtomSpace.getAllAtoms, AtomSpace.size. rewrite length_fmap.
    apply length_map_to_list.
  - intros h. unfold AtomSpace.getAtom. rewrite Hdense, Hsize. lia.
  - intros h a Ha. apply (Hatoms h a Ha).
Qed.

(** Instance: the store that holds the one Node "cat". *)
Lemma grown_store_handles_witness :
  grown (snd (AtomSpace.create_node "cat" [] AtomSpace.empty)) /\
  AtomSpace.size (snd (AtomSpace.create_node "cat" [] AtomSpace.empty)) = 1 /\
  (is_Some (AtomSpace.getAtom 1 (snd (AtomSpace.create_node "cat" [] AtomSpace.empty))) <->
   1 <= 1 <= AtomSpace.size (snd (AtomSpace.create_node "cat" [] AtomSpace.empty))).
Proof.
  assert (Hg : grown (snd (AtomSpace.create_node "cat" [] AtomSpace.empty))).
  { exact (grown_addNode AtomSpace.empty "cat" [] _ _ grown_empty eq_refl eq_refl). }
  split; [exact Hg|].
  pose proof (grown_store_handles _ Hg) as (Hsize & _ & Hdense & _).
  split; [exact Hsize|]. exact (Hdense 1%N).
Defined.

(** [getAtomsByName] on a grown store never throws and returns exactly the
    atoms of the store that carry the name, Nodes and Links alike, each
    once, in the order of their creation (increasing handles). *)
Theorem getAtomsByName_exact (name : string) (s : AtomSpace.t) :
  grown s ->
  exists l,
    AtomSpace.getAtomsByName name s = Ok l /\
    (forall a, In a l <->
       AtomSpace.getAtom (AtomSpace.getHandle a) s = Some a /\ AtomSpace.getName a = name) /\
    StronglySorted N.lt (map AtomSpace.getHandle l).
Proof.
  intros Hg. apply getAtomsByName_well_formed, grown_well_formed, Hg.
Qed.

(** Instance: a Link of type "x" and a Node named "x" in one store. *)
Lemma getAtomsByName_exact_witness :
  grown (CognitiveFusionReactor.atomspace_ shadowed) /\
  exists l,
    AtomSpace.getAtomsByName "x" (CognitiveFusionReactor.atomspace_ shadowed) = Ok l /\
    map AtomSpace.getHandle l = [1; 2]%N.
Proof.
  assert (Hg : grown (CognitiveFusionReactor.atomspace_ shadowed)).
  { exact (grown_addNode _ "x" [] _ _
             (grown_addLink AtomSpace.empty "x" [] grown_empty eq_refl) eq_refl eq_refl). }
  split; [exact Hg|].
  destruct (getAtomsByName_exact "x" _ Hg) as (l & Hl & _).
  exists l. split; [exact Hl|].
  vm_compute in Hl. injection Hl as <-. reflexivity.
Defined.

Lemma first_indexed_well_formed name s existing :
  well_formed s -> first_indexed name s = Some existing ->
  AtomSpace.getName existing = name /\
  AtomSpace.atoms_ s !! AtomSpace.getHandle existing = Some existing.
Proof.
  intros (_ & _ & Hatoms & Hindex). unfold first_indexed.
  destruct (AtomSpace.name_index_ s !! name) as [[|h0 hs]|] eqn:E; try discriminate.
  intros Hex. destruct (Hindex name _ E) as [_ Hc].
  destruct (Hc h0 (or_introl eq_refl)) as (a & Ha & Hn).
  destruct (Hatoms h0 existing Hex) as [-> _]. split; [congruence|exact Hex].
Qed.

Lemma fresh_handle_unused s :
  well_formed s -> AtomSpace.atoms_ s !! (AtomSpace.next_handle_ s + 1)%N = None.
Proof.
  intros (Hdense & _). destruct (AtomSpace.atoms_ s !! _) eqn:E; [|reflexivity].
  assert (Hs : is_Some (AtomSpace.atoms_ s !! (AtomSpace.next_handle_ s + 1)%N))
    by (rewrite E; eauto).
  apply Hdense in Hs. lia.
Qed.

(** [addNode] on a grown store, the counter short of wrapping: the call
    returns a Node of the given name that [getAtom] finds under its handle,
    and no atom that was in the store is replaced or removed. Either the
    store is unchanged and the Node is the one that heads the index of the
    name, or the store has one atom more and the Node is new, with the next
    handle and the given embedding. *)
Theorem addNode_adds_or_reuses (name : string) (embedding : list f32) (s : AtomSpace.t) :
  grown s -> (AtomSpace.next_handle_ s + 1 < 2 ^ 64)%N ->
  exists node s',
    AtomSpace.addNode name embedding s = Ok (node, s') /\
    grown s' /\
    AtomSpace.isNode node = true /\ AtomSpace.getName node = name /\
    AtomSpace.getAtom (AtomSpace.getHandle node) s' = Some node /\
    (forall h a, AtomSpace.getAtom h s = Some a -> AtomSpace.getAtom h s' = Some a) /\
    ((s' = s /\ first_indexed name s = Some node) \/
     (AtomSpace.size s' = S (AtomSpace.size s) /\
      AtomSpace.getHandle node = (AtomSpace.next_handle_ s + 1)%N /\
      AtomSpace.getEmbedding node = embedding /\
      forall existing, first_indexed name s = Some existing ->
        AtomSpace.isNode existing = false)).
Proof.
  intros Hg Hwrap. pose proof (grown_well_formed s Hg) as Hs.
  destruct (addNode_cases name embedding s Hs) as [(existing & Hfirst & Hn & E)|[Hfirst E]].
  - exists existing, s. split; [exact E|].
    destruct (first_indexed_well_formed name s existing Hs Hfirst) as [Hname Hat].
    split; [exact Hg|]. split; [exact Hn|]. split; [exact Hname|].
    split; [exact Hat|]. split; [auto|]. left. auto.
  - destruct (AtomSpace.create_node name embedding s) as [node s'] eqn:Ec.
    exists node, s'. split; [exact E|].
    split; [eapply grown_addNode; eassumption|].
    pose proof (fresh_handle_unused s Hs) as Hfresh.
    unfold AtomSpace.create_node, AtomSpace.generateHandle in Ec.
    rewrite N.mod_small in Ec by exact Hwrap.
    injection Ec as <- <-. unfold AtomSpace.getAtom, AtomSpace.size. simpl.
    split; [reflexivity|]. split; [reflexivity|]. split; [apply lookup_insert_eq|].
    split.
    + intros h a Ha. rewrite lookup_insert_ne; [exact Ha|]. congruence.
    + right. rewrite map_size_insert_None by exact Hfresh. auto.
Qed.

(** Instance: [addNode("cat")] on the empty store. *)
Lemma addNode_adds_or_reuses_witness :
  exists node s',
    AtomSpace.addNode "cat" [F32.one] AtomSpace.empty = Ok (node, s') /\
    grown s' /\ AtomSpace.getName node = "cat" /\
    AtomSpace.getAtom (AtomSpace.getHandle node) s' = Some node.
Proof.
  destruct (addNode_adds_or_reuses "cat" [F32.one] AtomSpace.empty grown_empty eq_refl)
    as (node & s' & H1 & H2 & _ & H3 & H4 & _).
  exists node, s'. auto.
Defined.

(** [addLink] on a grown store, the counter short of wrapping: the Link is
    new, carries the next handle and the given outgoing list, and [getAtom]
    finds it; the store has one atom more and keeps the others;
    [getAtomsByName] of the type returns what it returned before followed
    by the new Link, and is unchanged for every other name. *)
Theorem addLink_getAtomsByName (type : string) (outgoing : list AtomHandle) (s : AtomSpace.t) :
  grown s -> (AtomSpace.next_handle_ s + 1 < 2 ^ 64)%N ->
  let '(link, s') := AtomSpace.addLink type outgoing s in
  grown s' /\
  AtomSpace.isLink link = true /\ AtomSpace.getName link = type /\
  AtomSpace.getHandle link = (AtomSpace.next_handle_ s + 1)%N /\
  AtomSpace.getOutgoing link = outgoing /\
  AtomSpace.getAtom (AtomSpace.getHandle link) s' = Some link /\
  AtomSpace.size s' = S (AtomSpace.size s) /\
  (forall h a, AtomSpace.getAtom h s = Some a -> AtomSpace.getAtom h s' = Some a) /\
  (forall l, AtomSpace.getAtomsByName type s = Ok l ->
     AtomSpace.getAtomsByName type s' = Ok (l ++ [link])) /\
  (forall name, name <> type ->
     AtomSpace.getAtomsByName name s' = AtomSpace.getAtomsByName name s).
Proof.
  intros Hg Hwrap. pose proof (grown_well_formed s Hg) as Hs.
  pose proof (grown_addLink s type outgoing Hg Hwrap) as Hg'.
  pose proof (fresh_handle_unused s Hs) as Hfresh.
  assert (Hold : forall name hs, AtomSpace.name_index_ s !! name = Some hs ->
                   ~ In (AtomSpace.next_handle_ s + 1)%N hs).
  { intros name hs Hhs Hin. destruct Hs as (_ & _ & _ & Hindex).
    destruct (Hindex name hs Hhs) as [_ Hc]. destruct (Hc _ Hin) as (a & Ha & _).
    congruence. }
  unfold AtomSpace.addLink, AtomSpace.generateHandle in *.
  rewrite N.mod_small in * by exact Hwrap. simpl in *.
  unfold AtomSpace.getAtom, AtomSpace.size, AtomSpace.getAtomsByName. simpl.
  split; [exact Hg'|]. do 4 (split; [reflexivity|]).
  split; [apply lookup_insert_eq|].
  split; [apply map_size_insert_None; exact Hfresh|].
  split; [|split].
  - intros h a Ha. rewrite lookup_insert_ne; [exact Ha|]. congruence.
  - intros l. rewrite lookup_insert_eq.
    destruct (AtomSpace.name_index_ s !! type) as [hs|] eqn:E; simpl.
    + intros Hl. rewrite atoms_at_app.
      rewrite (atoms_at_insert_fresh _ _ _ hs) by (eapply Hold; exact E).
      rewrite Hl. simpl. rewrite lookup_insert_eq. reflexivity.
    + intros [= <-]. rewrite lookup_insert_eq. reflexivity.
  - intros name Hne. rewrite lookup_insert_ne by congruence.
    destruct (AtomSpace.name_index_ s !! name) as [hs|] eqn:E; [|reflexivity].
    apply atoms_at_insert_fresh. eapply Hold; exact E.
Qed.

(** Instance: a second Link of type "x" on the store that holds one. *)
Lemma addLink_getAtomsByName_witness :
  grown (snd (AtomSpace.addLink "x" [] AtomSpace.empty)) /\
  AtomSpace.getAtomsByName "x"
    (snd (AtomSpace.addLink "x" [1%N] (snd (AtomSpace.addLink "x" [] AtomSpace.empty))))
  = Ok [AtomSpace.Link 1 "x" AtomSpace.default_truth_value [];
        AtomSpace.Link 2 "x" AtomSpace.default_truth_value [1%N]].
Proof.
  assert (Hg : grown (snd (AtomSpace.addLink "x" [] AtomSpace.empty))).
  { exact (grown_addLink AtomSpace.empty "x" [] grown_empty eq_refl). }
  split; [exact Hg|].
  pose proof (addLink_getAtomsByName "x" [1%N] _ Hg eq_refl) as H.
  destruct (AtomSpace.addLink "x" [1%N] (snd (AtomSpace.addLink "x" [] AtomSpace.empty)))
    as [link s'] eqn:E.
  destruct H as (_ & _ & _ & _ & _ & _ & _ & _ & Happ & _).
  simpl. rewrite (Happ [AtomSpace.Link 1 "x" AtomSpace.default_truth_value []]).
  - f_equal. f_equal. vm_compute in E. injection E as <- _. reflexivity.
  - vm_compute. reflexivity.
Defined.

(** ** Symmetries and signs of binary32 operations *)

Lemma f32_mul_comm x y : F32.mul x y = F32.mul y x.
Proof.
  unfold F32.mul, SFmul.
  destruct x as [sx|sx| |sx mx ex], y as [sy|sy| |sy my ey];
    rewrite ?(xorb_comm sx sy); try reflexivity.
  rewrite (Pos.mul_comm mx my), (Z.add_comm ex ey). reflexivity.
Qed.

Lemma f32_add_comm x y : F32.add x y = F32.add y x.
Proof.
  unfold F32.add, SFadd.
  destruct x as [sx|sx| |sx mx ex], y as [sy|sy| |sy my ey]; try reflexivity.
  - destruct sx, sy; reflexivity.
  - destruct sx, sy; reflexivity.
  - rewrite (Z.min_comm ex ey), Z.add_comm. reflexivity.
Qed.

Lemma binary_round_aux_opp s m e l :
  binary_round_aux F32.prec F32.emax (negb s) m e l
  = SFopp (binary_round_aux F32.prec F32.emax s m e l).
Proof.
  unfold binary_round_aux.
  destruct (shr_fexp F32.prec F32.emax m e l) as [mrs' e'].
  destruct (shr_fexp F32.prec F32.emax _ e' loc_Exact) as [mrs'' e''].
  destruct (shr_m mrs''); try reflexivity.
  destruct (Z.leb e'' _); reflexivity.
Qed.

Lemma binary_normalize_opp m e :
  m <> 0%Z ->
  binary_normalize F32.prec F32.emax (- m) e false
  = SFopp (binary_normalize F32.prec F32.emax m e false).
Proof.
  intros Hm. unfold binary_normalize, binary_round.
  destruct m as [|p|p]; [contradiction| |]; simpl;
    destruct (shl_align p e _) as [mz ez].
  - apply (binary_round_aux_opp false).
  - rewrite (binary_round_aux_opp false). destruct (binary_round_aux _ _ _ _ _ _); simpl;
      rewrite ?Bool.negb_involutive; reflexivity.
Qed.

Lemma mul_opp_opp x : F32.mul (SFopp x) (SFopp x) = F32.mul x x.
Proof.
  unfold F32.mul, SFmul. destruct x as [s|s| |s m e]; simpl; try reflexivity;
    destruct s; reflexivity.
Qed.

(** [(x - y) * (x - y)] and [(y - x) * (y - x)] are the same value. *)
Lemma sub_swap_square x y :
  F32.mul (F32.sub x y) (F32.sub x y) = F32.mul (F32.sub y x) (F32.sub y x).
Proof.
  assert (H : F32.sub y x = SFopp (F32.sub x y) \/ F32.sub y x = F32.sub x y).
  { unfold F32.sub, SFsub.
    destruct x as [sx|sx| |sx mx ex], y as [sy|sy| |sy my ey]; simpl;
      try (solve [repeat match goal with s : bool |- _ => destruct s end; simpl; auto]).
    rewrite (Z.min_comm ey ex).
    set (a := cond_Zopp sx _). set (b := cond_Zopp sy _).
    destruct (Z.eq_dec (a - b)%Z 0%Z) as [E|E].
    - right. replace (b - a)%Z with 0%Z by lia. rewrite E. reflexivity.
    - left. replace (b - a)%Z with (- (a - b))%Z by lia.
      apply binary_normalize_opp. exact E. }
  destruct H as [-> | ->]; [|reflexivity]. symmetry. apply mul_opp_opp.
Qed.

Lemma sub_self x : F32.is_finite x = true -> F32.sub x x = F32.zero.
Proof.
  unfold F32.sub, SFsub. destruct x as [s|s| |s m e]; simpl; intros H; try discriminate.
  - destruct s; reflexivity.
  - rewrite Z.min_id, Z.sub_diag. reflexivity.
Qed.

Lemma has_sign_nonneg_or_nan x : has_sign false x -> nonneg_or_nan x.
Proof. destruct x; simpl; auto. Qed.

Lemma binary_round_aux_nonneg_or_nan m e l :
  nonneg_or_nan (binary_round_aux F32.prec F32.emax false m e l).
Proof.
  unfold binary_round_aux.
  destruct (shr_fexp F32.prec F32.emax m e l) as [mrs' e'].
  destruct (shr_fexp F32.prec F32.emax _ e' loc_Exact) as [mrs'' e''].
  destruct (shr_m mrs''); simpl; try reflexivity.
  destruct (Z.leb e'' _); reflexivity.
Qed.

Lemma mul_self_nonneg_or_nan x : nonneg_or_nan (F32.mul x x).
Proof.
  unfold F32.mul, SFmul. destruct x as [s|s| |s m e]; simpl; try exact I;
    try (destruct s; reflexivity).
  replace (xorb s s) with false by (destruct s; reflexivity).
  apply binary_round_aux_nonneg_or_nan.
Qed.

Lemma binary_round_nonneg_or_nan p e :
  nonneg_or_nan (binary_round F32.prec F32.emax false p e).
Proof.
  unfold binary_round. destruct (shl_align p e _) as [mz ez].
  apply binary_round_aux_nonneg_or_nan.
Qed.

Lemma add_nonneg_or_nan x y :
  nonneg_or_nan x -> nonneg_or_nan y -> nonneg_or_nan (F32.add x y).
Proof.
  unfold F32.add, SFadd.
  destruct x as [sx|sx| |sx mx ex], y as [sy|sy| |sy my ey]; simpl;
    intros Hx Hy; subst; try exact I; try reflexivity.
  apply binary_round_nonneg_or_nan.
Qed.

Lemma div_nonneg_or_nan x y :
  nonneg_or_nan x -> nonneg_or_nan y -> nonneg_or_nan (F32.div x y).
Proof.
  unfold F32.div, SFdiv.
  destruct x as [sx|sx| |sx mx ex], y as [sy|sy| |sy my ey]; simpl;
    intros Hx Hy; subst; try exact I; try reflexivity.
  destruct (SFdiv_core_binary _ _ _ _ _ _) as [[mz ez] lz].
  apply binary_round_aux_nonneg_or_nan.
Qed.

Lemma sqrt_nonneg_or_nan x : nonneg_or_nan x -> nonneg_or_nan (F32.sqrt x).
Proof.
  unfold F32.sqrt, SFsqrt. destruct x as [s|s| |s m e]; simpl; intros Hx; subst;
    try exact I; try reflexivity.
  destruct (SFsqrt_core_binary _ _ _ _) as [[mz ez] lz].
  apply binary_round_aux_nonneg_or_nan.
Qed.

Lemma of_nat_nonneg_or_nan n : nonneg_or_nan (F32.of_Z (Z.of_nat n)).
Proof.
  unfold F32.of_Z, binary_normalize.
  destruct (Z.of_nat n) as [|p|p] eqn:E; [reflexivity| |lia].
  apply binary_round_nonneg_or_nan.
Qed.

Lemma nonneg_or_nan_not_negative x : nonneg_or_nan x -> F32.ltb x F32.zero = false.
Proof. destruct x as [s|s| |s m e]; simpl; intros H; subst; reflexivity. Qed.

Lemma squares_nonneg_or_nan {A} (f : A -> f32) (l : list A) acc :
  nonneg_or_nan acc ->
  nonneg_or_nan (fold_left (fun sum x => F32.add sum (F32.mul (f x) (f x))) l acc).
Proof.
  revert acc. induction l as [|x l IH]; intros acc Hacc; simpl; [exact Hacc|].
  apply IH, add_nonneg_or_nan; [exact Hacc|apply mul_self_nonneg_or_nan].
Qed.

Lemma relu_sign x : has_sign false (activation.relu x).
Proof.
  unfold activation.relu, F32.max, F32.ltb.
  destruct x as [s|s| |s m e]; try reflexivity; destruct s; reflexivity.
Qed.

(** ** Embeddings: similarity, distance, normalisation, arithmetic *)

Lemma cosine_fold_swap (a b : list f32) dot na nb :
  fold_left
    (fun '(dot, na, nb) '(x, y) =>
       (F32.add dot (F32.mul x y), F32.add na (F32.mul x x), F32.add nb (F32.mul y y)))
    (combine b a) (dot, nb, na)
  = let '(dot', na', nb') :=
      fold_left
        (fun '(dot, na, nb) '(x, y) =>
           (F32.add dot (F32.mul x y), F32.add na (F32.mul x x), F32.add nb (F32.mul y y)))
        (combine a b) (dot, na, nb) in
    (dot', nb', na').
Proof.
  revert b dot na nb. induction a as [|x a IH]; intros [|y b] dot na nb; simpl;
    try reflexivity.
  rewrite (f32_mul_comm y x). apply IH.
Qed.

Lemma cosine_symmetric (a b : list f32) :
  AtomSpace.cosineSimilarity a b = AtomSpace.cosineSimilarity b a.
Proof.
  unfold AtomSpace.cosineSimilarity. rewrite (Nat.eqb_sym (length b) (length a)).
  destruct (Nat.eqb_spec (length a) (length b)) as [E|E]; [|reflexivity].
  rewrite <- E. simpl. destruct (length a =? 0)%nat; [reflexivity|].
  rewrite (cosine_fold_swap a b F32.zero F32.zero F32.zero).
  destruct (fold_left _ (combine a b) _) as [[dot na] nb].
  rewrite (f32_mul_comm (F32.sqrt nb) (F32.sqrt na)). reflexivity.
Qed.

(** Cosine similarity is symmetric, bit for bit: both the store's function
    and the method of [TensorEmbedding] return the same value when their
    arguments are exchanged. *)
Theorem cosineSimilarity_symmetric (a b : list f32) (u v : TensorEmbedding.t) :
  AtomSpace.cosineSimilarity a b = AtomSpace.cosineSimilarity b a /\
  TensorEmbedding.cosineSimilarity u v = TensorEmbedding.cosineSimilarity v u.
Proof.
  split; [apply cosine_symmetric|].
  unfold TensorEmbedding.cosineSimilarity. apply cosine_symmetric.
Qed.

Lemma distance_fold_swap (a b : list f32) acc :
  fold_left (fun sum '(x, y) => let diff := F32.sub x y in F32.add sum (F32.mul diff diff))
            (combine b a) acc
  = fold_left (fun sum '(x, y) => let diff := F32.sub x y in F32.add sum (F32.mul diff diff))
              (combine a b) acc.
Proof.
  revert b acc. induction a as [|x a IH]; intros [|y b] acc; simpl; try reflexivity.
  rewrite (sub_swap_square y x). apply IH.
Qed.

Lemma distance_fold_self (a : list f32) :
  Forall (fun x => F32.is_finite x = true) a ->
  fold_left (fun sum '(x, y) => let diff := F32.sub x y in F32.add sum (F32.mul diff diff))
            (combine a a) F32.zero
  = F32.zero.
Proof.
  induction 1 as [|x a Hx _ IH]; simpl; [reflexivity|].
  rewrite (sub_self x Hx). exact IH.
Qed.

Lemma distance_fold_sign (l : list (f32 * f32)) acc :
  nonneg_or_nan acc ->
  nonneg_or_nan
    (fold_left (fun sum '(x, y) => let diff := F32.sub x y in F32.add sum (F32.mul diff diff))
               l acc).
Proof.
  revert acc. induction l as [|[x y] l IH]; intros acc Hacc; simpl; [exact Hacc|].
  apply IH, add_nonneg_or_nan; [exact Hacc|apply mul_self_nonneg_or_nan].
Qed.

(** [euclideanDistance]: the sentinel [FLT_MAX] on a dimension mismatch;
    symmetric, bit for bit; exactly 0.0 from a vector of finite components
    to itself; never negative. *)
Theorem euclideanDistance_laws (u v : TensorEmbedding.t) :
  (TensorEmbedding.dimensions u <> TensorEmbedding.dimensions v ->
   TensorEmbedding.euclideanDistance u v = F32.max_float) /\
  TensorEmbedding.euclideanDistance u v = TensorEmbedding.euclideanDistance v u /\
  (Forall (fun x => F32.is_finite x = true) (TensorEmbedding.data_ u) ->
   TensorEmbedding.euclideanDistance u u = F32.zero) /\
  F32.ltb (TensorEmbedding.euclideanDistance u v) F32.zero = false.
Proof.
  unfold TensorEmbedding.euclideanDistance. split; [|split; [|split]].
  - intros H. destruct (Nat.eqb_spec (TensorEmbedding.dimensions u) (TensorEmbedding.dimensions v));
      [contradiction|reflexivity].
  - rewrite (Nat.eqb_sym (TensorEmbedding.dimensions v)).
    destruct (TensorEmbedding.dimensions u =? TensorEmbedding.dimensions v)%nat; [|reflexivity].
    simpl. rewrite distance_fold_swap. reflexivity.
  - intros H. rewrite Nat.eqb_refl. cbn [negb].
    pose proof (distance_fold_self _ H) as E. cbv zeta in E |- *. rewrite E. reflexivity.
  - destruct (TensorEmbedding.dimensions u =? TensorEmbedding.dimensions v)%nat; simpl;
      [|reflexivity].
    apply nonneg_or_nan_not_negative, sqrt_nonneg_or_nan, distance_fold_sign. reflexivity.
Qed.

(** Instance: a vector of two finite components, and one of another
    dimension. *)
Lemma euclideanDistance_laws_witness :
  TensorEmbedding.euclideanDistance (TensorEmbedding.of_data [F32.one; F32.half])
    (TensorEmbedding.of_data [F32.one; F32.half]) = F32.zero /\
  TensorEmbedding.euclideanDistance (TensorEmbedding.of_data [F32.one; F32.half])
    (TensorEmbedding.of_data [F32.one]) = F32.max_float.
Proof.
  pose proof (euclideanDistance_laws (TensorEmbedding.of_data [F32.one; F32.half])
                (TensorEmbedding.of_data [F32.one; F32.half])) as (_ & _ & Hself & _).
  pose proof (euclideanDistance_laws (TensorEmbedding.of_data [F32.one; F32.half])
                (TensorEmbedding.of_data [F32.one])) as (Hmis & _).
  split; [apply Hself; repeat constructor|apply Hmis; discriminate].
Defined.

Lemma sqnorm_zeros (v : list f32) :
  Forall (fun x => F32.is_zero x = true) v -> sqnorm v = F32.zero.
Proof.
  unfold sqnorm. induction 1 as [|x v Hx _ IH]; simpl; [reflexivity|].
  destruct x as [s| | |]; try discriminate.
  replace (F32.add F32.zero (F32.mul (S754_zero s) (S754_zero s))) with F32.zero
    by (destruct s; reflexivity).
  exact IH.
Qed.

Lemma sqnorm_nan_from (v : list f32) :
  fold_left (fun acc x => F32.add acc (F32.mul x x)) v S754_nan = S754_nan.
Proof. induction v as [|x v IH]; simpl; [reflexivity|exact IH]. Qed.

Lemma sqnorm_nan (v : list f32) acc :
  Exists (fun x => F32.is_nan x = true) v ->
  fold_left (fun acc x => F32.add acc (F32.mul x x)) v acc = S754_nan.
Proof.
  intros H. revert acc. induction H as [x v Hx|x v _ IH]; intros acc; simpl.
  - destruct x; try discriminate.
    replace (F32.add acc (F32.mul S754_nan S754_nan)) with S754_nan
      by (destruct acc; reflexivity).
    apply sqnorm_nan_from.
  - apply IH.
Qed.

(** [normalize] keeps the dimension. It leaves the vector as it is when all
    components are zero (no division by zero) and when a component is NaN
    (the test [norm > 1e-8f] is then false). When the sum of the squares
    overflows, the norm is infinite and every finite component becomes a
    zero: the result is the zero vector, not a unit vector. *)
Theorem normalize_edge_cases (e : TensorEmbedding.t) :
  TensorEmbedding.dimensions (TensorEmbedding.normalize e) = TensorEmbedding.dimensions e /\
  (Forall (fun x => F32.is_zero x = true) (TensorEmbedding.data_ e) ->
   TensorEmbedding.normalize e = e) /\
  (Exists (fun x => F32.is_nan x = true) (TensorEmbedding.data_ e) ->
   TensorEmbedding.normalize e = e) /\
  (sqnorm (TensorEmbedding.data_ e) = S754_infinity false ->
   Forall (fun x => F32.is_finite x = true) (TensorEmbedding.data_ e) ->
   Forall (fun x => F32.is_zero x = true)
          (TensorEmbedding.data_ (TensorEmbedding.normalize e))).
Proof.
  unfold TensorEmbedding.normalize. fold (sqnorm (TensorEmbedding.data_ e)).
  split; [|split; [|split]].
  - destruct (F32.gtb _ _); [|reflexivity].
    unfold TensorEmbedding.dimensions. simpl. apply length_map.
  - intros H. rewrite (sqnorm_zeros _ H). reflexivity.
  - intros H. unfold sqnorm. rewrite (sqnorm_nan _ _ H). reflexivity.
  - intros Hinf Hfin. rewrite Hinf.
    change (F32.gtb (F32.sqrt (S754_infinity false)) F32.c1em8) with true.
    cbn [TensorEmbedding.data_]. clear Hinf.
    induction Hfin as [|x v Hx _ IH]; simpl; constructor; [|exact IH].
    destruct x as [s| | |s m ex]; try discriminate; reflexivity.
Qed.

(** Instance: the zero vector, a vector with a NaN, and [3e19f]. *)
Lemma normalize_edge_cases_witness :
  TensorEmbedding.normalize (TensorEmbedding.of_data [F32.zero; F32.zero])
    = TensorEmbedding.of_data [F32.zero; F32.zero] /\
  TensorEmbedding.normalize (TensorEmbedding.of_data [F32.one; S754_nan])
    = TensorEmbedding.of_data [F32.one; S754_nan] /\
  Forall (fun x => F32.is_zero x = true)
         (TensorEmbedding.data_ (TensorEmbedding.normalize (TensorEmbedding.of_data [huge]))).
Proof.
  split; [|split].
  - apply (proj1 (proj2 (normalize_edge_cases (TensorEmbedding.of_data [F32.zero; F32.zero])))).
    repeat constructor.
  - apply (proj1 (proj2 (proj2 (normalize_edge_cases
                                   (TensorEmbedding.of_data [F32.one; S754_nan]))))).
    right. left. reflexivity.
  - apply (proj2 (proj2 (proj2 (normalize_edge_cases (TensorEmbedding.of_data [huge]))))).
    + vm_compute. reflexivity.
    + repeat constructor.
Defined.

Lemma tabulate_loop (entry : nat -> outcome f32) (f : nat -> f32) n k :
  (forall i, k <= i < k + n -> entry i = Ok (f i)) ->
  for_loop (fun result i => x ← entry i; mret (<[i := x]> result)) (seq k n)
           (map f (seq 0 k) ++ replicate n F32.zero)
  = Ok (map f (seq 0 (k + n))).
Proof.
  revert k. induction n as [|n IH]; intros k Hentry; simpl.
  - rewrite app_nil_r, Nat.add_0_r. reflexivity.
  - rewrite (Hentry k) by lia. simpl.
    rewrite insert_app_r_alt by (rewrite length_map, length_seq; lia).
    rewrite length_map, length_seq, Nat.sub_diag. simpl.
    replace (map f (seq 0 k) ++ f k :: replicate n F32.zero)
      with (map f (seq 0 (S k)) ++ replicate n F32.zero)
      by (rewrite seq_S, map_app, <- app_assoc; reflexivity).
    rewrite IH by (intros i Hi; apply Hentry; lia).
    rewrite Nat.add_succ_r. reflexivity.
Qed.

Lemma tabulate_spec (entry : nat -> outcome f32) (f : nat -> f32) dims :
  (forall i, i < dims -> entry i = Ok (f i)) ->
  TensorEmbedding.tabulate dims entry = Ok (TensorEmbedding.of_data (map f (seq 0 dims))).
Proof.
  intros Hentry. unfold TensorEmbedding.tabulate.
  pose proof (tabulate_loop entry f dims 0) as H. cbn [seq map app Nat.add] in H.
  rewrite H by (intros i Hi; apply Hentry; lia). reflexivity.
Qed.

Lemma map_seq_zip_with (op : f32 -> f32 -> f32) (a b : list f32) :
  length a = length b ->
  map (fun i => op (default F32.zero (a !! i)) (default F32.zero (b !! i))) (seq 0 (length a))
  = zip_with op a b.
Proof.
  revert b. induction a as [|x a IH]; intros [|y b] Hlen; simpl in *; try discriminate;
    [reflexivity|].
  f_equal. rewrite <- seq_shift, map_map. apply IH. congruence.
Qed.

Lemma map_seq_map (g : f32 -> f32) (a : list f32) :
  map (fun i => g (default F32.zero (a !! i))) (seq 0 (length a)) = map g a.
Proof.
  induction a as [|x a IH]; simpl; [reflexivity|].
  f_equal. rewrite <- seq_shift, map_map. exact IH.
Qed.

Lemma at_default (v : list f32) i : i < length v -> at_ v i = Ok (default F32.zero (v !! i)).
Proof. intros H. destruct (at_ok v i H) as (x & -> & ->). reflexivity. Qed.

Lemma pointwise_spec (op : f32 -> f32 -> f32) (u v : TensorEmbedding.t) :
  TensorEmbedding.dimensions u = TensorEmbedding.dimensions v ->
  TensorEmbedding.tabulate (TensorEmbedding.dimensions u)
    (fun i => x ← at_ (TensorEmbedding.data_ u) i;
              y ← at_ (TensorEmbedding.data_ v) i; mret (op x y))
  = Ok (TensorEmbedding.of_data
          (zip_with op (TensorEmbedding.data_ u) (TensorEmbedding.data_ v))).
Proof.
  unfold TensorEmbedding.dimensions. intros Hdim.
  rewrite (tabulate_spec _
             (fun i => op (default F32.zero (TensorEmbedding.data_ u !! i))
                          (default F32.zero (TensorEmbedding.data_ v !! i)))).
  - rewrite map_seq_zip_with by exact Hdim. reflexivity.
  - intros i Hi. rewrite (at_default _ i Hi), (at_default _ i) by lia. reflexivity.
Qed.

Lemma scale_spec (u : TensorEmbedding.t) (scalar : f32) :
  TensorEmbedding.scale u scalar
  = Ok (TensorEmbedding.of_data (map (fun x => F32.mul x scalar) (TensorEmbedding.data_ u))).
Proof.
  unfold TensorEmbedding.scale, TensorEmbedding.dimensions.
  rewrite (tabulate_spec _
             (fun i => F32.mul (default F32.zero (TensorEmbedding.data_ u !! i)) scalar)).
  - rewrite (map_seq_map (fun x => F32.mul x scalar)). reflexivity.
  - intros i Hi. rewrite (at_default _ i Hi). reflexivity.
Qed.

Lemma dot_loop (a b pa pb : list f32) acc :
  length pa = length pb -> length a = length b ->
  for_loop
    (fun result i =>
       x ← at_ (pa ++ a) i; y ← at_ (pb ++ b) i; mret (F32.add result (F32.mul x y)))
    (seq (length pa) (length a)) acc
  = Ok (fold_left (fun acc '(x, y) => F32.add acc (F32.mul x y)) (combine a b) acc).
Proof.
  revert b pa pb acc. induction a as [|x a IH]; intros [|y b] pa pb acc Hp Hlen;
    simpl in *; try discriminate; [reflexivity|].
  assert (Hx : at_ (pa ++ x :: a) (length pa) = Ok x)
    by (unfold at_; rewrite (list_lookup_middle pa a x (length pa) eq_refl); reflexivity).
  assert (Hy : at_ (pb ++ y :: b) (length pa) = Ok y)
    by (unfold at_; rewrite (list_lookup_middle pb b y (length pa) Hp); reflexivity).
  rewrite Hx. simpl. rewrite Hy. simpl.
  rewrite (cons_middle x pa a), (cons_middle y pb b), !app_assoc.
  replace (S (length pa)) with (length (pa ++ [x])) by (rewrite length_app; simpl; lia).
  apply IH; [rewrite !length_app; simpl; lia|congruence].
Qed.

Lemma dot_spec (u v : TensorEmbedding.t) :
  TensorEmbedding.dimensions u = TensorEmbedding.dimensions v ->
  TensorEmbedding.dot u v
  = Ok (fold_left (fun acc '(x, y) => F32.add acc (F32.mul x y))
                  (combine (TensorEmbedding.data_ u) (TensorEmbedding.data_ v)) F32.zero).
Proof.
  intros Hdim. unfold TensorEmbedding.dot. rewrite Hdim, Nat.eqb_refl. cbn [negb].
  rewrite <- Hdim. unfold TensorEmbedding.dimensions in *.
  exact (dot_loop (TensorEmbedding.data_ u) (TensorEmbedding.data_ v) [] [] F32.zero
           eq_refl Hdim).
Qed.

(** The arithmetic of [TensorEmbedding]: [operator+], [operator-] and [dot]
    throw, each with its own message, exactly when the dimensions differ,
    and otherwise return the component-wise sum, the component-wise
    difference and the sum of the products accumulated from 0.0 in index
    order; [operator*] by a scalar has nothing to check and returns the
    scaled components. *)
Theorem embedding_arithmetic_checks (u v : TensorEmbedding.t) (scalar : f32) :
  (TensorEmbedding.dimensions u <> TensorEmbedding.dimensions v ->
   TensorEmbedding.add u v = Throw "Dimension mismatch in embedding addition" /\
   TensorEmbedding.sub u v = Throw "Dimension mismatch in embedding subtraction" /\
   TensorEmbedding.dot u v = Throw "Dimension mismatch in dot product") /\
  (TensorEmbedding.dimensions u = TensorEmbedding.dimensions v ->
   TensorEmbedding.add u v
   = Ok (TensorEmbedding.of_data
           (zip_with F32.add (TensorEmbedding.data_ u) (TensorEmbedding.data_ v))) /\
   TensorEmbedding.sub u v
   = Ok (TensorEmbedding.of_data
           (zip_with F32.sub (TensorEmbedding.data_ u) (TensorEmbedding.data_ v))) /\
   TensorEmbedding.dot u v
   = Ok (fold_left (fun acc '(x, y) => F32.add acc (F32.mul x y))
                   (combine (TensorEmbedding.data_ u) (TensorEmbedding.data_ v)) F32.zero)) /\
  TensorEmbedding.scale u scalar
  = Ok (TensorEmbedding.of_data (map (fun x => F32.mul x scalar) (TensorEmbedding.data_ u))).
Proof.
  split; [|split; [|apply scale_spec]].
  - intros Hne. unfold TensorEmbedding.add, TensorEmbedding.sub, TensorEmbedding.dot.
    destruct (Nat.eqb_spec (TensorEmbedding.dimensions u) (TensorEmbedding.dimensions v));
      [contradiction|]. auto.
  - intros Hdim. split; [|split; [|apply dot_spec; exact Hdim]].
    + unfold TensorEmbedding.add. rewrite Hdim, Nat.eqb_refl. cbn [negb]. rewrite <- Hdim.
      apply pointwise_spec. exact Hdim.
    + unfold TensorEmbedding.sub. rewrite Hdim, Nat.eqb_refl. cbn [negb]. rewrite <- Hdim.
      apply pointwise_spec. exact Hdim.
Qed.

(** Instance: vectors of dimensions 2 and 1. *)
Lemma embedding_arithmetic_checks_witness :
  TensorEmbedding.add (TensorEmbedding.of_data [F32.one; F32.half])
    (TensorEmbedding.of_data [F32.one])
    = Throw "Dimension mismatch in embedding addition" /\
  TensorEmbedding.add (TensorEmbedding.of_data [F32.one; F32.half])
    (TensorEmbedding.of_data [F32.one; F32.half])
    = Ok (TensorEmbedding.of_data [F32.two; F32.one]).
Proof.
  split.
  - apply (proj1 (embedding_arithmetic_checks (TensorEmbedding.of_data [F32.one; F32.half])
                    (TensorEmbedding.of_data [F32.one]) F32.one)).
    discriminate.
  - etransitivity.
    + apply (proj1 (proj2 (embedding_arithmetic_checks
                             (TensorEmbedding.of_data [F32.one; F32.half])
                             (TensorEmbedding.of_data [F32.one; F32.half]) F32.one))).
      reflexivity.
    + vm_compute. reflexivity.
Defined.

Lemma zip_with_comm (op : f32 -> f32 -> f32) (a b : list f32) :
  (forall x y, op x y = op y x) -> zip_with op a b = zip_with op b a.
Proof.
  intros Hop. revert b. induction a as [|x a IH]; intros [|y b]; simpl; try reflexivity.
  rewrite Hop, IH. reflexivity.
Qed.

Lemma dot_fold_swap (a b : list f32) acc :
  fold_left (fun acc '(x, y) => F32.add acc (F32.mul x y)) (combine b a) acc
  = fold_left (fun acc '(x, y) => F32.add acc (F32.mul x y)) (combine a b) acc.
Proof.
  revert b acc. induction a as [|x a IH]; intros [|y b] acc; simpl; try reflexivity.
  rewrite (f32_mul_comm y x). apply IH.
Qed.

Lemma dot_fold_self (a : list f32) acc :
  fold_left (fun acc '(x, y) => F32.add acc (F32.mul x y)) (combine a a) acc
  = fold_left (fun acc x => F32.add acc (F32.mul x x)) a acc.
Proof. revert acc. induction a as [|x a IH]; intros acc; simpl; [reflexivity|apply IH]. Qed.

Lemma zip_with_sub_self (a : list f32) :
  Forall (fun x => F32.is_finite x = true) a ->
  zip_with F32.sub a a = replicate (length a) F32.zero.
Proof.
  induction 1 as [|x a Hx _ IH]; simpl; [reflexivity|].
  rewrite (sub_self x Hx), IH. reflexivity.
Qed.

(** Laws that the arithmetic of [TensorEmbedding] obeys bit for bit:
    [operator+] and [dot] are commutative, errors included; the dot product
    of a vector with itself is the squared norm that [cosineSimilarity] and
    [normalize] accumulate; a vector of finite components minus itself is
    the zero vector of its dimension. *)
Theorem embedding_arithmetic_laws (u v : TensorEmbedding.t) :
  TensorEmbedding.add u v = TensorEmbedding.add v u /\
  TensorEmbedding.dot u v = TensorEmbedding.dot v u /\
  TensorEmbedding.dot u u = Ok (sqnorm (TensorEmbedding.data_ u)) /\
  (Forall (fun x => F32.is_finite x = true) (TensorEmbedding.data_ u) ->
   TensorEmbedding.sub u u = Ok (TensorEmbedding.zeros (TensorEmbedding.dimensions u))).
Proof.
  split; [|split; [|split]].
  - destruct (Nat.eq_dec (TensorEmbedding.dimensions u) (TensorEmbedding.dimensions v))
      as [E|E].
    + unfold TensorEmbedding.add at 1. rewrite E, Nat.eqb_refl. cbn [negb]. rewrite <- E.
      rewrite (pointwise_spec F32.add u v E).
      unfold TensorEmbedding.add. rewrite E, Nat.eqb_refl. cbn [negb].
      rewrite (pointwise_spec F32.add v u (eq_sym E)).
      rewrite (zip_with_comm F32.add _ _ f32_add_comm). reflexivity.
    + unfold TensorEmbedding.add. rewrite (Nat.eqb_sym (TensorEmbedding.dimensions v)).
      destruct (Nat.eqb_spec (TensorEmbedding.dimensions u) (TensorEmbedding.dimensions v));
        [contradiction|reflexivity].
  - destruct (Nat.eq_dec (TensorEmbedding.dimensions u) (TensorEmbedding.dimensions v))
      as [E|E].
    + rewrite (dot_spec u v E), (dot_spec v u (eq_sym E)), dot_fold_swap. reflexivity.
    + unfold TensorEmbedding.dot. rewrite (Nat.eqb_sym (TensorEmbedding.dimensions v)).
      destruct (Nat.eqb_spec (TensorEmbedding.dimensions u) (TensorEmbedding.dimensions v));
        [contradiction|reflexivity].
  - rewrite (dot_spec u u eq_refl), dot_fold_self. reflexivity.
  - intros Hfin. unfold TensorEmbedding.sub. rewrite Nat.eqb_refl. cbn [negb].
    rewrite (pointwise_spec F32.sub u u eq_refl), (zip_with_sub_self _ Hfin). reflexivity.
Qed.

(** Instance: a vector of two finite components. *)
Lemma embedding_arithmetic_laws_witness :
  TensorEmbedding.sub (TensorEmbedding.of_data [F32.one; F32.half])
    (TensorEmbedding.of_data [F32.one; F32.half])
  = Ok (TensorEmbedding.of_data [F32.zero; F32.zero]).
Proof.
  apply (proj2 (proj2 (proj2 (embedding_arithmetic_laws
                                (TensorEmbedding.of_data [F32.one; F32.half])
                                (TensorEmbedding.of_data [F32.one; F32.half]))))).
  repeat constructor.
Defined.

(** Storing an embedding and looking names up: after a successful
    [addEmbedding(id, embedding)] the space has one entry more;
    [getEmbedding(id)] returns the entry that was stored first under the
    id, which is the new one when the id was not in use; every other id
    resolves as before. *)
Theorem addEmbedding_getEmbedding (id : string) (embedding : TensorEmbedding.t)
    (sp sp' : EmbeddingSpace.t) :
  EmbeddingSpace.addEmbedding id embedding sp = Ok sp' ->
  EmbeddingSpace.size sp' = S (EmbeddingSpace.size sp) /\
  EmbeddingSpace.getEmbedding id sp'
  = Some (default embedding (EmbeddingSpace.getEmbedding id sp)) /\
  (forall other, other <> id ->
     EmbeddingSpace.getEmbedding other sp' = EmbeddingSpace.getEmbedding other sp).
Proof.
  intros Hadd.
  destruct (addEmbedding_cases id embedding sp) as [[_ E]|[_ E]]; rewrite E in Hadd;
    [discriminate|]. injection Hadd as <-.
  unfold EmbeddingSpace.size, EmbeddingSpace.getEmbedding. simpl.
  split; [rewrite length_app; simpl; lia|]. split.
  - rewrite lookup_first_app. destruct (EmbeddingSpace.lookup_first id _); [reflexivity|].
    simpl. rewrite String.eqb_refl. reflexivity.
  - intros other Hne. rewrite lookup_first_app.
    destruct (EmbeddingSpace.lookup_first other _); [reflexivity|].
    simpl. destruct (String.eqb_spec id other); [congruence|reflexivity].
Qed.

(** Instance: "cat" stored in the empty space of dimension 3. *)
Lemma addEmbedding_getEmbedding_witness :
  EmbeddingSpace.addEmbedding "cat" (TensorEmbedding.of_data [F32.one; F32.zero; F32.zero])
    (EmbeddingSpace.empty 3)
  = Ok {| EmbeddingSpace.dimensions_ := 3;
          EmbeddingSpace.embeddings_ :=
            [("cat", TensorEmbedding.of_data [F32.one; F32.zero; F32.zero])] |} /\
  EmbeddingSpace.getEmbedding "cat"
    {| EmbeddingSpace.dimensions_ := 3;
       EmbeddingSpace.embeddings_ :=
         [("cat", TensorEmbedding.of_data [F32.one; F32.zero; F32.zero])] |}
  = Some (TensorEmbedding.of_data [F32.one; F32.zero; F32.zero]).
Proof.
  split; [reflexivity|].
  exact (proj1 (proj2 (addEmbedding_getEmbedding "cat"
                         (TensorEmbedding.of_data [F32.one; F32.zero; F32.zero])
                         (EmbeddingSpace.empty 3) _ eq_refl))).
Defined.

(** ** What a pass through the network changes *)

Lemma forward_fields input L out L' :
  NeuralLayer.forward input L = Ok (out, L') ->
  NeuralLayer.weights_ L' = NeuralLayer.weights_ L /\
  NeuralLayer.biases_ L' = NeuralLayer.biases_ L /\
  NeuralLayer.activation_ L' = NeuralLayer.activation_ L /\
  exists pre, out = map (NeuralLayer.activation_ L) pre.
Proof.
  unfold NeuralLayer.forward.
  destruct (NeuralLayer.preactivations L input _) as [pre| |]; simpl; try discriminate.
  intros [= <- <-]. simpl. eauto.
Qed.

Lemma backward_fields gradient learning_rate L input_gradient L' :
  NeuralLayer.backward gradient learning_rate L = Ok (input_gradient, L') ->
  NeuralLayer.activation_ L' = NeuralLayer.activation_ L.
Proof.
  unfold NeuralLayer.backward.
  destruct (NeuralLayer.preact_gradients L gradient _) as [gs| |]; simpl; try discriminate.
  destruct (for_loop _ _ _) as [[[ig W] B]| |]; simpl; try discriminate.
  intros [= <- <-]. reflexivity.
Qed.

Lemma forward_layers_fields input layers out layers' :
  LearnableNetwork.forward_layers input layers = Ok (out, layers') ->
  Forall2 (fun L L' => NeuralLayer.weights_ L' = NeuralLayer.weights_ L /\
                       NeuralLayer.biases_ L' = NeuralLayer.biases_ L /\
                       NeuralLayer.activation_ L' = NeuralLayer.activation_ L)
          layers layers'.
Proof.
  revert input out layers'. induction layers as [|L rest IH]; intros input out layers'; simpl.
  - intros [= <- <-]. constructor.
  - destruct (NeuralLayer.forward input L) as [[out1 L1]| |] eqn:E; simpl; try discriminate.
    destruct (LearnableNetwork.forward_layers out1 rest) as [[final rest']| |] eqn:Er;
      simpl; try discriminate.
    intros [= <- <-]. destruct (forward_fields _ _ _ _ E) as (Hw & Hb & Ha & _).
    constructor; [auto|]. eapply IH. exact Er.
Qed.

Lemma forward_layers_relu input layers out layers' :
  LearnableNetwork.forward_layers input layers = Ok (out, layers') ->
  layers <> [] -> relu_layers layers -> Forall (fun x => has_sign false x) out.
Proof.
  revert input out layers'. induction layers as [|L rest IH]; intros input out layers';
    simpl; [congruence|].
  destruct (NeuralLayer.forward input L) as [[out1 L1]| |] eqn:E; simpl; try discriminate.
  destruct (LearnableNetwork.forward_layers out1 rest) as [[final rest']| |] eqn:Er;
    simpl; try discriminate.
  intros [= <- <-] _ Hrelu. inversion Hrelu as [|? ? HL Hrest]; subst.
  destruct rest as [|L2 rest].
  - simpl in Er. injection Er as <- <-.
    destruct (forward_fields _ _ _ _ E) as (_ & _ & _ & pre & ->). rewrite HL.
    apply List.Forall_forall. intros x Hx. apply in_map_iff in Hx as (p & <- & _).
    apply relu_sign.
  - eapply IH; [exact Er|discriminate|exact Hrest].
Qed.

Lemma backward_layers_fields learning_rate gradient visited visited' :
  LearnableNetwork.backward_layers learning_rate gradient visited = Ok visited' ->
  Forall2 (fun L L' => NeuralLayer.activation_ L' = NeuralLayer.activation_ L)
          visited visited'.
Proof.
  revert gradient visited'. induction visited as [|L rest IH]; intros gradient visited'; simpl.
  - intros [= <-]. constructor.
  - destruct (NeuralLayer.backward gradient learning_rate L) as [[g L1]| |] eqn:E; simpl;
      try discriminate.
    destruct (LearnableNetwork.backward_layers learning_rate g rest) as [rest'| |] eqn:Er;
      simpl; try discriminate.
    intros [= <-]. constructor; [exact (backward_fields _ _ _ _ _ E)|].
    eapply IH. exact Er.
Qed.

Lemma relu_layers_Forall2 layers layers' :
  Forall2 (fun L L' => NeuralLayer.activation_ L' = NeuralLayer.activation_ L) layers layers' ->
  relu_layers layers -> relu_layers layers'.
Proof.
  unfold relu_layers. induction 1 as [|L L' layers layers' Ha _ IH]; intros Hr;
    [constructor|].
  inversion Hr; subst. constructor; [congruence|auto].
Qed.

Lemma transform_relu input l out l' :
  EmbeddingLearner.transform input l = Ok (out, l') ->
  relu_layers (LearnableNetwork.layers_ (EmbeddingLearner.network_ l)) ->
  relu_layers (LearnableNetwork.layers_ (EmbeddingLearner.network_ l')) /\
  Forall2 (fun L L' => NeuralLayer.weights_ L' = NeuralLayer.weights_ L /\
                       NeuralLayer.biases_ L' = NeuralLayer.biases_ L)
          (LearnableNetwork.layers_ (EmbeddingLearner.network_ l))
          (LearnableNetwork.layers_ (EmbeddingLearner.network_ l')) /\
  (LearnableNetwork.layers_ (EmbeddingLearner.network_ l) <> [] ->
   Forall (fun x => has_sign false x) (TensorEmbedding.data_ out)).
Proof.
  unfold EmbeddingLearner.transform, LearnableNetwork.forward.
  destruct (negb _); [discriminate|].
  destruct (LearnableNetwork.forward_layers _ _) as [[o layers']| |] eqn:E; simpl;
    try discriminate.
  intros [= <- <-] Hrelu. simpl. pose proof (forward_layers_fields _ _ _ _ E) as Hf.
  split; [|split].
  - eapply relu_layers_Forall2; [|exact Hrelu].
    eapply Forall2_impl; [exact Hf|]. intros L L' (_ & _ & Ha). exact Ha.
  - eapply Forall2_impl; [exact Hf|]. intros L L' (Hw & Hb & _). auto.
  - intros Hne. eapply forward_layers_relu; eassumption.
Qed.

Lemma train_relu input target net loss net' :
  LearnableNetwork.train input target net = Ok (loss, net') ->
  relu_layers (LearnableNetwork.layers_ net) -> relu_layers (LearnableNetwork.layers_ net').
Proof.
  unfold LearnableNetwork.train, LearnableNetwork.forward, LearnableNetwork.backward.
  destruct (LearnableNetwork.forward_layers _ _) as [[o layers1]| |] eqn:E; simpl;
    try discriminate.
  destruct (LearnableNetwork.errors _ _ _) as [es| |]; simpl; try discriminate.
  destruct (LearnableNetwork.backward_layers _ _ _) as [visited| |] eqn:Eb; simpl;
    try discriminate.
  intros [= <- <-] Hrelu. simpl.
  pose proof (forward_layers_fields _ _ _ _ E) as Hf.
  pose proof (backward_layers_fields _ _ _ _ Eb) as Hb.
  apply Forall2_rev in Hb. rewrite rev_involutive in Hb.
  eapply relu_layers_Forall2; [exact Hb|].
  eapply relu_layers_Forall2; [|exact Hrelu].
  eapply Forall2_impl; [exact Hf|]. intros L L' (_ & _ & Ha). exact Ha.
Qed.

Lemma learnFromSimilarity_relu embedding1 embedding2 target l loss l' :
  EmbeddingLearner.learnFromSimilarity embedding1 embedding2 target l = Ok (loss, l') ->
  relu_layers (LearnableNetwork.layers_ (EmbeddingLearner.network_ l)) ->
  relu_layers (LearnableNetwork.layers_ (EmbeddingLearner.network_ l')).
Proof.
  unfold EmbeddingLearner.learnFromSimilarity.
  destruct (EmbeddingLearner.transform embedding1 l) as [[t1 l1]| |] eqn:E1; simpl;
    try discriminate.
  destruct (EmbeddingLearner.transform embedding2 l1) as [[t2 l2]| |] eqn:E2; simpl;
    try discriminate.
  destruct (for_loop _ _ _) as [target1| |]; simpl; try discriminate.
  destruct (LearnableNetwork.train _ _ _) as [[tl net]| |] eqn:Et; simpl; try discriminate.
  intros [= <- <-] Hrelu. simpl.
  eapply train_relu; [exact Et|].
  apply (transform_relu _ _ _ _ E2). apply (transform_relu _ _ _ _ E1). exact Hrelu.
Qed.

Lemma make_relu embedding_dim learning_rate drawn1 drawn2 :
  relu_layers (LearnableNetwork.layers_
                 (EmbeddingLearner.network_
                    (EmbeddingLearner.make embedding_dim learning_rate drawn1 drawn2))).
Proof. repeat constructor. Qed.

(** ** The learner seen from the facade *)

(** [transformEmbedding] on a facade that keeps one dimension and whose
    layers are ReLU layers: an embedding of another dimension is refused
    with the dimension-mismatch error; one of the facade's dimension gives
    an embedding of that dimension whose components are neither negative
    nor NaN (the last layer is a ReLU, and [std::max(0.0f, x)] is 0.0 on a
    NaN), and the pass changes no weight and no bias. *)
Theorem transformEmbedding_output (embedding : TensorEmbedding.t)
    (r : CognitiveFusionReactor.t) :
  consistent r ->
  relu_layers (LearnableNetwork.layers_
                 (EmbeddingLearner.network_ (CognitiveFusionReactor.learner_ r))) ->
  (TensorEmbedding.dimensions embedding <> CognitiveFusionReactor.embedding_dim_ r ->
   CognitiveFusionReactor.transformEmbedding embedding r = Throw "Input dimension mismatch") /\
  (TensorEmbedding.dimensions embedding = CognitiveFusionReactor.embedding_dim_ r ->
   exists out r',
     CognitiveFusionReactor.transformEmbedding embedding r = Ok (out, r') /\
     TensorEmbedding.dimensions out = CognitiveFusionReactor.embedding_dim_ r /\
     Forall (fun x => has_sign false x) (TensorEmbedding.data_ out) /\
     Forall2 (fun L L' => NeuralLayer.weights_ L' = NeuralLayer.weights_ L /\
                          NeuralLayer.biases_ L' = NeuralLayer.biases_ L)
       (LearnableNetwork.layers_
          (EmbeddingLearner.network_ (CognitiveFusionReactor.learner_ r)))
       (LearnableNetwork.layers_
          (EmbeddingLearner.network_ (CognitiveFusionReactor.learner_ r'))) /\
     consistent r' /\
     relu_layers (LearnableNetwork.layers_
                    (EmbeddingLearner.network_ (CognitiveFusionReactor.learner_ r')))).
Proof.
  intros (Hd & Hl & Hu & Hs) Hrelu. unfold CognitiveFusionReactor.transformEmbedding. split.
  - intros Hne. rewrite transform_mismatch by congruence. reflexivity.
  - intros Hdim.
    destruct (transform_ok embedding _ Hs ltac:(congruence)) as (out & l' & E & Hout & Hs' & Hd').
    destruct (transform_relu _ _ _ _ E Hrelu) as (Hrelu' & Hsame & Hsign).
    rewrite E. simpl. exists out, (CognitiveFusionReactor.with_learner l' r).
    split; [reflexivity|]. split; [congruence|].
    split; [apply Hsign; apply Hs|]. split; [exact Hsame|].
    split; [|exact Hrelu'].
    unfold consistent. simpl. split; [exact Hd|]. split; [congruence|]. auto.
Qed.

(** Instance: the facade [lab], of dimension 1. *)
Lemma transformEmbedding_output_witness :
  consistent lab /\
  CognitiveFusionReactor.transformEmbedding (TensorEmbedding.of_data [F32.one; F32.one]) lab
    = Throw "Input dimension mismatch" /\
  exists out r',
    CognitiveFusionReactor.transformEmbedding (TensorEmbedding.of_data [F32.minus_one]) lab
      = Ok (out, r') /\
    Forall (fun x => has_sign false x) (TensorEmbedding.data_ out).
Proof.
  assert (Hlab : consistent lab) by (apply make_consistent; repeat constructor).
  split; [exact Hlab|]. split.
  - apply (proj1 (transformEmbedding_output (TensorEmbedding.of_data [F32.one; F32.one]) lab
                    Hlab (make_relu _ _ _ _))).
    discriminate.
  - destruct (proj2 (transformEmbedding_output (TensorEmbedding.of_data [F32.minus_one]) lab
                       Hlab (make_relu _ _ _ _)) eq_refl)
      as (out & r' & H1 & _ & H2 & _).
    exists out, r'. auto.
Defined.

(** The loss that [train] returns is never negative (it may be NaN): it is
    a sum of squares divided by the number of outputs. On a network
    without layers the output is the input itself, and for the empty input
    the division is 0/0: the loss is NaN. *)
Theorem train_loss_never_negative (input target : list f32) (net : LearnableNetwork.t) :
  (forall loss net',
     LearnableNetwork.train input target net = Ok (loss, net') ->
     nonneg_or_nan loss /\ F32.ltb loss F32.zero = false) /\
  (forall learning_rate,
     fst <$> LearnableNetwork.train [] target (LearnableNetwork.make learning_rate)
     = Ok S754_nan).
Proof.
  split; [|reflexivity].
  intros loss net'. unfold LearnableNetwork.train.
  destruct (LearnableNetwork.forward input net) as [[output net1]| |]; simpl; try discriminate.
  destruct (LearnableNetwork.errors output target 0) as [es| |]; simpl; try discriminate.
  destruct (LearnableNetwork.backward _ net1) as [net2| |]; simpl; try discriminate.
  intros [= <- <-].
  assert (H : nonneg_or_nan
                (F32.div (fold_left (fun loss error => F32.add loss (F32.mul error error))
                                    es F32.zero)
                         (F32.of_Z (Z.of_nat (length output))))).
  { apply div_nonneg_or_nan; [|apply of_nat_nonneg_or_nan].
    apply (squares_nonneg_or_nan (fun error => error)). reflexivity. }
  split; [exact H|apply nonneg_or_nan_not_negative; exact H].
Qed.

(** Instance: one training step of the network of [lab]. *)
Lemma train_loss_never_negative_witness :
  exists loss net',
    LearnableNetwork.train [F32.one] [F32.zero]
      (EmbeddingLearner.network_ (CognitiveFusionReactor.learner_ lab)) = Ok (loss, net') /\
    F32.ltb loss F32.zero = false.
Proof.
  destruct (LearnableNetwork.train [F32.one] [F32.zero]
              (EmbeddingLearner.network_ (CognitiveFusionReactor.learner_ lab)))
    as [[loss net']| |] eqn:E; try (vm_compute in E; discriminate).
  exists loss, net'. split; [reflexivity|].
  exact (proj2 (proj1 (train_loss_never_negative [F32.one] [F32.zero]
                         (EmbeddingLearner.network_ (CognitiveFusionReactor.learner_ lab)))
                  loss net' E)).
Defined.

Lemma consistent_getEmbedding name r e :
  consistent r ->
  EmbeddingSpace.getEmbedding name (CognitiveFusionReactor.embedding_space_ r) = Some e ->
  TensorEmbedding.dimensions e
  = EmbeddingLearner.embedding_dim_ (CognitiveFusionReactor.learner_ r).
Proof.
  intros (Hd & Hl & Hu & _) He. apply lookup_first_In in He.
  unfold uniform in Hu. rewrite List.Forall_forall in Hu.
  pose proof (Hu _ He) as Hdim. simpl in Hdim. congruence.
Qed.

Lemma learnSimilarity_step concept1 concept2 target r :
  consistent r ->
  exists loss r',
    CognitiveFusionReactor.learnSimilarity concept1 concept2 target r = Ok (loss, r') /\
    consistent r' /\
    (relu_layers (LearnableNetwork.layers_
                    (EmbeddingLearner.network_ (CognitiveFusionReactor.learner_ r))) ->
     relu_layers (LearnableNetwork.layers_
                    (EmbeddingLearner.network_ (CognitiveFusionReactor.learner_ r')))) /\
    exists l, r' = CognitiveFusionReactor.with_learner l r.
Proof.
  intros Hr. unfold CognitiveFusionReactor.learnSimilarity.
  assert (Hsame : r = CognitiveFusionReactor.with_learner (CognitiveFusionReactor.learner_ r) r)
    by (destruct r; reflexivity).
  destruct (EmbeddingSpace.getEmbedding concept1 _) as [emb1|] eqn:E1;
    [|exists F32.minus_one, r; eauto 10].
  destruct (EmbeddingSpace.getEmbedding concept2 _) as [emb2|] eqn:E2;
    [|exists F32.minus_one, r; eauto 10].
  pose proof Hr as (Hd & Hl & Hu & Hs).
  destruct (learnFromSimilarity_ok emb1 emb2 target _ Hs
              (consistent_getEmbedding _ _ _ Hr E1) (consistent_getEmbedding _ _ _ Hr E2))
    as (loss & l' & E & Hs' & Hd').
  rewrite E. simpl. exists loss, (CognitiveFusionReactor.with_learner l' r).
  split; [reflexivity|]. split; [|split; [|eauto]].
  - unfold consistent. simpl. split; [exact Hd|]. split; [congruence|]. auto.
  - simpl. apply (learnFromSimilarity_relu _ _ _ _ _ _ E).
Qed.

(** Learning can go on: on a facade that keeps one dimension every run of
    [learnSimilarity] calls returns normally, one loss per call, whatever
    the names and the targets. The run changes the learner and nothing
    else: the store, the embedding space with its stored vectors, and the
    relevance and attention tables are as before, so [querySimilar] answers
    as it did before the run. *)
Theorem learnSimilarity_runs (calls : list (string * string * f32))
    (r : CognitiveFusionReactor.t) :
  consistent r ->
  exists losses r',
    learnSimilarity_all calls r = Ok (losses, r') /\
    length losses = length calls /\
    consistent r' /\
    (relu_layers (LearnableNetwork.layers_
                    (EmbeddingLearner.network_ (CognitiveFusionReactor.learner_ r))) ->
     relu_layers (LearnableNetwork.layers_
                    (EmbeddingLearner.network_ (CognitiveFusionReactor.learner_ r')))) /\
    CognitiveFusionReactor.atomspace_ r' = CognitiveFusionReactor.atomspace_ r /\
    CognitiveFusionReactor.embedding_space_ r' = CognitiveFusionReactor.embedding_space_ r /\
    CognitiveFusionReactor.relevance_scores_ r' = CognitiveFusionReactor.relevance_scores_ r /\
    CognitiveFusionReactor.attention_bank_ r' = CognitiveFusionReactor.attention_bank_ r /\
    (forall std_sort query k threshold,
       CognitiveFusionReactor.querySimilar std_sort query k threshold r'
       = CognitiveFusionReactor.querySimilar std_sort query k threshold r).
Proof.
  revert r. induction calls as [|[[c1 c2] target] calls IH]; intros r Hr; simpl.
  - exists [], r. split; [reflexivity|]. split; [reflexivity|]. split; [exact Hr|].
    split; [auto|]. repeat split.
  - destruct (learnSimilarity_step c1 c2 target r Hr) as (loss & r1 & -> & Hr1 & Hrelu1 & l & ->).
    simpl.
    destruct (IH _ Hr1) as (losses & r2 & -> & Hlen & Hr2 & Hrelu2 & Ha & He & Hrel & Hatt & Hq).
    simpl. exists (loss :: losses), r2. split; [reflexivity|].
    split; [simpl; congruence|]. split; [exact Hr2|]. split; [auto|].
    simpl in *. repeat split; assumption.
Qed.

(** Instance: two calls on [pets], the second with a name that has no
    embedding. *)
Lemma learnSimilarity_runs_witness :
  consistent pets /\
  exists losses r',
    learnSimilarity_all [("cat", "dog", c0_9); ("cat", "bird", c0_2)] pets = Ok (losses, r') /\
    length losses = 2 /\
    CognitiveFusionReactor.embedding_space_ r' = CognitiveFusionReactor.embedding_space_ pets.
Proof.
  assert (Hlab : consistent lab) by (apply make_consistent; repeat constructor).
  assert (Hpets : consistent pets).
  { unfold pets. repeat apply state_of_addConcept_consistent; exact Hlab. }
  split; [exact Hpets|].
  destruct (learnSimilarity_runs [("cat", "dog", c0_9); ("cat", "bird", c0_2)] pets Hpets)
    as (losses & r' & H1 & H2 & _ & _ & _ & H3 & _).
  exists losses, r'. auto.
Defined.

(** ** Registration, removal and broadcast *)

Lemma for_loop_at {A B} (body : A -> B -> outcome A) (pre l : list B) acc :
  for_loop (fun acc i => x ← at_ (pre ++ l) i; body acc x) (seq (length pre) (length l)) acc
  = for_each body l acc.
Proof.
  revert pre acc. induction l as [|x l IH]; intros pre acc; simpl; [reflexivity|].
  assert (Hx : at_ (pre ++ x :: l) (length pre) = Ok x)
    by (unfold at_; rewrite (list_lookup_middle pre l x (length pre) eq_refl); reflexivity).
  rewrite Hx. simpl. destruct (body acc x) as [acc'| |]; simpl; try reflexivity.
  rewrite (cons_middle x pre l), app_assoc.
  replace (S (length pre)) with (length (pre ++ [x])) by (rewrite length_app; simpl; lia).
  apply IH.
Qed.

Lemma for_loop_elements {A B} (body : A -> B -> outcome A) (l : list B) acc :
  for_loop (fun acc i => x ← at_ l i; body acc x) (seq 0 (length l)) acc
  = for_each body l acc.
Proof. exact (for_loop_at body [] l acc). Qed.

Lemma has_id_spec agent_id heap p a :
  heap !! p = Some a -> has_id agent_id heap p = String.eqb (Agent.id_ a) agent_id.
Proof. intros H. unfold has_id. rewrite H. reflexivity. Qed.

Lemma deref_live heap p a : heap !! p = Some a -> AgentHeap.deref heap p = Ok a.
Proof. intros H. unfold AgentHeap.deref. rewrite H. reflexivity. Qed.

Lemma unregister_each agent_id heap agents kept :
  List.Forall (fun p => is_Some (heap !! p)) agents ->
  for_each
    (fun kept p =>
       a ← AgentHeap.deref heap p;
       mret (if String.eqb (Agent.id_ a) agent_id then kept else kept ++ [p]))
    agents kept
  = Ok (kept ++ List.filter (fun p => negb (has_id agent_id heap p)) agents).
Proof.
  intros Hlive. revert kept. induction Hlive as [|p agents [a Ha] _ IH]; intros kept; simpl.
  - rewrite app_nil_r. reflexivity.
  - rewrite (deref_live heap p a Ha). simpl.
    rewrite (has_id_spec agent_id heap p a Ha), IH.
    destruct (String.eqb (Agent.id_ a) agent_id); simpl; [reflexivity|].
    rewrite <- app_assoc. reflexivity.
Qed.

Lemma find_agent_filtered agent_id other heap agents :
  List.Forall (fun p => is_Some (heap !! p)) agents ->
  AgentOrchestrator.find_agent other heap
    (List.filter (fun p => negb (has_id agent_id heap p)) agents)
  = if String.eqb other agent_id then Ok None
    else AgentOrchestrator.find_agent other heap agents.
Proof.
  induction 1 as [|p agents [a Ha] _ IH]; simpl.
  - destruct (String.eqb other agent_id); reflexivity.
  - rewrite (has_id_spec agent_id heap p a Ha), (deref_live heap p a Ha). simpl.
    destruct (String.eqb_spec (Agent.id_ a) agent_id) as [E|E]; simpl.
    + rewrite IH. destruct (String.eqb_spec other agent_id) as [E'|E']; [reflexivity|].
      destruct (String.eqb_spec (Agent.id_ a) other); [congruence|reflexivity].
    + rewrite (deref_live heap p a Ha). simpl.
      destruct (String.eqb_spec (Agent.id_ a) other) as [E'|E'].
      * destruct (String.eqb_spec other agent_id); [congruence|reflexivity].
      * exact IH.
Qed.

(** [unregisterAgent(id)] on an orchestrator whose pointers are live
    removes every agent that has the id and keeps the others in their
    order. Afterwards no registered agent has the id, [getAgent(id)] is
    null, a message addressed to the id is dropped without effect, and the
    lookup of every other id is as before. *)
Theorem unregisterAgent_removes_all (agent_id : string) (o : AgentOrchestrator.t)
    (heap : gmap AgentPtr Agent.t) :
  registered_live o heap ->
  exists o',
    AgentOrchestrator.unregisterAgent agent_id heap o = Ok o' /\
    AgentOrchestrator.agents_ o'
    = List.filter (fun p => negb (has_id agent_id heap p)) (AgentOrchestrator.agents_ o) /\
    registered_live o' heap /\
    ~ registered agent_id o' heap /\
    AgentOrchestrator.getAgent agent_id heap o' = Ok None /\
    (forall message, AgentMessage.to message = agent_id ->
       AgentOrchestrator.sendMessage message o' heap = Ok heap) /\
    (forall other, other <> agent_id ->
       AgentOrchestrator.getAgent other heap o' = AgentOrchestrator.getAgent other heap o).
Proof.
  intros Hlive. unfold AgentOrchestrator.unregisterAgent.
  rewrite (for_loop_elements
             (fun kept p =>
                a ← AgentHeap.deref heap p;
                mret (if String.eqb (Agent.id_ a) agent_id then kept else kept ++ [p]))).
  rewrite (unregister_each agent_id heap _ [] Hlive). simpl.
  eexists. split; [reflexivity|]. simpl. split; [reflexivity|].
  assert (Hnone : AgentOrchestrator.find_agent agent_id heap
                    (List.filter (fun p => negb (has_id agent_id heap p))
                       (AgentOrchestrator.agents_ o)) = Ok None).
  { rewrite (find_agent_filtered agent_id agent_id heap _ Hlive), String.eqb_refl.
    reflexivity. }
  split; [|split; [|split; [exact Hnone|split]]].
  - unfold registered_live in *. simpl. rewrite List.Forall_forall in *.
    intros p Hp. apply filter_In in Hp as [Hp _]. auto.
  - intros (p & a & Hin & Ha & Hid). simpl in Hin. apply filter_In in Hin as [_ Hf].
    rewrite (has_id_spec agent_id heap p a Ha), Hid, String.eqb_refl in Hf. discriminate.
  - intros message Hto. unfold AgentOrchestrator.sendMessage, AgentOrchestrator.getAgent.
    simpl. rewrite Hto, Hnone. reflexivity.
  - intros other Hne. unfold AgentOrchestrator.getAgent. simpl.
    rewrite (find_agent_filtered agent_id other heap _ Hlive).
    destruct (String.eqb_spec other agent_id); [contradiction|reflexivity].
Qed.

(** Instance: "agent2" removed from the orchestrator of the test. *)
Lemma unregisterAgent_removes_all_witness :
  registered_live demo_orchestrator demo_heap /\
  exists o',
    AgentOrchestrator.unregisterAgent "agent2" demo_heap demo_orchestrator = Ok o' /\
    AgentOrchestrator.agents_ o' = [1%positive] /\
    AgentOrchestrator.sendMessage demo_message o' demo_heap = Ok demo_heap.
Proof.
  assert (Hlive : registered_live demo_orchestrator demo_heap).
  { repeat constructor; eexists; reflexivity. }
  split; [exact Hlive|].
  destruct (unregisterAgent_removes_all "agent2" demo_orchestrator demo_heap Hlive)
    as (o' & H1 & H2 & _ & _ & _ & H3 & _).
  exists o'. split; [exact H1|]. split; [rewrite H2; reflexivity|].
  apply H3. reflexivity.
Defined.

Lemma receiveMessage_live heap p a message :
  heap !! p = Some a ->
  AgentHeap.receiveMessage p message heap = Ok (<[p := Agent.push message a]> heap).
Proof.
  intros H. unfold AgentHeap.receiveMessage. rewrite (deref_live heap p a H). reflexivity.
Qed.

Lemma broadcast_each message heap agents :
  List.Forall (fun p => is_Some (heap !! p)) agents ->
  exists heap',
    for_each
      (fun heap p =>
         a ← AgentHeap.deref heap p;
         if String.eqb (Agent.id_ a) (AgentMessage.from message) then Ok heap
         else AgentHeap.receiveMessage p message heap)
      agents heap
    = Ok heap' /\
    forall q,
      heap' !! q
      = (fun a => if String.eqb (Agent.id_ a) (AgentMessage.from message) then a
                  else iterate (Agent.push message) (count_occ Pos.eq_dec agents q) a)
          <$> heap !! q.
Proof.
  intros Hlive. revert heap Hlive.
  induction agents as [|p agents IH]; intros heap Hlive; simpl.
  - exists heap. split; [reflexivity|]. intros q.
    destruct (heap !! q) as [a|]; simpl; [|reflexivity].
    destruct (String.eqb _ _); reflexivity.
  - inversion Hlive as [|? ? [a Ha] Hrest]; subst.
    rewrite (deref_live heap p a Ha). simpl.
    destruct (String.eqb (Agent.id_ a) (AgentMessage.from message)) eqn:Eid.
    + simpl. destruct (IH heap Hrest) as (heap' & -> & Hq). exists heap'.
      split; [reflexivity|]. intros q. rewrite Hq.
      destruct (Pos.eq_dec p q) as [<-|Hne]; [|reflexivity].
      rewrite Ha. simpl. rewrite Eid. reflexivity.
    + rewrite (receiveMessage_live heap p a message Ha). simpl.
      destruct (IH (<[p := Agent.push message a]> heap)) as (heap' & -> & Hq).
      { eapply List.Forall_impl; [|exact Hrest]. intros q Hq. simpl in Hq.
        destruct (decide (p = q)) as [<-|Hne];
          [rewrite lookup_insert_eq; eauto|rewrite lookup_insert_ne by exact Hne; exact Hq]. }
      exists heap'. split; [reflexivity|]. intros q. rewrite Hq.
      destruct (Pos.eq_dec p q) as [<-|Hne].
      * rewrite lookup_insert_eq, Ha. simpl. rewrite Eid. reflexivity.
      * rewrite lookup_insert_ne by exact Hne. reflexivity.
Qed.

(** [broadcast(message)] on an orchestrator whose pointers are live returns
    normally. Every agent whose id is not [message.from] gets the message
    appended to its queue once for each time it is registered, so exactly
    once when no agent is registered twice; agents with the sender's id and
    agents that are not registered keep their queues. *)
Theorem broadcast_delivery (message : AgentMessage.t) (o : AgentOrchestrator.t)
    (heap : gmap AgentPtr Agent.t) :
  registered_live o heap ->
  exists heap',
    AgentOrchestrator.broadcast message o heap = Ok heap' /\
    (forall p,
       heap' !! p
       = (fun a => if String.eqb (Agent.id_ a) (AgentMessage.from message) then a
                   else iterate (Agent.push message)
                          (count_occ Pos.eq_dec (AgentOrchestrator.agents_ o) p) a)
           <$> heap !! p) /\
    (List.NoDup (AgentOrchestrator.agents_ o) ->
     forall p a, In p (AgentOrchestrator.agents_ o) -> heap !! p = Some a ->
       Agent.id_ a <> AgentMessage.from message ->
       heap' !! p = Some (Agent.push message a)) /\
    (forall p a, heap !! p = Some a -> Agent.id_ a = AgentMessage.from message ->
       heap' !! p = Some a) /\
    (forall p, ~ In p (AgentOrchestrator.agents_ o) -> heap' !! p = heap !! p).
Proof.
  intros Hlive. unfold AgentOrchestrator.broadcast.
  rewrite (for_loop_elements
             (fun heap p =>
                a ← AgentHeap.deref heap p;
                if String.eqb (Agent.id_ a) (AgentMessage.from message) then Ok heap
                else AgentHeap.receiveMessage p message heap)).
  destruct (broadcast_each message heap _ Hlive) as (heap' & -> & Hq).
  exists heap'. split; [reflexivity|]. split; [exact Hq|]. split; [|split].
  - intros Hnodup p a Hin Ha Hid. rewrite Hq, Ha. simpl.
    destruct (String.eqb_spec (Agent.id_ a) (AgentMessage.from message)); [contradiction|].
    assert (Hc : count_occ Pos.eq_dec (AgentOrchestrator.agents_ o) p = 1).
    { pose proof (proj1 (NoDup_count_occ Pos.eq_dec _) Hnodup p) as Hle.
      pose proof (proj1 (count_occ_In Pos.eq_dec _ p) Hin). lia. }
    rewrite Hc. reflexivity.
  - intros p a Ha Hid. rewrite Hq, Ha. simpl. rewrite Hid, String.eqb_refl. reflexivity.
  - intros p Hnot. rewrite Hq.
    rewrite (proj1 (count_occ_not_In Pos.eq_dec _ p) Hnot).
    destruct (heap !! p) as [a|]; simpl; [|reflexivity].
    destruct (String.eqb _ _); reflexivity.
Qed.

(** Instance: a broadcast from "test_agent" reaches "agent2" only. *)
Lemma broadcast_delivery_witness :
  registered_live demo_orchestrator demo_heap /\
  exists heap',
    AgentOrchestrator.broadcast demo_message demo_orchestrator demo_heap = Ok heap' /\
    heap' !! 2%positive = Some (Agent.push demo_message (Agent.make "agent2" "Agent 2")) /\
    heap' !! 1%positive = Some (Agent.make "test_agent" "Test Agent").
Proof.
  assert (Hlive : registered_live demo_orchestrator demo_heap).
  { repeat constructor; eexists; reflexivity. }
  split; [exact Hlive|].
  destruct (broadcast_delivery demo_message demo_orchestrator demo_heap Hlive)
    as (heap' & H1 & _ & H2 & H3 & _).
  exists heap'. split; [exact H1|]. split.
  - apply H2; [|right; left; reflexivity|reflexivity|discriminate].
    constructor; [simpl; intros [H|[]]; discriminate|].
    constructor; [intros []|constructor].
  - apply H3; reflexivity.
Defined.

Lemma find_agent_app agent_id heap agents1 agents2 :
  List.Forall (fun p => is_Some (heap !! p)) agents1 ->
  AgentOrchestrator.find_agent agent_id heap (agents1 ++ agents2)
  = match AgentOrchestrator.find_agent agent_id heap agents1 with
    | Ok None => AgentOrchestrator.find_agent agent_id heap agents2
    | found => found
    end.
Proof.
  induction 1 as [|p agents1 [a Ha] _ IH]; simpl; [reflexivity|].
  rewrite (deref_live heap p a Ha). simpl.
  destruct (String.eqb (Agent.id_ a) agent_id); [reflexivity|exact IH].
Qed.

(** [registerAgent] with a live pointer appends the agent, whatever its id:
    the count grows by one even when the id (or the very agent) is
    registered already. [getAgent] of the agent's id then returns the agent
    that was registered first under that id, which is the new one only
    when the id was not in use; the lookup of every other id is as
    before. *)
Theorem registerAgent_getAgent (agent : AgentPtr) (a : Agent.t) (o : AgentOrchestrator.t)
    (heap : gmap AgentPtr Agent.t) :
  registered_live o heap -> heap !! agent = Some a ->
  exists o',
    AgentOrchestrator.registerAgent agent heap o = Ok o' /\
    AgentOrchestrator.agents_ o' = AgentOrchestrator.agents_ o ++ [agent] /\
    AgentOrchestrator.getAgentCount o' = S (AgentOrchestrator.getAgentCount o) /\
    registered_live o' heap /\
    AgentOrchestrator.getAgent (Agent.id_ a) heap o'
    = Ok (Some (match AgentOrchestrator.getAgent (Agent.id_ a) heap o with
                | Ok (Some earlier) => earlier
                | _ => agent
                end)) /\
    (forall other, other <> Agent.id_ a ->
       AgentOrchestrator.getAgent other heap o' = AgentOrchestrator.getAgent other heap o).
Proof.
  intros Hlive Ha. unfold AgentOrchestrator.registerAgent.
  rewrite (deref_live heap agent a Ha). simpl. eexists. split; [reflexivity|]. simpl.
  split; [reflexivity|].
  split; [unfold AgentOrchestrator.getAgentCount; simpl; rewrite length_app; simpl; lia|].
  split; [|split].
  - unfold registered_live in *. simpl. apply Forall_app. split; [exact Hlive|].
    constructor; [rewrite Ha; eauto|constructor].
  - unfold AgentOrchestrator.getAgent. simpl. rewrite (find_agent_app _ _ _ _ Hlive).
    destruct (find_agent_cases (Agent.id_ a) heap _ Hlive)
      as [(p & b & -> & _)|[-> _]]; [reflexivity|].
    simpl. rewrite (deref_live heap agent a Ha). simpl. rewrite String.eqb_refl. reflexivity.
  - intros other Hne. unfold AgentOrchestrator.getAgent. simpl.
    rewrite (find_agent_app _ _ _ _ Hlive).
    destruct (find_agent_cases other heap _ Hlive) as [(p & b & -> & _)|[-> _]];
      [reflexivity|].
    simpl. rewrite (deref_live heap agent a Ha). simpl.
    destruct (String.eqb_spec (Agent.id_ a) other); [congruence|reflexivity].
Qed.

(** Instance: "agent2" registered a second time. *)
Lemma registerAgent_getAgent_witness :
  registered_live demo_orchestrator demo_heap /\
  exists o',
    AgentOrchestrator.registerAgent 2%positive demo_heap demo_orchestrator = Ok o' /\
    AgentOrchestrator.getAgentCount o' = 3 /\
    AgentOrchestrator.getAgent "agent2" demo_heap o' = Ok (Some 2%positive).
Proof.
  assert (Hlive : registered_live demo_orchestrator demo_heap).
  { repeat constructor; eexists; reflexivity. }
  split; [exact Hlive|].
  destruct (registerAgent_getAgent 2%positive (Agent.make "agent2" "Agent 2")
              demo_orchestrator demo_heap Hlive eq_refl)
    as (o' & H1 & _ & H2 & _ & H3 & _).
  exists o'. split; [exact H1|]. split; [exact H2|exact H3].
Defined.

(** ** The message loop of [CognitiveAgent] *)

Lemma processMessages_spec fuel c :
  length (Agent.message_queue_ (CognitiveAgent.agent c)) <= fuel ->
  CognitiveAgent.processMessages fuel c
  = Some (Ok {| CognitiveAgent.agent :=
                  {| Agent.id_ := Agent.id_ (CognitiveAgent.agent c);
                     Agent.name_ := Agent.name_ (CognitiveAgent.agent c);
                     Agent.state_ := Agent.state_ (CognitiveAgent.agent c);
                     Agent.message_queue_ := [] |};
                CognitiveAgent.knowledge_ :=
                  CognitiveAgent.knowledge_ c
                  ++ map CognitiveAgent.received
                         (Agent.message_queue_ (CognitiveAgent.agent c));
                CognitiveAgent.goals_ := CognitiveAgent.goals_ c |}).
Proof.
  revert c. induction fuel as [|fuel IH]; intros [[id name st q] k g] Hlen; simpl in *.
  - destruct q; simpl in *; [|lia]. rewrite app_nil_r. reflexivity.
  - destruct q as [|m q]; simpl in *; [rewrite app_nil_r; reflexivity|].
    unfold CognitiveAgent.hasMessages, CognitiveAgent.getNextMessage. simpl.
    rewrite IH by (simpl; lia). simpl. rewrite <- app_assoc. reflexivity.
Qed.

Lemma processMessages_short fuel c :
  fuel < length (Agent.message_queue_ (CognitiveAgent.agent c)) ->
  CognitiveAgent.processMessages fuel c = None.
Proof.
  revert c. induction fuel as [|fuel IH]; intros [[id name st q] k g] Hlen; simpl in *.
  - destruct q; simpl in *; [lia|reflexivity].
  - destruct q as [|m q]; simpl in *; [lia|].
    unfold CognitiveAgent.hasMessages, CognitiveAgent.getNextMessage. simpl.
    apply IH. simpl. lia.
Qed.

(** [processMessages] of a [CognitiveAgent] ends after as many iterations
    as there are messages and never runs into the "no messages" error. It
    leaves the queue empty and appends one knowledge entry per message, in
    the order of arrival, of the form "Received: <content> from <from>";
    id, name, state and goals are unchanged. *)
Theorem processMessages_drains (c : CognitiveAgent.t) (fuel : nat) :
  (length (Agent.message_queue_ (CognitiveAgent.agent c)) <= fuel ->
   exists c',
     CognitiveAgent.processMessages fuel c = Some (Ok c') /\
     CognitiveAgent.hasMessages c' = false /\
     CognitiveAgent.knowledge_ c'
     = CognitiveAgent.knowledge_ c
       ++ map CognitiveAgent.received (Agent.message_queue_ (CognitiveAgent.agent c)) /\
     CognitiveAgent.goals_ c' = CognitiveAgent.goals_ c /\
     Agent.id_ (CognitiveAgent.agent c') = Agent.id_ (CognitiveAgent.agent c) /\
     Agent.name_ (CognitiveAgent.agent c') = Agent.name_ (CognitiveAgent.agent c) /\
     Agent.state_ (CognitiveAgent.agent c') = Agent.state_ (CognitiveAgent.agent c)) /\
  (fuel < length (Agent.message_queue_ (CognitiveAgent.agent c)) ->
   CognitiveAgent.processMessages fuel c = None).
Proof.
  split; [|apply processMessages_short].
  intros Hlen. rewrite (processMessages_spec fuel c Hlen). eexists.
  split; [reflexivity|]. repeat split.
Qed.

(** Instance: two messages in the queue of a fresh agent. *)
Lemma processMessages_drains_witness :
  exists c',
    CognitiveAgent.processMessages 2
      (CognitiveAgent.receiveMessage (AgentMessage.make "b" "a" "note" "two")
         (CognitiveAgent.receiveMessage demo_message (CognitiveAgent.make "a" "A")))
    = Some (Ok c') /\
    CognitiveAgent.knowledge_ c' = ["Received: hello from test_agent"; "Received: two from b"].
Proof.
  destruct (proj1 (processMessages_drains
                     (CognitiveAgent.receiveMessage (AgentMessage.make "b" "a" "note" "two")
                        (CognitiveAgent.receiveMessage demo_message
                           (CognitiveAgent.make "a" "A"))) 2) (le_n 2))
    as (c' & H1 & _ & H2 & _).
  exists c'. split; [exact H1|]. rewrite H2. reflexivity.
Defined.

(** ** The relevance table and [addConcept] under all inputs *)

Lemma relevance_in_range_insert h x r :
  in_unit_interval x = true -> relevance_in_range r ->
  forall r',
    CognitiveFusionReactor.relevance_scores_ r'
    = <[h := x]> (CognitiveFusionReactor.relevance_scores_ r) ->
    relevance_in_range r'.
Proof.
  intros Hx Hr r' Hr' h' x'. rewrite Hr'.
  destruct (decide (h = h')) as [<-|Hne].
  - rewrite lookup_insert_eq. intros [= <-]. exact Hx.
  - rewrite lookup_insert_ne by exact Hne. apply Hr.
Qed.

Lemma addConcept_scores name embedding r node r' :
  CognitiveFusionReactor.addConcept name embedding r = Ok (node, r') ->
  CognitiveFusionReactor.relevance_scores_ r'
  = <[AtomSpace.getHandle node := F32.half]> (CognitiveFusionReactor.relevance_scores_ r) /\
  CognitiveFusionReactor.attention_bank_ r'
  = <[AtomSpace.getHandle node := CognitiveFusionReactor.neutral_attention]>
      (CognitiveFusionReactor.attention_bank_ r) /\
  CognitiveFusionReactor.learner_ r' = CognitiveFusionReactor.learner_ r.
Proof.
  unfold CognitiveFusionReactor.addConcept.
  destruct (AtomSpace.addNode name embedding _) as [[n store]| |]; simpl; try discriminate.
  destruct (negb _ && _).
  - destruct (EmbeddingSpace.addEmbedding name _ _) as [space| |]; simpl; try discriminate.
    intros [= <- <-]. auto.
  - simpl. intros [= <- <-]. auto.
Qed.

(** The relevance table stays within [0, 1]: on a table with values in
    [0, 1], [getRelevance] returns a value in [0, 1] for every handle (0.5
    for a handle without entry); [setRelevance] stores the clamped value,
    which [getRelevance] returns, and keeps the table in range unless it is
    handed a NaN, as [updateRelevance] does; [addConcept], [addRelation],
    [setAttention], [spreadAttention] and [learnSimilarity] keep the table
    in range as well. *)
Theorem relevance_stays_in_range (r : CognitiveFusionReactor.t) :
  relevance_in_range r ->
  (forall h, in_unit_interval (CognitiveFusionReactor.getRelevance h r) = true) /\
  (forall h x,
     CognitiveFusionReactor.getRelevance h (CognitiveFusionReactor.setRelevance h x r)
     = F32.clamp x F32.zero F32.one) /\
  (forall h x, F32.is_nan x = false ->
     relevance_in_range (CognitiveFusionReactor.setRelevance h x r)) /\
  (forall h delta, F32.is_nan delta = false ->
     relevance_in_range (CognitiveFusionReactor.updateRelevance h delta r)) /\
  (forall name embedding node r',
     CognitiveFusionReactor.addConcept name embedding r = Ok (node, r') ->
     relevance_in_range r') /\
  (forall type outgoing,
     relevance_in_range (snd (CognitiveFusionReactor.addRelation type outgoing r))) /\
  (forall h a, relevance_in_range (CognitiveFusionReactor.setAttention h a r)) /\
  relevance_in_range (CognitiveFusionReactor.spreadAttention r) /\
  (forall concept1 concept2 target loss r',
     CognitiveFusionReactor.learnSimilarity concept1 concept2 target r = Ok (loss, r') ->
     relevance_in_range r').
Proof.
  intros Hr. split; [|split; [|split; [|split; [|split; [|split; [|split; [|split]]]]]]].
  - intros h. unfold CognitiveFusionReactor.getRelevance.
    destruct (CognitiveFusionReactor.relevance_scores_ r !! h) as [x|] eqn:E; simpl;
      [exact (Hr h x E)|reflexivity].
  - intros h x. unfold CognitiveFusionReactor.getRelevance. simpl.
    rewrite lookup_insert_eq. reflexivity.
  - intros h x Hx.
    eapply (relevance_in_range_insert h _ r (clamp_in_unit_interval x Hx) Hr). reflexivity.
  - intros h delta Hd. apply updateRelevance_in_range; assumption.
  - intros name embedding node r' Hadd.
    destruct (addConcept_scores _ _ _ _ _ Hadd) as (Hs & _).
    eapply (relevance_in_range_insert _ F32.half r eq_refl Hr). exact Hs.
  - intros type outgoing.
    eapply (relevance_in_range_insert _ F32.half r eq_refl Hr).
    unfold CognitiveFusionReactor.addRelation, AtomSpace.addLink, AtomSpace.generateHandle.
    reflexivity.
  - intros h a. exact Hr.
  - exact Hr.
  - intros concept1 concept2 target loss r'. unfold CognitiveFusionReactor.learnSimilarity.
    destruct (EmbeddingSpace.getEmbedding concept1 _); [|intros [= _ <-]; exact Hr].
    destruct (EmbeddingSpace.getEmbedding concept2 _); [|intros [= _ <-]; exact Hr].
    destruct (EmbeddingLearner.learnFromSimilarity _ _ _ _) as [[loss0 l]| |]; simpl;
      try discriminate.
    intros [= _ <-]. exact Hr.
Qed.

(** Instance: the fresh facade, whose table is empty. *)
Lemma relevance_stays_in_range_witness :
  relevance_in_range lab /\
  CognitiveFusionReactor.getRelevance 7 lab = F32.half /\
  CognitiveFusionReactor.getRelevance 7 (CognitiveFusionReactor.setRelevance 7 F32.two lab)
    = F32.one /\
  relevance_in_range (CognitiveFusionReactor.setRelevance 7 F32.two lab).
Proof.
  assert (Hlab : relevance_in_range lab).
  { intros h x H. simpl in H. rewrite lookup_empty in H. discriminate. }
  destruct (relevance_stays_in_range lab Hlab) as (_ & H1 & H2 & _).
  split; [exact Hlab|]. split; [reflexivity|].
  split; [rewrite H1; reflexivity|apply H2; reflexivity].
Defined.

(** [addConcept] never throws: on a facade that keeps one dimension and
    whose store has a closed index, the call returns a Node for every name
    and every embedding, sets the relevance of the Node to 0.5 and its
    attention to (0.5, 0.5, 0.5), and leaves the learner alone. The
    embedding reaches the embedding space, as one appended entry, exactly
    when it is non-empty and of the facade's dimension; an embedding of
    another dimension is left out of the space without any error. *)
Theorem addConcept_total (name : string) (embedding : list f32)
    (r : CognitiveFusionReactor.t) :
  consistent r -> index_closed (CognitiveFusionReactor.atomspace_ r) ->
  exists node r',
    CognitiveFusionReactor.addConcept name embedding r = Ok (node, r') /\
    AtomSpace.isNode node = true /\
    consistent r' /\ index_closed (CognitiveFusionReactor.atomspace_ r') /\
    CognitiveFusionReactor.getRelevance (AtomSpace.getHandle node) r' = F32.half /\
    CognitiveFusionReactor.getAttention (AtomSpace.getHandle node) r'
    = CognitiveFusionReactor.neutral_attention /\
    CognitiveFusionReactor.learner_ r' = CognitiveFusionReactor.learner_ r /\
    (embedding <> [] -> length embedding = CognitiveFusionReactor.embedding_dim_ r ->
     EmbeddingSpace.embeddings_ (CognitiveFusionReactor.embedding_space_ r')
     = EmbeddingSpace.embeddings_ (CognitiveFusionReactor.embedding_space_ r)
       ++ [(name, TensorEmbedding.of_data embedding)]) /\
    (embedding = [] \/ length embedding <> CognitiveFusionReactor.embedding_dim_ r ->
     CognitiveFusionReactor.embedding_space_ r' = CognitiveFusionReactor.embedding_space_ r).
Proof.
  intros Hr Hclosed.
  destruct (addNode_defined name embedding _ Hclosed) as [[node store] Hnode].
  assert (Hisnode : AtomSpace.isNode node = true).
  { revert Hnode. unfold AtomSpace.addNode, AtomSpace.create_node, AtomSpace.generateHandle.
    destruct (AtomSpace.name_index_ _ !! name) as [[|h0 hs]|]; simpl.
    - intros [= <- _]. reflexivity.
    - destruct (AtomSpace.atoms_ _ !! h0) as [existing|]; [|discriminate].
      destruct (AtomSpace.isNode existing) eqn:En; intros [= <- _]; [exact En|reflexivity].
    - intros [= <- _]. reflexivity. }
  pose proof (index_closed_addNode _ _ _ _ _ Hclosed Hnode) as Hclosed'.
  assert (Hok : exists r', CognitiveFusionReactor.addConcept name embedding r = Ok (node, r') /\
                  CognitiveFusionReactor.atomspace_ r' = store /\
                  (embedding <> [] ->
                   length embedding = CognitiveFusionReactor.embedding_dim_ r ->
                   EmbeddingSpace.embeddings_ (CognitiveFusionReactor.embedding_space_ r')
                   = EmbeddingSpace.embeddings_ (CognitiveFusionReactor.embedding_space_ r)
                     ++ [(name, TensorEmbedding.of_data embedding)]) /\
                  (embedding = [] \/
                   length embedding <> CognitiveFusionReactor.embedding_dim_ r ->
                   CognitiveFusionReactor.embedding_space_ r'
                   = CognitiveFusionReactor.embedding_space_ r)).
  { unfold CognitiveFusionReactor.addConcept. rewrite Hnode. simpl.
    destruct Hr as (Hd & _).
    destruct (Nat.eqb_spec (length embedding) 0) as [E0|E0]; simpl.
    - eexists. split; [reflexivity|]. simpl. split; [reflexivity|]. split; [|reflexivity].
      intros Hne. destruct embedding; [congruence|discriminate].
    - destruct (Nat.eqb_spec (length embedding) (CognitiveFusionReactor.embedding_dim_ r))
        as [E|E]; simpl.
      + destruct (addEmbedding_cases name (TensorEmbedding.of_data embedding)
                    (CognitiveFusionReactor.embedding_space_ r)) as [[Hne _]|[_ ->]].
        { destruct Hne. unfold TensorEmbedding.dimensions. simpl. congruence. }
        simpl. eexists. split; [reflexivity|]. simpl. split; [reflexivity|].
        split; [reflexivity|]. intros [-> | Hne]; [simpl in E0; congruence|contradiction].
      + eexists. split; [reflexivity|]. simpl. split; [reflexivity|].
        split; [intros _ Hlen; contradiction|reflexivity]. }
  destruct Hok as (r' & Hadd & Hstore & Happ & Hsame).
  exists node, r'. split; [exact Hadd|]. split; [exact Hisnode|].
  split; [exact (addConcept_consistent _ _ _ _ _ Hr Hadd)|].
  split; [rewrite Hstore; exact Hclosed'|].
  destruct (addConcept_scores _ _ _ _ _ Hadd) as (Hs & Ha & Hl).
  split; [unfold CognitiveFusionReactor.getRelevance; rewrite Hs, lookup_insert_eq; reflexivity|].
  split; [unfold CognitiveFusionReactor.getAttention; rewrite Ha, lookup_insert_eq; reflexivity|].
  auto.
Qed.

(** Instance: an embedding of two components on the facade of dimension 1. *)
Lemma addConcept_total_witness :
  consistent lab /\ index_closed (CognitiveFusionReactor.atomspace_ lab) /\
  exists node r',
    CognitiveFusionReactor.addConcept "cat" [F32.one; F32.one] lab = Ok (node, r') /\
    AtomSpace.getEmbedding node = [F32.one; F32.one] /\
    CognitiveFusionReactor.embedding_space_ r' = CognitiveFusionReactor.embedding_space_ lab.
Proof.
  assert (Hlab : consistent lab) by (apply make_consistent; repeat constructor).
  split; [exact Hlab|]. split; [exact index_closed_empty|].
  destruct (addConcept_total "cat" [F32.one; F32.one] lab Hlab index_closed_empty)
    as (node & r' & Hadd & _ & _ & _ & _ & _ & _ & _ & Hsame).
  exists node, r'. split; [exact Hadd|]. split.
  - vm_compute in Hadd. injection Hadd as <- _. reflexivity.
  - apply Hsame. right. discriminate.
Defined.

(** ** The cap on the short-term importance *)

Lemma ltb_leb x y : F32.ltb x y = true -> F32.leb x y = true.
Proof.
  unfold F32.ltb, F32.leb, SFltb, SFleb.
  destruct (SFcompare x y) as [[]|]; try discriminate; reflexivity.
Qed.

Lemma min_one_le y : F32.leb (F32.min F32.one y) F32.one = true.
Proof.
  unfold F32.min. destruct (F32.ltb y F32.one) eqn:E; [apply ltb_leb; exact E|reflexivity].
Qed.

Lemma iterate_raised_le n x : F32.leb (iterate raised (S n) x) F32.one = true.
Proof.
  revert x. induction n as [|n IH]; intros x.
  - apply min_one_le.
  - change (iterate raised (S (S n)) x) with (iterate raised (S n) (raised x)). apply IH.
Qed.

(** Both places that raise a short-term importance cap it with
    [std::min(1.0f, ...)]: after [spreadAttention] the sti of every atom it
    visited is at most 1.0 and is no NaN, whatever the entry held before,
    and so is the sti that [updateRelevance] raises. A NaN sti is replaced
    by exactly 1.0 (the comparison of [std::min] is false on a NaN). There
    is no bound from below. *)
Theorem sti_capped_from_above (r : CognitiveFusionReactor.t) :
  (forall t, In t (spread_targets r) ->
     F32.leb (CognitiveFusionReactor.sti
                (CognitiveFusionReactor.getAttention t (CognitiveFusionReactor.spreadAttention r)))
             F32.one = true) /\
  (forall h delta a, F32.gtb delta F32.zero = true ->
     CognitiveFusionReactor.attention_bank_ r !! h = Some a ->
     F32.leb (CognitiveFusionReactor.sti
                (CognitiveFusionReactor.getAttention h
                   (CognitiveFusionReactor.updateRelevance h delta r)))
             F32.one = true) /\
  (forall x, F32.leb (raised x) F32.one = true) /\
  raised S754_nan = F32.one /\
  (forall h delta a, F32.gtb delta F32.zero = true ->
     CognitiveFusionReactor.attention_bank_ r !! h = Some a ->
     F32.is_nan (CognitiveFusionReactor.sti a) = true ->
     CognitiveFusionReactor.sti
       (CognitiveFusionReactor.getAttention h
          (CognitiveFusionReactor.updateRelevance h delta r)) = F32.one).
Proof.
  split; [|split; [|split; [|split]]].
  - intros t Ht. unfold CognitiveFusionReactor.getAttention.
    rewrite spreadAttention_bank, raise_fold_lookup.
    apply (count_occ_In N.eq_dec) in Ht.
    destruct (count_occ N.eq_dec (spread_targets r) t) as [|n]; [lia|].
    simpl. apply iterate_raised_le.
  - intros h delta a Hpos Ha.
    unfold CognitiveFusionReactor.getAttention, CognitiveFusionReactor.updateRelevance.
    simpl. rewrite Hpos, Ha, lookup_insert_eq. simpl. apply min_one_le.
  - intros x. apply min_one_le.
  - reflexivity.
  - intros h delta a Hpos Ha Hnan.
    unfold CognitiveFusionReactor.getAttention, CognitiveFusionReactor.updateRelevance.
    simpl. rewrite Hpos, Ha, lookup_insert_eq. simpl.
    destruct (CognitiveFusionReactor.sti a); try discriminate. reflexivity.
Qed.

(** Instance: a Link at sti 0.8 over a Node whose sti was set to NaN. *)
Lemma sti_capped_from_above_witness :
  In 1%N (spread_targets
            (CognitiveFusionReactor.setAttention 1 (with_sti S754_nan) hop)) /\
  F32.leb (CognitiveFusionReactor.sti
             (CognitiveFusionReactor.getAttention 1
                (CognitiveFusionReactor.spreadAttention
                   (CognitiveFusionReactor.setAttention 1 (with_sti S754_nan) hop))))
          F32.one = true.
Proof.
  assert (Hin : In 1%N (spread_targets
                          (CognitiveFusionReactor.setAttention 1 (with_sti S754_nan) hop))).
  { vm_compute. auto. }
  split; [exact Hin|].
  exact (proj1 (sti_capped_from_above
                  (CognitiveFusionReactor.setAttention 1 (with_sti S754_nan) hop)) 1%N Hin).
Defined.

(** ** What [findNearest] returns *)

Lemma scan_entry_inv query threshold entry e :
  EmbeddingSpace.scan_entry query threshold entry = Some e ->
  fst e = fst entry /\
  snd e = TensorEmbedding.cosineSimilarity query (snd entry) /\
  F32.geb (snd e) threshold = true.
Proof.
  unfold EmbeddingSpace.scan_entry.
  destruct (F32.geb _ threshold) eqn:E; [|discriminate].
  intros [= <-]. simpl. auto.
Qed.

Lemma length_omap_le {A B} (f : A -> option B) (l : list A) : length (omap f l) <= length l.
Proof.
  induction l as [|x l IH]; simpl; [lia|].
  change (list_omap A B f l) with (omap f l). destruct (f x); simpl; lia.
Qed.

Lemma scan_entry_nan_threshold query threshold entries :
  F32.is_nan threshold = true ->
  omap (EmbeddingSpace.scan_entry query threshold) entries = [].
Proof.
  intros Hnan. destruct threshold; try discriminate.
  induction entries as [|entry entries IH]; simpl; [reflexivity|].
  unfold EmbeddingSpace.scan_entry at 1, F32.geb, SFleb. simpl. exact IH.
Qed.

(** The answers of [findNearest], for every [std::sort] that meets its
    contract: each returned pair is the id of a stored entry with the
    cosine similarity of the query to that entry, at or above the
    threshold; there are at most [min(k, size())] pairs; when [k] is at
    least [size()] the answer consists of all the stored entries at or
    above the threshold, each as often as it is stored; for [k = 0] and
    for a NaN threshold the answer is empty. *)
Theorem findNearest_results (std_sort : sorter) (query : TensorEmbedding.t) (k : nat)
    (threshold : f32) (sp : EmbeddingSpace.t) (l : list (string * f32)) :
  sort_contract std_sort ->
  EmbeddingSpace.findNearest std_sort query k threshold sp = Ok l ->
  (forall id sim, In (id, sim) l ->
     exists e, In (id, e) (EmbeddingSpace.embeddings_ sp) /\
               sim = TensorEmbedding.cosineSimilarity query e /\
               F32.geb sim threshold = true) /\
  length l <= Nat.min k (EmbeddingSpace.size sp) /\
  (EmbeddingSpace.size sp <= k ->
   Permutation (omap (EmbeddingSpace.scan_entry query threshold) (EmbeddingSpace.embeddings_ sp))
               l) /\
  (k = 0 -> l = []) /\
  (F32.is_nan threshold = true -> l = []).
Proof.
  intros Hsort. unfold EmbeddingSpace.findNearest, EmbeddingSpace.size.
  destruct (negb _); [discriminate|]. intros [= <-].
  set (scanned := omap (EmbeddingSpace.scan_entry query threshold)
                       (EmbeddingSpace.embeddings_ sp)).
  assert (Hscan : List.Forall (fun e => F32.geb (snd e) threshold = true) scanned).
  { apply Forall_omap. intros x y Hxy. apply (scan_entry_Some _ _ _ _ Hxy). }
  destruct (knn_result_sorted std_sort k threshold scanned Hsort Hscan) as [Hperm _].
  pose proof (length_omap_le (EmbeddingSpace.scan_entry query threshold)
                (EmbeddingSpace.embeddings_ sp)) as Hle.
  fold scanned in Hle. pose proof (Permutation_length Hperm) as Hlen.
  split; [|split; [|split; [|split]]].
  - intros id sim Hin. apply list_elem_of_In, subseteq_take in Hin.
    rewrite <- Hperm in Hin. apply list_elem_of_omap in Hin as ([id' e] & Hentry & Hs).
    destruct (scan_entry_inv _ _ _ _ Hs) as (Hid & Hsim & Hge). simpl in *. subst id'.
    exists e. split; [apply list_elem_of_In; exact Hentry|]. auto.
  - rewrite length_take. lia.
  - intros Hk. rewrite take_ge by lia. exact Hperm.
  - intros ->. reflexivity.
  - intros Hnan. unfold scanned in *.
    rewrite (scan_entry_nan_threshold query threshold _ Hnan) in *.
    apply Permutation_nil in Hperm. rewrite Hperm. destruct k; reflexivity.
Qed.

(** Instance: the facade of the fusion test, queried for two neighbours of
    the embedding of "cat" with straight insertion as [std::sort]. *)
Lemma findNearest_results_witness :
  sort_contract insertion_sort /\
  exists l,
    EmbeddingSpace.findNearest insertion_sort (TensorEmbedding.of_data v_cat) 2 F32.zero
      (CognitiveFusionReactor.embedding_space_ kennel) = Ok l /\
    map fst l = ["cat"; "dog"] /\
    length l <= Nat.min 2 (EmbeddingSpace.size (CognitiveFusionReactor.embedding_space_ kennel)).
Proof.
  split; [exact insertion_sort_contract|].
  destruct (EmbeddingSpace.findNearest insertion_sort (TensorEmbedding.of_data v_cat) 2
              F32.zero (CognitiveFusionReactor.embedding_space_ kennel)) as [l| |] eqn:E;
    try (vm_compute in E; discriminate).
  exists l. split; [reflexivity|].
  destruct (findNearest_results insertion_sort _ 2 F32.zero _ l insertion_sort_contract E)
    as (_ & Hlen & _).
  split; [|exact Hlen].
  vm_compute in E. injection E as <-. reflexivity.
Defined.

(** ** What the store's [querySimilar] returns *)

Lemma scan_atom_nan_threshold query threshold atoms :
  F32.is_nan threshold = true ->
  omap (AtomSpace.scan_atom query threshold) atoms = [].
Proof.
  intros Hnan. destruct threshold; try discriminate.
  induction atoms as [|atom atoms IH]; simpl; [reflexivity|].
  unfold AtomSpace.scan_atom at 1, F32.geb, SFleb. simpl.
  destruct (AtomSpace.isNode atom && AtomSpace.hasEmbedding atom); exact IH.
Qed.

(** The answers of the store's [querySimilar], for every [std::sort] that
    meets its contract: at most [min(k, size())] pairs; when [k] is at
    least [size()] the answer consists of all the Nodes that carry an
    embedding and whose similarity to the query is at or above the
    threshold, none left out; for [k = 0] and for a NaN threshold the
    answer is empty. *)
Theorem querySimilar_results (std_sort : sorter) (query : list f32) (k : nat)
    (threshold : f32) (s : AtomSpace.t) :
  sort_contract std_sort ->
  length (AtomSpace.querySimilar std_sort query k threshold s)
    <= Nat.min k (AtomSpace.size s) /\
  (AtomSpace.size s <= k ->
   Permutation (omap (AtomSpace.scan_atom query threshold) (AtomSpace.getAllAtoms s))
               (AtomSpace.querySimilar std_sort query k threshold s)) /\
  (AtomSpace.size s <= k ->
   forall h node,
     AtomSpace.getAtom h s = Some node ->
     AtomSpace.isNode node = true -> AtomSpace.hasEmbedding node = true ->
     F32.geb (AtomSpace.cosineSimilarity query (AtomSpace.getEmbedding node)) threshold = true ->
     In (node, AtomSpace.cosineSimilarity query (AtomSpace.getEmbedding node))
        (AtomSpace.querySimilar std_sort query k threshold s)) /\
  (k = 0 -> AtomSpace.querySimilar std_sort query k threshold s = []) /\
  (F32.is_nan threshold = true -> AtomSpace.querySimilar std_sort query k threshold s = []).
Proof.
  intros Hsort. unfold AtomSpace.querySimilar.
  set (scanned := omap (AtomSpace.scan_atom query threshold) (AtomSpace.getAllAtoms s)).
  assert (Hscan : List.Forall (fun e => F32.geb (snd e) threshold = true) scanned).
  { apply Forall_omap. intros x y Hxy. apply (scan_atom_Some _ _ _ _ Hxy). }
  destruct (knn_result_sorted std_sort k threshold scanned Hsort Hscan) as [Hperm _].
  pose proof (length_omap_le (AtomSpace.scan_atom query threshold) (AtomSpace.getAllAtoms s))
    as Hle.
  fold scanned in Hle. pose proof (Permutation_length Hperm) as Hlen.
  assert (Hall : length (AtomSpace.getAllAtoms s) = AtomSpace.size s).
  { unfold AtomSpace.getAllAtoms, AtomSpace.size. rewrite length_fmap.
    apply length_map_to_list. }
  split; [|split; [|split; [|split]]].
  - rewrite length_take. lia.
  - intros Hk. rewrite take_ge by lia. exact Hperm.
  - intros Hk h node Hnode Hn He Hge. rewrite take_ge by lia.
    apply (Permutation_in _ Hperm). apply list_elem_of_In, list_elem_of_omap.
    exists node. split.
    + unfold AtomSpace.getAllAtoms. apply list_elem_of_fmap. exists (h, node).
      split; [reflexivity|]. apply elem_of_map_to_list. exact Hnode.
    + unfold AtomSpace.scan_atom. rewrite Hn, He, Hge. reflexivity.
  - intros ->. reflexivity.
  - intros Hnan. unfold scanned in *.
    rewrite (scan_atom_nan_threshold query threshold _ Hnan) in *.
    apply Permutation_nil in Hperm. rewrite Hperm. destruct k; reflexivity.
Qed.

(** Instance: the store with the one Node "cat", queried with its own
    embedding and straight insertion as [std::sort]. *)
Lemma querySimilar_results_witness :
  sort_contract insertion_sort /\
  In (AtomSpace.Node 1 "cat" AtomSpace.default_truth_value [F32.one], F32.one)
     (AtomSpace.querySimilar insertion_sort [F32.one] 5 F32.zero
        (snd (AtomSpace.create_node "cat" [F32.one] AtomSpace.empty))).
Proof.
  split; [exact insertion_sort_contract|].
  apply (proj1 (proj2 (proj2 (querySimilar_results insertion_sort [F32.one] 5 F32.zero
                  (snd (AtomSpace.create_node "cat" [F32.one] AtomSpace.empty))
                  insertion_sort_contract))) ltac:(vm_compute; lia) 1%N
           (AtomSpace.Node 1 "cat" AtomSpace.default_truth_value [F32.one]));
    vm_compute; reflexivity.
Defined.

(** ** Messages arrive in the order in which they are sent *)

Lemma find_agent_same_ids agent_id heap q a a' agents :
  heap !! q = Some a -> Agent.id_ a' = Agent.id_ a ->
  AgentOrchestrator.find_agent agent_id (<[q := a']> heap) agents
  = AgentOrchestrator.find_agent agent_id heap agents.
Proof.
  intros Hq Hid. induction agents as [|p agents IH]; simpl; [reflexivity|].
  unfold AgentHeap.deref. destruct (decide (q = p)) as [<-|Hne].
  - rewrite lookup_insert_eq, Hq. simpl. rewrite Hid.
    destruct (String.eqb (Agent.id_ a) agent_id); [reflexivity|exact IH].
  - rewrite lookup_insert_ne by exact Hne.
    destruct (heap !! p) as [b|]; simpl; [|reflexivity].
    destruct (String.eqb (Agent.id_ b) agent_id); [reflexivity|exact IH].
Qed.

Lemma enqueue_queue messages a :
  enqueue messages a
  = {| Agent.id_ := Agent.id_ a; Agent.name_ := Agent.name_ a; Agent.state_ := Agent.state_ a;
       Agent.message_queue_ := Agent.message_queue_ a ++ messages |}.
Proof.
  unfold enqueue. revert a. induction messages as [|m messages IH]; intros a; simpl.
  - rewrite app_nil_r. destruct a; reflexivity.
  - rewrite IH. simpl. rewrite <- app_assoc. reflexivity.
Qed.

Lemma sendMessage_all_spec messages o heap :
  registered_live o heap ->
  exists heap',
    sendMessage_all messages o heap = Ok heap' /\
    forall p, heap' !! p = enqueue (List.filter (addressed_to o heap p) messages) <$> heap !! p.
Proof.
  revert heap. induction messages as [|m messages IH]; intros heap Hlive; simpl.
  - exists heap. split; [reflexivity|]. intros p. destruct (heap !! p); reflexivity.
  - unfold AgentOrchestrator.sendMessage at 1, addressed_to at 1, AgentOrchestrator.getAgent.
    destruct (find_agent_cases (AgentMessage.to m) heap _ Hlive)
      as [(q & a & Hfind & Hin & Hq & Hid)|[Hfind _]]; rewrite Hfind; simpl.
    + rewrite (receiveMessage_live heap q a m Hq). simpl.
      assert (Hsame : forall p m', addressed_to o (<[q := Agent.push m a]> heap) p m'
                                   = addressed_to o heap p m').
      { intros p m'. unfold addressed_to, AgentOrchestrator.getAgent.
        rewrite (find_agent_same_ids _ heap q a (Agent.push m a) _ Hq eq_refl). reflexivity. }
      destruct (IH (<[q := Agent.push m a]> heap)) as (heap' & -> & Hp).
      { unfold registered_live in *. eapply List.Forall_impl; [|exact Hlive].
        intros p Hsome. simpl in *. destruct (decide (q = p)) as [<-|Hne];
          [rewrite lookup_insert_eq; eauto|rewrite lookup_insert_ne by exact Hne; exact Hsome]. }
      exists heap'. split; [reflexivity|]. intros p. rewrite Hp.
      rewrite (filter_ext _ _ (Hsame p)).
      destruct (Pos.eqb_spec q p) as [<-|Hne].
      * rewrite lookup_insert_eq, Hq. reflexivity.
      * rewrite lookup_insert_ne by exact Hne. reflexivity.
    + destruct (IH heap Hlive) as (heap' & -> & Hp). exists heap'. split; [reflexivity|].
      exact Hp.
Qed.

(** A run of [sendMessage] calls on an orchestrator whose pointers are
    live returns normally. Every agent ends with its former queue followed
    by the messages of the run for which the lookup by [message.to] finds
    that agent (the first registered agent with the id), in the order in
    which they were sent; [getNextMessage] then hands them out in that
    order. Messages to an id that is not registered are dropped. *)
Theorem sendMessage_keeps_order (messages : list AgentMessage.t) (o : AgentOrchestrator.t)
    (heap : gmap AgentPtr Agent.t) :
  registered_live o heap ->
  exists heap',
    sendMessage_all messages o heap = Ok heap' /\
    (forall p, heap' !! p
               = enqueue (List.filter (addressed_to o heap p) messages) <$> heap !! p) /\
    (forall p a, heap !! p = Some a ->
       Agent.message_queue_ <$> heap' !! p
       = Some (Agent.message_queue_ a ++ List.filter (addressed_to o heap p) messages) /\
       fst <$> AgentHeap.getNextMessages
                 (length (Agent.message_queue_ a
                          ++ List.filter (addressed_to o heap p) messages)) p heap'
       = Ok (Agent.message_queue_ a ++ List.filter (addressed_to o heap p) messages)) /\
    (forall p, heap !! p = None -> heap' !! p = None).
Proof.
  intros Hlive. destruct (sendMessage_all_spec messages o heap Hlive) as (heap' & Hrun & Hp).
  exists heap'. split; [exact Hrun|]. split; [exact Hp|]. split.
  - intros p a Ha. rewrite Hp, Ha. simpl. rewrite enqueue_queue. simpl.
    split; [reflexivity|].
    erewrite (getNextMessages_drain p heap' _ _ []).
    + reflexivity.
    + rewrite Hp, Ha. simpl. rewrite enqueue_queue. reflexivity.
    + simpl. rewrite app_nil_r. reflexivity.
  - intros p Hnone. rewrite Hp, Hnone. reflexivity.
Qed.

(** Instance: three messages on the orchestrator of the test, two of them
    to "agent2" and one to an id that is not registered. *)
Lemma sendMessage_keeps_order_witness :
  registered_live demo_orchestrator demo_heap /\
  exists heap',
    sendMessage_all
      [demo_message; AgentMessage.make "test_agent" "nobody" "test" "lost";
       AgentMessage.make "test_agent" "agent2" "test" "again"]
      demo_orchestrator demo_heap = Ok heap' /\
    Agent.message_queue_ <$> heap' !! 2%positive
    = Some [demo_message; AgentMessage.make "test_agent" "agent2" "test" "again"].
Proof.
  assert (Hlive : registered_live demo_orchestrator demo_heap).
  { repeat constructor; eexists; reflexivity. }
  split; [exact Hlive|].
  destruct (sendMessage_keeps_order
              [demo_message; AgentMessage.make "test_agent" "nobody" "test" "lost";
               AgentMessage.make "test_agent" "agent2" "test" "again"]
              demo_orchestrator demo_heap Hlive) as (heap' & H1 & _ & H2 & _).
  exists heap'. split; [exact H1|].
  exact (proj1 (H2 2%positive (Agent.make "agent2" "Agent 2") eq_refl)).
Defined.

(** ** C9: [addConcept] on a name that is taken *)

Lemma oldest_first_indexed name s atom :
  well_formed s -> oldest_named name s atom -> first_indexed name s = Some atom.
Proof.
  intros (_ & _ & Hatoms & Hindex) (Hat & Hname & Hold). unfold AtomSpace.getAtom in *.
  destruct (Hatoms _ atom Hat) as (_ & hs & Hhs & Hin). rewrite Hname in Hhs.
  destruct (Hindex name hs Hhs) as [Hsorted Hc].
  unfold first_indexed. rewrite Hhs.
  destruct hs as [|h0 hs]; [destruct Hin|].
  destruct (Hc h0 (or_introl eq_refl)) as (a0 & Ha0 & Hn0).
  pose proof (Hold h0 a0 Ha0 Hn0) as Hle.
  destruct Hin as [->|Hin]; [exact Hat|].
  inversion Hsorted as [|? ? _ Hall]; subst. rewrite List.Forall_forall in Hall.
  pose proof (Hall _ Hin). lia.
Qed.

(** C9 (as amended). On a facade whose store is grown, when a Node with the
    name exists and is the oldest atom that carries the name (no Link with
    that type string was added before it), [addConcept(name, embedding)]
    returns that Node, leaves the store as it is, sets the relevance of its
    handle to 0.5 and its attention to {0.5, 0.5, 0.5} whatever the caller
    had set, and touches no other handle. When the embedding is non-empty
    and of the configured dimension it also appends the entry (name,
    embedding) to the Embedding Space; lookup by name then returns the
    entry that was stored first under the name: the earlier entry when the
    name had one, so that the appended entry is never returned, and the
    appended entry when the name had none. Otherwise the space is
    unchanged. *)
Theorem addConcept_existing_node (name : string) (embedding : list f32)
    (r : CognitiveFusionReactor.t) (existing : AtomSpace.Atom) :
  EmbeddingSpace.dimensions_ (CognitiveFusionReactor.embedding_space_ r)
    = CognitiveFusionReactor.embedding_dim_ r ->
  grown (CognitiveFusionReactor.atomspace_ r) ->
  oldest_named name (CognitiveFusionReactor.atomspace_ r) existing ->
  AtomSpace.isNode existing = true ->
  exists r',
    CognitiveFusionReactor.addConcept name embedding r = Ok (existing, r') /\
    CognitiveFusionReactor.atomspace_ r' = CognitiveFusionReactor.atomspace_ r /\
    CognitiveFusionReactor.relevance_scores_ r' !! AtomSpace.getHandle existing
      = Some F32.half /\
    CognitiveFusionReactor.getRelevance (AtomSpace.getHandle existing) r' = F32.half /\
    CognitiveFusionReactor.attention_bank_ r' !! AtomSpace.getHandle existing
      = Some CognitiveFusionReactor.neutral_attention /\
    CognitiveFusionReactor.getAttention (AtomSpace.getHandle existing) r'
      = CognitiveFusionReactor.neutral_attention /\
    (forall h, h <> AtomSpace.getHandle existing ->
       CognitiveFusionReactor.relevance_scores_ r' !! h
         = CognitiveFusionReactor.relevance_scores_ r !! h /\
       CognitiveFusionReactor.attention_bank_ r' !! h
         = CognitiveFusionReactor.attention_bank_ r !! h) /\
    (embedding <> [] /\ length embedding = CognitiveFusionReactor.embedding_dim_ r ->
       EmbeddingSpace.embeddings_ (CognitiveFusionReactor.embedding_space_ r')
         = EmbeddingSpace.embeddings_ (CognitiveFusionReactor.embedding_space_ r)
             ++ [(name, TensorEmbedding.of_data embedding)] /\
       (forall e,
          EmbeddingSpace.getEmbedding name (CognitiveFusionReactor.embedding_space_ r) = Some e ->
          EmbeddingSpace.getEmbedding name (CognitiveFusionReactor.embedding_space_ r') = Some e) /\
       (EmbeddingSpace.getEmbedding name (CognitiveFusionReactor.embedding_space_ r) = None ->
        EmbeddingSpace.getEmbedding name (CognitiveFusionReactor.embedding_space_ r')
        = Some (TensorEmbedding.of_data embedding))) /\
    (embedding = [] \/ length embedding <> CognitiveFusionReactor.embedding_dim_ r ->
       CognitiveFusionReactor.embedding_space_ r' = CognitiveFusionReactor.embedding_space_ r).
Proof.
  intros Hdim Hgrown Hold Hnode.
  pose proof (oldest_first_indexed name _ existing (grown_well_formed _ Hgrown) Hold) as Hfirst.
  destruct (addConcept_reuses_node name embedding r existing Hdim Hfirst Hnode)
    as (r' & Hadd & Hstore & Hrel & Hget & Hatt & Hgeta & Hother & Hemb & Hsame).
  exists r'. do 7 (split; [assumption|]). split; [|exact Hsame].
  intros Hvalid. destruct (Hemb Hvalid) as [Happ Hearlier].
  split; [exact Happ|]. split; [exact Hearlier|].
  intros Hnone. unfold EmbeddingSpace.getEmbedding in *.
  rewrite Happ, lookup_first_app, Hnone. simpl. rewrite String.eqb_refl. reflexivity.
Qed.

(** Instance of C9: [addConcept("cat", {1.0})] a second time, after the
    caller has set the relevance of "cat" to 0.9 and its sti to 0.8. *)
Lemma addConcept_existing_node_witness :
  grown (CognitiveFusionReactor.atomspace_ tuned) /\
  oldest_named "cat" (CognitiveFusionReactor.atomspace_ tuned)
    (AtomSpace.Node 1 "cat" AtomSpace.default_truth_value [F32.one]) /\
  CognitiveFusionReactor.getRelevance 1 tuned = c0_9 /\
  CognitiveFusionReactor.getAttention 1 tuned = with_sti c0_8 /\
  exists r',
    CognitiveFusionReactor.addConcept "cat" [F32.one] tuned
      = Ok (AtomSpace.Node 1 "cat" AtomSpace.default_truth_value [F32.one], r') /\
    CognitiveFusionReactor.getRelevance 1 r' = F32.half /\
    CognitiveFusionReactor.getAttention 1 r' = CognitiveFusionReactor.neutral_attention /\
    EmbeddingSpace.embeddings_ (CognitiveFusionReactor.embedding_space_ r')
      = [("cat", TensorEmbedding.of_data [F32.one]);
         ("cat", TensorEmbedding.of_data [F32.one])].
Proof.
  assert (Hdim : EmbeddingSpace.dimensions_ (CognitiveFusionReactor.embedding_space_ tuned)
                 = CognitiveFusionReactor.embedding_dim_ tuned)
    by (vm_compute; reflexivity).
  assert (Hgrown : grown (CognitiveFusionReactor.atomspace_ tuned)).
  { exact (grown_addNode AtomSpace.empty "cat" [F32.one] _ _ grown_empty eq_refl eq_refl). }
  assert (Hold : oldest_named "cat" (CognitiveFusionReactor.atomspace_ tuned)
                   (AtomSpace.Node 1 "cat" AtomSpace.default_truth_value [F32.one])).
  { split; [vm_compute; reflexivity|]. split; [reflexivity|].
    intros h a Ha _. destruct (grown_well_formed _ Hgrown) as (Hdense & _).
    assert (Hs : is_Some (AtomSpace.atoms_ (CognitiveFusionReactor.atomspace_ tuned) !! h))
      by (unfold AtomSpace.getAtom in Ha; rewrite Ha; eauto).
    apply Hdense in Hs. simpl. lia. }
  assert (Hlen : length [F32.one] = CognitiveFusionReactor.embedding_dim_ tuned)
    by (vm_compute; reflexivity).
  split; [exact Hgrown|]. split; [exact Hold|].
  split; [vm_compute; reflexivity|]. split; [vm_compute; reflexivity|].
  destruct (addConcept_existing_node "cat" [F32.one] tuned
              (AtomSpace.Node 1 "cat" AtomSpace.default_truth_value [F32.one])
              Hdim Hgrown Hold eq_refl)
    as (r' & Hadd & _ & _ & Hrel & _ & Hatt & _ & Hemb & _).
  exists r'. split; [exact Hadd|]. split; [exact Hrel|]. split; [exact Hatt|].
  assert (Hne : [F32.one] <> []) by discriminate.
  destruct (Hemb (conj Hne Hlen)) as [Happ _].
  etransitivity; [exact Happ|]. vm_compute. reflexivity.
Defined.

(** C9 as stated fails where the code works as designed: in [plain] the
    Node "cat" exists, created without an embedding, and is the only atom
    of the store. [addConcept("cat", {1.0})] returns that Node and appends
    the entry ("cat", {1.0}); the space then holds this one entry, no
    second one, and lookup by name returns it. *)
Lemma addConcept_first_entry_returned :
  AtomSpace.getAllAtoms (CognitiveFusionReactor.atomspace_ plain)
    = [AtomSpace.Node 1 "cat" AtomSpace.default_truth_value []] /\
  EmbeddingSpace.getEmbedding "cat" (CognitiveFusionReactor.embedding_space_ plain) = None /\
  fst <$> CognitiveFusionReactor.addConcept "cat" [F32.one] plain
    = Ok (AtomSpace.Node 1 "cat" AtomSpace.default_truth_value []) /\
  EmbeddingSpace.embeddings_
    (CognitiveFusionReactor.embedding_space_
       (state_of (CognitiveFusionReactor.addConcept "cat" [F32.one] plain) lab))
    = [("cat", TensorEmbedding.of_data [F32.one])] /\
  EmbeddingSpace.getEmbedding "cat"
    (CognitiveFusionReactor.embedding_space_
       (state_of (CognitiveFusionReactor.addConcept "cat" [F32.one] plain) lab))
    = Some (TensorEmbedding.of_data [F32.one]).
Proof. vm_compute. auto 10. Qed.
